(** * MoonTVPlus storage adapters (D1 / Postgres): a shallow embedding

    The two relational adapters [src/lib/d1.db.ts] and
    [src/lib/postgres.db.ts] implement the same [IStorage] interface by
    issuing SQL statements through a [DatabaseAdapter].  This development
    models the tables of [migrations/postgres] as lists of rows, every SQL
    statement the modelled methods issue as a function on those lists, and
    the methods themselves as state transformers over the database, the
    shared [userInfoCache] and the process environment. *)

From Stdlib Require Import ZArith Lia Ascii String.
From stdpp Require Import base tactics option list sorting strings gmap.

Local Open Scope Z_scope.

(** ** SHA-256 (FIPS 180-4), the digest behind [crypto.subtle.digest] *)

Module Sha256.

Definition w32 (x : Z) : Z := Z.land x 4294967295.

Definition rotr (n x : Z) : Z :=
  Z.lor (Z.shiftr x n) (w32 (Z.shiftl x (32 - n))).

Definition Ch (x y z : Z) : Z :=
  Z.lxor (Z.land x y) (Z.land (w32 (Z.lnot x)) z).

Definition Maj (x y z : Z) : Z :=
  Z.lxor (Z.lxor (Z.land x y) (Z.land x z)) (Z.land y z).

Definition bsig0 (x : Z) : Z :=
  Z.lxor (Z.lxor (rotr 2 x) (rotr 13 x)) (rotr 22 x).
Definition bsig1 (x : Z) : Z :=
  Z.lxor (Z.lxor (rotr 6 x) (rotr 11 x)) (rotr 25 x).
Definition ssig0 (x : Z) : Z :=
  Z.lxor (Z.lxor (rotr 7 x) (rotr 18 x)) (Z.shiftr x 3).
Definition ssig1 (x : Z) : Z :=
  Z.lxor (Z.lxor (rotr 17 x) (rotr 19 x)) (Z.shiftr x 10).

(** The round constants are the fractional parts of the cube roots of the
    first 64 primes, the initial state those of the square roots of the
    first 8; both tables are computed rather than typed in. *)
Definition primes : list Z :=
  [2; 3; 5; 7; 11; 13; 17; 19; 23; 29; 31; 37; 41; 43; 47; 53;
   59; 61; 67; 71; 73; 79; 83; 89; 97; 101; 103; 107; 109; 113; 127; 131;
   137; 139; 149; 151; 157; 163; 167; 173; 179; 181; 191; 193; 197; 199;
   211; 223; 227; 229; 233; 239; 241; 251; 257; 263; 269; 271; 277; 281;
   283; 293; 307; 311].

Fixpoint icbrt_bits (bits : nat) (n r : Z) : Z :=
  match bits with
  | O => r
  | S b =>
      let c := r + Z.shiftl 1 (Z.of_nat b) in
      icbrt_bits b n (if c * c * c <=? n then c else r)
  end.

Definition icbrt (n : Z) : Z := icbrt_bits 40 n 0.

Definition K : list Z :=
  Eval vm_compute in
    List.map (fun p => w32 (icbrt (p * 2 ^ 96))) primes.

Definition H0 : list Z :=
  Eval vm_compute in
    List.map (fun p => w32 (Z.sqrt (p * 2 ^ 64))) (firstn 8 primes).

(** Big-endian bytes of a [len]-byte integer. *)
Fixpoint be_bytes (len : nat) (x : Z) : list Z :=
  match len with
  | O => []
  | S l => Z.land (Z.shiftr x (8 * Z.of_nat l)) 255 :: be_bytes l x
  end.

Definition be_word (bs : list Z) : Z :=
  fold_left (fun acc b => acc * 256 + b) bs 0.

Definition pad (msg : list Z) : list Z :=
  let l := Z.of_nat (length msg) in
  let k := Z.to_nat ((55 - l) mod 64) in
  msg ++ [128] ++ repeat 0 k ++ be_bytes 8 (8 * l).

Fixpoint chunks {A} (fuel : nat) (n : nat) (l : list A) : list (list A) :=
  match fuel, l with
  | O, _ | _, [] => []
  | S f, _ => firstn n l :: chunks f n (skipn n l)
  end.

Fixpoint schedule (fuel : nat) (w : list Z) : list Z :=
  match fuel with
  | O => w
  | S f =>
      let t := length w in
      let at_ i := nth (t - i)%nat w 0 in
      schedule f
        (w ++ [w32 (ssig1 (at_ 2%nat) + at_ 7%nat + ssig0 (at_ 15%nat) + at_ 16%nat)])
  end.

Record regs : Type :=
  Regs { ra : Z; rb : Z; rc : Z; rd : Z; re : Z; rf : Z; rg : Z; rh : Z }.

Definition round (s : regs) (kw : Z * Z) : regs :=
  let t1 := w32 (rh s + bsig1 (re s) + Ch (re s) (rf s) (rg s) + kw.1 + kw.2) in
  let t2 := w32 (bsig0 (ra s) + Maj (ra s) (rb s) (rc s)) in
  Regs (w32 (t1 + t2)) (ra s) (rb s) (rc s) (w32 (rd s + t1)) (re s) (rf s) (rg s).

Definition compress (h : regs) (block : list Z) : regs :=
  let w := schedule 48 (List.map be_word (chunks 16 4 block)) in
  let s := fold_left round (combine K w) h in
  Regs (w32 (ra h + ra s)) (w32 (rb h + rb s)) (w32 (rc h + rc s))
       (w32 (rd h + rd s)) (w32 (re h + re s)) (w32 (rf h + rf s))
       (w32 (rg h + rg s)) (w32 (rh h + rh s)).

Definition init : regs :=
  Regs (nth 0 H0 0) (nth 1 H0 0) (nth 2 H0 0) (nth 3 H0 0)
       (nth 4 H0 0) (nth 5 H0 0) (nth 6 H0 0) (nth 7 H0 0).

(** The 32 bytes of the digest. *)
Definition digest (msg : list Z) : list Z :=
  let p := pad msg in
  let s := fold_left compress (chunks (length p) 64 p) init in
  be_bytes 4 (ra s) ++ be_bytes 4 (rb s) ++ be_bytes 4 (rc s) ++
  be_bytes 4 (rd s) ++ be_bytes 4 (re s) ++ be_bytes 4 (rf s) ++
  be_bytes 4 (rg s) ++ be_bytes 4 (rh s).

End Sha256.

(** ** Strings as the adapters use them *)

(** [TextEncoder.encode]: a string is kept as its UTF-8 bytes. *)
Definition encode (s : string) : list Z :=
  List.map (fun c => Z.of_N (N_of_ascii c)) (list_ascii_of_string s).

Definition hex_digit (d : Z) : ascii :=
  nth (Z.to_nat d)
    (list_ascii_of_string "0123456789abcdef") "0"%char.

(** [b.toString(16).padStart(2, '0')] for a byte [b]. *)
Definition hex_byte (b : Z) : string :=
  String (hex_digit (b / 16)) (String (hex_digit (b mod 16)) EmptyString).

(** [hashArray.map(...).join('')] *)
Definition hex_join (bs : list Z) : string :=
  fold_right (fun b acc => hex_byte b +:+ acc) EmptyString bs.

(** [hashPassword]: lowercase hexadecimal SHA-256 of the plaintext. *)
Definition hashPassword (password : string) : string :=
  hex_join (Sha256.digest (encode password)).


(** ** JavaScript helpers *)

(** [s || d] on strings: the empty string is falsy. *)
Definition or_str (s d : string) : string :=
  if decide (s = "") then d else s.

(** [row.col || ''] on a nullable TEXT column. *)
Definition col_or_empty (c : option string) : string :=
  match c with Some s => or_str s "" | None => "" end.

(** [n || null] and [n || undefined] on an optional number: [0] is falsy. *)
Definition or_null (n : option Z) : option Z :=
  match n with
  | Some v => if decide (v = 0) then None else Some v
  | None => None
  end.

(** The white space and the line terminators of ECMAScript that take one
    byte of UTF-8: the space and U+0009 to U+000D. *)
Definition is_space (c : ascii) : bool :=
  let n := N_of_ascii c in
  bool_decide (n = 32 ∨ (9 ≤ n ∧ n ≤ 13))%N.

(** The one of two bytes: U+00A0. *)
Definition is_space2 (c1 c2 : ascii) : bool :=
  bool_decide (N_of_ascii c1 = 194 ∧ N_of_ascii c2 = 160)%N.

(** Those of three bytes: U+1680, U+2000 to U+200A, U+2028, U+2029,
    U+202F, U+205F, U+3000 and U+FEFF. *)
Definition is_space3 (c1 c2 c3 : ascii) : bool :=
  let a := N_of_ascii c1 in
  let b := N_of_ascii c2 in
  let c := N_of_ascii c3 in
  bool_decide
    ((a = 225 ∧ b = 154 ∧ c = 128) ∨
     (a = 226 ∧ b = 128 ∧
      ((128 ≤ c ∧ c ≤ 138) ∨ c = 168 ∨ c = 169 ∨ c = 175)) ∨
     (a = 226 ∧ b = 129 ∧ c = 159) ∨
     (a = 227 ∧ b = 128 ∧ c = 128) ∨
     (a = 239 ∧ b = 187 ∧ c = 191))%N.

Definition digit_of (c : ascii) : option Z :=
  let n := Z.of_N (N_of_ascii c) in
  if decide (48 ≤ n ∧ n ≤ 57) then Some (n - 48) else None.

(** The string without the white space it starts with; the string is
    UTF-8. *)
Fixpoint skip_spaces (s : string) : string :=
  match s with
  | String c1 r1 =>
      if is_space c1 then skip_spaces r1
      else
        match r1 with
        | String c2 r2 =>
            if is_space2 c1 c2 then skip_spaces r2
            else
              match r2 with
              | String c3 r3 =>
                  if is_space3 c1 c2 c3 then skip_spaces r3 else s
              | EmptyString => s
              end
        | EmptyString => s
        end
  | EmptyString => s
  end.

(** Longest prefix of decimal digits, with the number of digits read. *)
Fixpoint read_digits (s : string) (acc : Z) (seen : bool) : option Z :=
  match s with
  | String c r =>
      match digit_of c with
      | Some d => read_digits r (acc * 10 + d) true
      | None => if seen then Some acc else None
      end
  | EmptyString => if seen then Some acc else None
  end.

(** [parseInt(s, 10)]; [None] stands for [NaN]. *)
Definition parseInt (s : string) : option Z :=
  match skip_spaces s with
  | String "-" r => Z.opp <$> read_digits r 0 false
  | String "+" r => read_digits r 0 false
  | r => read_digits r 0 false
  end.

(** ** The process environment *)

Record Env : Type := {
  USERNAME : option string;
  PASSWORD : option string;
  MAX_PLAY_RECORDS_PER_USER : option string
}.

(** [process.env.X || d] *)
Definition env_or (v : option string) (d : string) : string :=
  match v with Some s => or_str s d | None => d end.

(** [s === process.env.X] for a string [s]. *)
Definition eq_env (s : string) (v : option string) : bool :=
  bool_decide (v = Some s).

(** ** The two adapters *)

Inductive Backend : Type := D1 | Postgres.

Global Instance Backend_eq_dec : EqDecision Backend.
Proof. solve_decision. Defined.

(** What a method call produces: a value, or an exception that left the
    method ([throw err] in its [catch]). *)
Inductive Outcome (A : Type) : Type :=
  | Returned (a : A)
  | Thrown.
Arguments Returned {A} a.
Arguments Thrown {A}.

(** ** SQL fragments shared by the statements *)

(** [ORDER BY col DESC] *)
Definition desc_by {A} (col : A → Z) : relation A := λ a b, col b ≤ col a.

Global Instance desc_by_dec {A} (col : A → Z) : RelDecision (desc_by col).
Proof. intros a b. unfold desc_by. apply _. Defined.

Global Instance desc_by_total {A} (col : A → Z) : Total (desc_by col).
Proof. intros a b. unfold desc_by. lia. Qed.

Global Instance desc_by_trans {A} (col : A → Z) : Transitive (desc_by col).
Proof. intros a b c. unfold desc_by. lia. Qed.

(** Rows that tie on [col] come out in the order the merge sort gives
    them.  The database promises no order among them; the theorems below
    use only that the result is a sorted permutation of the rows. *)
Definition order_by_desc {A} (col : A → Z) (l : list A) : list A :=
  merge_sort (desc_by col) l.

(** [LIMIT lim OFFSET off].  SQLite reads a negative LIMIT as no limit and a
    negative OFFSET as zero; Postgres rejects both. *)
Definition limit_offset {A} (b : Backend) (lim off : Z) (l : list A)
  : option (list A) :=
  match b with
  | D1 =>
      let l' := drop (Z.to_nat off) l in
      Some (if decide (lim < 0) then l' else take (Z.to_nat lim) l')
  | Postgres =>
      if decide (lim < 0 ∨ off < 0) then None
      else Some (take (Z.to_nat lim) (drop (Z.to_nat off) l))
  end.

(** [INSERT ... ON CONFLICT (cols) DO UPDATE SET ...]: [same] says that two
    rows agree on the conflict columns, [set old excluded] overwrites the
    listed columns of the stored row. *)
Definition upsert {A} (same : relation A) `{!RelDecision same}
    (set : A → A → A) (new : A) (t : list A) : list A :=
  if decide (Exists (λ r, same r new) t)
  then (λ r, if decide (same r new) then set r new else r) <$> t
  else t ++ [new].

(** [COUNT( * )] *)
Definition count {A} (l : list A) : Z := Z.of_nat (length l).

(** ** Tables ([migrations/postgres], schema version 1.0.0)

    A nullable column is an [option]; an INTEGER or BIGINT column is a [Z];
    a TEXT column documented as a JSON array of strings holds that array.
    The migrations of D1 are not among the sources: its tables are taken
    to be these, with the one column more that its statements name. *)

Inductive Role : Type := RoleOwner | RoleAdmin | RoleUser.

Global Instance Role_eq_dec : EqDecision Role.
Proof. solve_decision. Defined.

Record UserRow : Type := {
  u_username : string;
  u_password_hash : string;
  u_role : Role;
  u_banned : Z;
  u_tags : option (list string);
  u_oidc_sub : option string;
  u_enabled_apis : option (list string);
  u_created_at : Z;
  u_playrecord_migrated : Z;
  u_favorite_migrated : Z;
  u_skip_migrated : Z;
  u_last_movie_request_time : option Z;
  u_email : option string;
  u_email_notifications : Z
}.

(** [new_episodes] is a column of the D1 table only; under Postgres it is
    never written and never read. *)
Record PlayRecordRow : Type := {
  pr_username : string;
  pr_key : string;
  pr_title : string;
  pr_source_name : string;
  pr_cover : option string;
  pr_year : option string;
  pr_episode_index : Z;
  pr_total_episodes : Z;
  pr_play_time : Z;
  pr_total_time : Z;
  pr_save_time : Z;
  pr_search_title : option string;
  pr_new_episodes : option Z
}.

Record FavoriteRow : Type := {
  fav_username : string;
  fav_key : string;
  fav_source_name : string;
  fav_total_episodes : Z;
  fav_title : string;
  fav_year : option string;
  fav_cover : option string;
  fav_save_time : Z;
  fav_search_title : option string;
  fav_origin : option string;
  fav_is_completed : Z;
  fav_vod_remarks : option string
}.

Record SearchHistoryRow : Type := {
  sh_id : Z;
  sh_username : string;
  sh_keyword : string;
  sh_timestamp : Z
}.

Record SkipConfigRow : Type := {
  sk_username : string;
  sk_key : string;
  sk_enable : Z;
  sk_intro_time : Z;
  sk_outro_time : Z
}.

Record DanmakuFilterRow : Type := {
  dm_username : string;
  dm_rules : string
}.

Record NotificationRow : Type := {
  nt_id : string;
  nt_username : string;
  nt_type : string;
  nt_title : string;
  nt_message : string;
  nt_timestamp : Z;
  nt_read : Z;
  nt_metadata : option string
}.

Record UserMovieRequestRow : Type := {
  umr_username : string;
  umr_request_id : string
}.

Record FavoriteCheckTimeRow : Type := {
  fct_username : string;
  fct_last_check_time : Z
}.

Record AdminConfigRow : Type := {
  ac_id : Z;
  ac_config : string;
  ac_updated_at : Z
}.

Global Instance UserRow_eq_dec : EqDecision UserRow.
Proof. solve_decision. Defined.
Global Instance PlayRecordRow_eq_dec : EqDecision PlayRecordRow.
Proof. solve_decision. Defined.
Global Instance SearchHistoryRow_eq_dec : EqDecision SearchHistoryRow.
Proof. solve_decision. Defined.

(** The database: one list of rows per table, in storage order, and the
    last value issued by the sequence behind [search_history.id SERIAL]. *)
Record Db : Type := {
  users : list UserRow;
  play_records : list PlayRecordRow;
  favorites : list FavoriteRow;
  search_history : list SearchHistoryRow;
  search_history_id_seq : Z;
  skip_configs : list SkipConfigRow;
  danmaku_filter_configs : list DanmakuFilterRow;
  notifications : list NotificationRow;
  user_movie_requests : list UserMovieRequestRow;
  favorite_check_times : list FavoriteCheckTimeRow;
  admin_config : list AdminConfigRow
}.

(** ** Values the methods exchange with their callers

    [PlayRecord] is declared in [./types], which is not among the sources;
    its fields are the ones the adapters read, [new_episodes] optional as
    [record.new_episodes || null] treats it.  The numbers are integers:
    episode counts, seconds and milliseconds. *)

Record PlayRecord : Type := {
  title : string;
  source_name : string;
  cover : string;
  year : string;
  index : Z;
  total_episodes : Z;
  play_time : Z;
  total_time : Z;
  save_time : Z;
  search_title : string;
  new_episodes : option Z
}.

(** The object [getUserInfoV2] returns and [userInfoCache] holds; the
    fields the synthetic owner record leaves out are [None]. *)
Record UserInfo : Type := {
  role : Role;
  banned : bool;
  tags : option (list string);
  oidcSub : option string;
  enabledApis : option (list string);
  created_at : Z;
  playrecord_migrated : bool;
  favorite_migrated : bool;
  skip_migrated : bool;
  last_movie_request_time : option Z;
  email : option string;
  emailNotifications : option bool
}.

(** An element of the [users] array of [getUserListV2]. *)
Record UserListEntry : Type := {
  le_username : string;
  le_role : Role;
  le_banned : bool;
  le_tags : option (list string);
  le_oidcSub : option string;
  le_enabledApis : option (list string);
  le_created_at : Z
}.

Record UserList : Type := {
  ul_users : list UserListEntry;
  ul_total : Z
}.

(** ** State: the database and the shared [userInfoCache]

    The cache lives in [./user-cache]; the adapters call its [get], [set]
    and [delete] only, so it is a finite map here.  Whatever it evicts on
    its own is covered by stating results for every content of the map. *)

Record State : Type := {
  db : Db;
  cache : gmap string UserInfo
}.

Definition with_db (st : State) (d : Db) : State :=
  {| db := d; cache := cache st |}.

Definition with_cache (st : State) (c : gmap string UserInfo) : State :=
  {| db := db st; cache := c |}.

Definition set_users (d : Db) (t : list UserRow) : Db :=
  {| users := t; play_records := play_records d; favorites := favorites d;
     search_history := search_history d;
     search_history_id_seq := search_history_id_seq d;
     skip_configs := skip_configs d;
     danmaku_filter_configs := danmaku_filter_configs d;
     notifications := notifications d;
     user_movie_requests := user_movie_requests d;
     favorite_check_times := favorite_check_times d;
     admin_config := admin_config d |}.

Definition set_play_records (d : Db) (t : list PlayRecordRow) : Db :=
  {| users := users d; play_records := t; favorites := favorites d;
     search_history := search_history d;
     search_history_id_seq := search_history_id_seq d;
     skip_configs := skip_configs d;
     danmaku_filter_configs := danmaku_filter_configs d;
     notifications := notifications d;
     user_movie_requests := user_movie_requests d;
     favorite_check_times := favorite_check_times d;
     admin_config := admin_config d |}.

Definition set_search_history (d : Db) (t : list SearchHistoryRow) (seq : Z)
  : Db :=
  {| users := users d; play_records := play_records d;
     favorites := favorites d;
     search_history := t;
     search_history_id_seq := seq;
     skip_configs := skip_configs d;
     danmaku_filter_configs := danmaku_filter_configs d;
     notifications := notifications d;
     user_movie_requests := user_movie_requests d;
     favorite_check_times := favorite_check_times d;
     admin_config := admin_config d |}.

Definition set_admin_config (d : Db) (t : list AdminConfigRow) : Db :=
  {| users := users d; play_records := play_records d;
     favorites := favorites d;
     search_history := search_history d;
     search_history_id_seq := search_history_id_seq d;
     skip_configs := skip_configs d;
     danmaku_filter_configs := danmaku_filter_configs d;
     notifications := notifications d;
     user_movie_requests := user_movie_requests d;
     favorite_check_times := favorite_check_times d;
     admin_config := t |}.

Definition empty_db : Db :=
  {| users := []; play_records := []; favorites := [];
     search_history := []; search_history_id_seq := 0;
     skip_configs := []; danmaku_filter_configs := [];
     notifications := []; user_movie_requests := [];
     favorite_check_times := []; admin_config := [] |}.

Definition empty_state : State := {| db := empty_db; cache := ∅ |}.

(** The foreign key [FOREIGN KEY (username) REFERENCES users(username)]. *)
Definition user_exists (d : Db) (userName : string) : Prop :=
  userName ∈ u_username <$> users d.

Global Instance user_exists_dec d userName : Decision (user_exists d userName).
Proof. unfold user_exists. apply _. Defined.

(** ** Play records *)

(** Rows of [userName], the [WHERE username = ?] of the statements below. *)
Definition play_records_of (d : Db) (userName : string) : list PlayRecordRow :=
  filter (λ r, pr_username r = userName) (play_records d).

Definition rowToPlayRecord (b : Backend) (row : PlayRecordRow) : PlayRecord :=
  {| title := pr_title row;
     source_name := pr_source_name row;
     cover := col_or_empty (pr_cover row);
     year := col_or_empty (pr_year row);
     index := pr_episode_index row;
     total_episodes := pr_total_episodes row;
     play_time := pr_play_time row;
     total_time := pr_total_time row;
     save_time := pr_save_time row;
     search_title := col_or_empty (pr_search_title row);
     new_episodes :=
       match b with
       | D1 => or_null (pr_new_episodes row)
       | Postgres => None
       end |}.

(** [SELECT * FROM play_records WHERE username = ? AND key = ?], [.first()] *)
Definition getPlayRecord (b : Backend) (st : State) (userName key : string)
  : option PlayRecord :=
  rowToPlayRecord b <$>
    head (filter (λ r, pr_username r = userName ∧ pr_key r = key)
            (play_records (db st))).

(** The values bound to the INSERT of [setPlayRecord]. *)
Definition play_record_values (b : Backend) (userName key : string)
    (record : PlayRecord) : PlayRecordRow :=
  {| pr_username := userName;
     pr_key := key;
     pr_title := title record;
     pr_source_name := source_name record;
     pr_cover := Some (or_str (cover record) "");
     pr_year := Some (or_str (year record) "");
     pr_episode_index := index record;
     pr_total_episodes := total_episodes record;
     pr_play_time := play_time record;
     pr_total_time := total_time record;
     pr_save_time := save_time record;
     pr_search_title := Some (or_str (search_title record) "");
     pr_new_episodes :=
       match b with
       | D1 => or_null (new_episodes record)
       | Postgres => None
       end |}.

(** [ON CONFLICT (username, key)] *)
Definition same_play_record : relation PlayRecordRow :=
  λ r r', pr_username r = pr_username r' ∧ pr_key r = pr_key r'.

Global Instance same_play_record_dec : RelDecision same_play_record.
Proof. intros r r'. unfold same_play_record. apply _. Defined.

(** [DO UPDATE SET title = EXCLUDED.title, ...]: D1 lists [new_episodes],
    Postgres does not. *)
Definition play_record_update (b : Backend) (old excluded : PlayRecordRow)
  : PlayRecordRow :=
  {| pr_username := pr_username old;
     pr_key := pr_key old;
     pr_title := pr_title excluded;
     pr_source_name := pr_source_name excluded;
     pr_cover := pr_cover excluded;
     pr_year := pr_year excluded;
     pr_episode_index := pr_episode_index excluded;
     pr_total_episodes := pr_total_episodes excluded;
     pr_play_time := pr_play_time excluded;
     pr_total_time := pr_total_time excluded;
     pr_save_time := pr_save_time excluded;
     pr_search_title := pr_search_title excluded;
     pr_new_episodes :=
       match b with
       | D1 => pr_new_episodes excluded
       | Postgres => pr_new_episodes old
       end |}.

(** The ranges of the Postgres types [INTEGER] and [BIGINT]. *)
Definition int4 (n : Z) : Prop := -2147483648 ≤ n ≤ 2147483647.

Definition int8 (n : Z) : Prop :=
  -9223372036854775808 ≤ n ≤ 9223372036854775807.

Global Instance int4_dec n : Decision (int4 n).
Proof. unfold int4. apply _. Defined.

Global Instance int8_dec n : Decision (int8 n).
Proof. unfold int8. apply _. Defined.

(** Whether the columns take the numbers of the record.  Postgres rejects
    a parameter outside the range of its column: [episode_index] and
    [total_episodes] are [INTEGER], the three times [BIGINT].  SQLite keeps
    whatever number it is given.  A number that is not an integer, which
    Postgres rejects as well, is not a value of the fields here. *)
Definition play_record_fits (b : Backend) (record : PlayRecord) : Prop :=
  match b with
  | D1 => True
  | Postgres =>
      int4 (index record) ∧ int4 (total_episodes record) ∧
      int8 (play_time record) ∧ int8 (total_time record) ∧
      int8 (save_time record)
  end.

Global Instance play_record_fits_dec b record :
  Decision (play_record_fits b record).
Proof. unfold play_record_fits. destruct b; apply _. Defined.

(** The INSERT fails on the foreign key when [userName] has no row in
    [users], and under Postgres on a number out of the range of its column;
    the method logs and rethrows. *)
Definition setPlayRecord (b : Backend) (st : State) (userName key : string)
    (record : PlayRecord) : Outcome unit * State :=
  if decide (user_exists (db st) userName ∧ play_record_fits b record) then
    (Returned (),
     with_db st
       (set_play_records (db st)
          (upsert same_play_record (play_record_update b)
             (play_record_values b userName key record)
             (play_records (db st)))))
  else (Thrown, st).

(** [DELETE FROM play_records WHERE username = ? AND key = ?] *)
Definition deletePlayRecord (st : State) (userName key : string)
  : Outcome unit * State :=
  (Returned (),
   with_db st
     (set_play_records (db st)
        (filter (λ r, ¬ (pr_username r = userName ∧ pr_key r = key))
           (play_records (db st))))).

(** [parseInt(process.env.MAX_PLAY_RECORDS_PER_USER || '100', 10)] *)
Definition maxRecords (env : Env) : option Z :=
  parseInt (env_or (MAX_PLAY_RECORDS_PER_USER env) "100").

(** The keys of the subquery
    [SELECT key FROM play_records WHERE username = ?
     ORDER BY save_time DESC LIMIT ?]. *)
Definition newest_keys (b : Backend) (d : Db) (userName : string) (lim : Z)
  : option (list string) :=
  match
    limit_offset b lim 0
      (order_by_desc pr_save_time (play_records_of d userName))
  with
  | Some top => Some (pr_key <$> top)
  | None => None
  end.

(** A [NaN] limit is rejected by the database, as a negative one is by
    Postgres; either way the method rethrows and nothing is deleted. *)
Definition cleanupOldPlayRecords (env : Env) (b : Backend) (st : State)
    (userName : string) : Outcome unit * State :=
  match maxRecords env with
  | None => (Thrown, st)
  | Some maxRecords =>
      let threshold := maxRecords + 10 in
      let count := count (play_records_of (db st) userName) in
      if decide (count ≤ threshold) then (Returned (), st)
      else
        match newest_keys b (db st) userName maxRecords with
        | None => (Thrown, st)
        | Some keys =>
            (Returned (),
             with_db st
               (set_play_records (db st)
                  (filter
                     (λ r, ¬ (pr_username r = userName ∧ pr_key r ∉ keys))
                     (play_records (db st)))))
        end
  end.

(** ** Users *)

(** [UPDATE users SET ... WHERE username = ?], the assignment given as a
    function on the row. *)
Definition update_users (assign : UserRow → UserRow) (userName : string)
    (t : list UserRow) : list UserRow :=
  (λ r, if decide (u_username r = userName) then assign r else r) <$> t.

Definition assign_password_hash (h : string) (r : UserRow) : UserRow :=
  {| u_username := u_username r; u_password_hash := h; u_role := u_role r;
     u_banned := u_banned r; u_tags := u_tags r; u_oidc_sub := u_oidc_sub r;
     u_enabled_apis := u_enabled_apis r; u_created_at := u_created_at r;
     u_playrecord_migrated := u_playrecord_migrated r;
     u_favorite_migrated := u_favorite_migrated r;
     u_skip_migrated := u_skip_migrated r;
     u_last_movie_request_time := u_last_movie_request_time r;
     u_email := u_email r;
     u_email_notifications := u_email_notifications r |}.

Definition assign_role (v : Role) (r : UserRow) : UserRow :=
  {| u_username := u_username r; u_password_hash := u_password_hash r;
     u_role := v;
     u_banned := u_banned r; u_tags := u_tags r; u_oidc_sub := u_oidc_sub r;
     u_enabled_apis := u_enabled_apis r; u_created_at := u_created_at r;
     u_playrecord_migrated := u_playrecord_migrated r;
     u_favorite_migrated := u_favorite_migrated r;
     u_skip_migrated := u_skip_migrated r;
     u_last_movie_request_time := u_last_movie_request_time r;
     u_email := u_email r;
     u_email_notifications := u_email_notifications r |}.

Definition assign_banned (v : Z) (r : UserRow) : UserRow :=
  {| u_username := u_username r; u_password_hash := u_password_hash r;
     u_role := u_role r;
     u_banned := v; u_tags := u_tags r; u_oidc_sub := u_oidc_sub r;
     u_enabled_apis := u_enabled_apis r; u_created_at := u_created_at r;
     u_playrecord_migrated := u_playrecord_migrated r;
     u_favorite_migrated := u_favorite_migrated r;
     u_skip_migrated := u_skip_migrated r;
     u_last_movie_request_time := u_last_movie_request_time r;
     u_email := u_email r;
     u_email_notifications := u_email_notifications r |}.

Definition assign_tags (v : option (list string)) (r : UserRow) : UserRow :=
  {| u_username := u_username r; u_password_hash := u_password_hash r;
     u_role := u_role r;
     u_banned := u_banned r; u_tags := v; u_oidc_sub := u_oidc_sub r;
     u_enabled_apis := u_enabled_apis r; u_created_at := u_created_at r;
     u_playrecord_migrated := u_playrecord_migrated r;
     u_favorite_migrated := u_favorite_migrated r;
     u_skip_migrated := u_skip_migrated r;
     u_last_movie_request_time := u_last_movie_request_time r;
     u_email := u_email r;
     u_email_notifications := u_email_notifications r |}.

Definition assign_oidc_sub (v : option string) (r : UserRow) : UserRow :=
  {| u_username := u_username r; u_password_hash := u_password_hash r;
     u_role := u_role r;
     u_banned := u_banned r; u_tags := u_tags r; u_oidc_sub := v;
     u_enabled_apis := u_enabled_apis r; u_created_at := u_created_at r;
     u_playrecord_migrated := u_playrecord_migrated r;
     u_favorite_migrated := u_favorite_migrated r;
     u_skip_migrated := u_skip_migrated r;
     u_last_movie_request_time := u_last_movie_request_time r;
     u_email := u_email r;
     u_email_notifications := u_email_notifications r |}.

Definition assign_enabled_apis (v : option (list string)) (r : UserRow)
  : UserRow :=
  {| u_username := u_username r; u_password_hash := u_password_hash r;
     u_role := u_role r;
     u_banned := u_banned r; u_tags := u_tags r; u_oidc_sub := u_oidc_sub r;
     u_enabled_apis := v; u_created_at := u_created_at r;
     u_playrecord_migrated := u_playrecord_migrated r;
     u_favorite_migrated := u_favorite_migrated r;
     u_skip_migrated := u_skip_migrated r;
     u_last_movie_request_time := u_last_movie_request_time r;
     u_email := u_email r;
     u_email_notifications := u_email_notifications r |}.

Definition assign_playrecord_migrated (v : Z) (r : UserRow) : UserRow :=
  {| u_username := u_username r; u_password_hash := u_password_hash r;
     u_role := u_role r;
     u_banned := u_banned r; u_tags := u_tags r; u_oidc_sub := u_oidc_sub r;
     u_enabled_apis := u_enabled_apis r; u_created_at := u_created_at r;
     u_playrecord_migrated := v;
     u_favorite_migrated := u_favorite_migrated r;
     u_skip_migrated := u_skip_migrated r;
     u_last_movie_request_time := u_last_movie_request_time r;
     u_email := u_email r;
     u_email_notifications := u_email_notifications r |}.

Definition assign_favorite_migrated (v : Z) (r : UserRow) : UserRow :=
  {| u_username := u_username r; u_password_hash := u_password_hash r;
     u_role := u_role r;
     u_banned := u_banned r; u_tags := u_tags r; u_oidc_sub := u_oidc_sub r;
     u_enabled_apis := u_enabled_apis r; u_created_at := u_created_at r;
     u_playrecord_migrated := u_playrecord_migrated r;
     u_favorite_migrated := v;
     u_skip_migrated := u_skip_migrated r;
     u_last_movie_request_time := u_last_movie_request_time r;
     u_email := u_email r;
     u_email_notifications := u_email_notifications r |}.

Definition assign_skip_migrated (v : Z) (r : UserRow) : UserRow :=
  {| u_username := u_username r; u_password_hash := u_password_hash r;
     u_role := u_role r;
     u_banned := u_banned r; u_tags := u_tags r; u_oidc_sub := u_oidc_sub r;
     u_enabled_apis := u_enabled_apis r; u_created_at := u_created_at r;
     u_playrecord_migrated := u_playrecord_migrated r;
     u_favorite_migrated := u_favorite_migrated r;
     u_skip_migrated := v;
     u_last_movie_request_time := u_last_movie_request_time r;
     u_email := u_email r;
     u_email_notifications := u_email_notifications r |}.

Definition assign_last_movie_request_time (v : option Z) (r : UserRow)
  : UserRow :=
  {| u_username := u_username r; u_password_hash := u_password_hash r;
     u_role := u_role r;
     u_banned := u_banned r; u_tags := u_tags r; u_oidc_sub := u_oidc_sub r;
     u_enabled_apis := u_enabled_apis r; u_created_at := u_created_at r;
     u_playrecord_migrated := u_playrecord_migrated r;
     u_favorite_migrated := u_favorite_migrated r;
     u_skip_migrated := u_skip_migrated r;
     u_last_movie_request_time := v;
     u_email := u_email r;
     u_email_notifications := u_email_notifications r |}.

Definition assign_email (v : option string) (r : UserRow) : UserRow :=
  {| u_username := u_username r; u_password_hash := u_password_hash r;
     u_role := u_role r;
     u_banned := u_banned r; u_tags := u_tags r; u_oidc_sub := u_oidc_sub r;
     u_enabled_apis := u_enabled_apis r; u_created_at := u_created_at r;
     u_playrecord_migrated := u_playrecord_migrated r;
     u_favorite_migrated := u_favorite_migrated r;
     u_skip_migrated := u_skip_migrated r;
     u_last_movie_request_time := u_last_movie_request_time r;
     u_email := v;
     u_email_notifications := u_email_notifications r |}.

Definition assign_email_notifications (v : Z) (r : UserRow) : UserRow :=
  {| u_username := u_username r; u_password_hash := u_password_hash r;
     u_role := u_role r;
     u_banned := u_banned r; u_tags := u_tags r; u_oidc_sub := u_oidc_sub r;
     u_enabled_apis := u_enabled_apis r; u_created_at := u_created_at r;
     u_playrecord_migrated := u_playrecord_migrated r;
     u_favorite_migrated := u_favorite_migrated r;
     u_skip_migrated := u_skip_migrated r;
     u_last_movie_request_time := u_last_movie_request_time r;
     u_email := u_email r;
     u_email_notifications := v |}.

(** [b ? 1 : 0] *)
Definition int_of_bool (b : bool) : Z := if b then 1 else 0.

(** [SELECT ... FROM users WHERE username = ?], [.first()] *)
Definition select_user (d : Db) (userName : string) : option UserRow :=
  head (filter (λ r, u_username r = userName) (users d)).

(** [UNIQUE] on [oidc_sub]: no other row carries the value (NULLs never
    collide). *)
Definition oidc_sub_free (d : Db) (userName : string) (sub : option string)
  : Prop :=
  match sub with
  | None => True
  | Some s =>
      Forall (λ r, u_username r = userName ∨ u_oidc_sub r ≠ Some s) (users d)
  end.

Global Instance oidc_sub_free_dec d userName sub :
  Decision (oidc_sub_free d userName sub).
Proof. unfold oidc_sub_free. destruct sub; apply _. Defined.

(** [INSERT INTO users (...) VALUES (...)]: fails on the primary key or on
    the unique [oidc_sub]. *)
Definition insert_user (d : Db) (row : UserRow) : option Db :=
  if decide (user_exists d (u_username row)) then None
  else if decide (oidc_sub_free d (u_username row) (u_oidc_sub row))
  then Some (set_users d (users d ++ [row]))
  else None.

(** [DELETE FROM users WHERE username = ?]: every table that references
    [users(username)] does so [ON DELETE CASCADE], so the rows of a deleted
    user go with it. *)
Definition delete_from_users (d : Db) (userName : string) : Db :=
  if decide (user_exists d userName) then
    {| users := filter (λ r, u_username r ≠ userName) (users d);
       play_records :=
         filter (λ r, pr_username r ≠ userName) (play_records d);
       favorites := filter (λ r, fav_username r ≠ userName) (favorites d);
       search_history :=
         filter (λ r, sh_username r ≠ userName) (search_history d);
       search_history_id_seq := search_history_id_seq d;
       skip_configs := filter (λ r, sk_username r ≠ userName) (skip_configs d);
       danmaku_filter_configs :=
         filter (λ r, dm_username r ≠ userName) (danmaku_filter_configs d);
       notifications :=
         filter (λ r, nt_username r ≠ userName) (notifications d);
       user_movie_requests :=
         filter (λ r, umr_username r ≠ userName) (user_movie_requests d);
       favorite_check_times :=
         filter (λ r, fct_username r ≠ userName) (favorite_check_times d);
       admin_config := admin_config d |}
  else d.

(** [userInfoCache.delete(userName)] *)
Definition cache_delete (st : State) (userName : string) : State :=
  with_cache st (delete userName (cache st)).

(** [userInfoCache.set(userName, info)] *)
Definition cache_set (st : State) (userName : string) (info : UserInfo)
  : State :=
  with_cache st (<[userName := info]> (cache st)).

(** The methods that drop the cache entry under D1 only. *)
Definition cache_delete_d1 (b : Backend) (st : State) (userName : string)
  : State :=
  match b with
  | D1 => cache_delete st userName
  | Postgres => st
  end.

Definition update_user (st : State) (assign : UserRow → UserRow)
    (userName : string) : State :=
  with_db st (set_users (db st) (update_users assign userName (users (db st)))).

(** The owner configured in the environment passes without any lookup;
    everybody else needs an unbanned row with a non-empty hash. *)
Definition verifyUser (env : Env) (st : State) (userName password : string)
  : bool :=
  if eq_env userName (USERNAME env) && eq_env password (PASSWORD env)
  then true
  else
    match
      head (filter (λ r, u_username r = userName ∧ u_banned r = 0)
              (users (db st)))
    with
    | None => false
    | Some user =>
        if decide (u_password_hash user = "") then false
        else bool_decide (u_password_hash user = hashPassword password)
    end.

Definition checkUserExist (env : Env) (st : State) (userName : string)
  : bool :=
  if eq_env userName (USERNAME env) then true
  else bool_decide (is_Some (select_user (db st) userName)).

Definition changePassword (st : State) (userName newPassword : string)
  : Outcome unit * State :=
  (Returned (),
   update_user st (assign_password_hash (hashPassword newPassword)) userName).

Definition deleteUser (st : State) (userName : string)
  : Outcome unit * State :=
  (Returned (), with_db st (delete_from_users (db st) userName)).

Definition row_to_user_info (user : UserRow) : UserInfo :=
  {| role := u_role user;
     banned := bool_decide (u_banned user = 1);
     tags := u_tags user;
     oidcSub := u_oidc_sub user;
     enabledApis := u_enabled_apis user;
     created_at := u_created_at user;
     playrecord_migrated := bool_decide (u_playrecord_migrated user = 1);
     favorite_migrated := bool_decide (u_favorite_migrated user = 1);
     skip_migrated := bool_decide (u_skip_migrated user = 1);
     last_movie_request_time := u_last_movie_request_time user;
     email := u_email user;
     emailNotifications :=
       Some (bool_decide (u_email_notifications user = 1)) |}.

Definition with_role (info : UserInfo) (r : Role) : UserInfo :=
  {| role := r;
     banned := banned info;
     tags := tags info;
     oidcSub := oidcSub info;
     enabledApis := enabledApis info;
     created_at := created_at info;
     playrecord_migrated := playrecord_migrated info;
     favorite_migrated := favorite_migrated info;
     skip_migrated := skip_migrated info;
     last_movie_request_time := last_movie_request_time info;
     email := email info;
     emailNotifications := emailNotifications info |}.

(** The default record of the site owner, [created_at: Date.now()]. *)
Definition ownerInfo (now : Z) : UserInfo :=
  {| role := RoleOwner;
     banned := false;
     tags := None;
     oidcSub := None;
     enabledApis := None;
     created_at := now;
     playrecord_migrated := true;
     favorite_migrated := true;
     skip_migrated := true;
     last_movie_request_time := None;
     email := None;
     emailNotifications := None |}.

(** The row the owner's INSERT writes; the columns it does not list take
    their defaults. *)
Definition owner_row (userName : string) (now : Z) : UserRow :=
  {| u_username := userName;
     u_password_hash := "";
     u_role := RoleOwner;
     u_banned := 0;
     u_tags := None;
     u_oidc_sub := None;
     u_enabled_apis := None;
     u_created_at := now;
     u_playrecord_migrated := 1;
     u_favorite_migrated := 1;
     u_skip_migrated := 1;
     u_last_movie_request_time := None;
     u_email := None;
     u_email_notifications := 1 |}.

(** Cache first, then the table, then the environment.  Only D1 forces
    the role of the configured owner to ['owner'] when a row exists.  A
    failed INSERT of the owner's row is logged and ignored. *)
Definition getUserInfoV2 (b : Backend) (env : Env) (now : Z) (st : State)
    (userName : string) : option UserInfo * State :=
  match cache st !! userName with
  | Some cached => (Some cached, st)
  | None =>
      match select_user (db st) userName with
      | Some user =>
          let userInfo := row_to_user_info user in
          let userInfo :=
            match b with
            | D1 =>
                if eq_env userName (USERNAME env)
                then with_role userInfo RoleOwner
                else userInfo
            | Postgres => userInfo
            end in
          (Some userInfo, cache_set st userName userInfo)
      | None =>
          if eq_env userName (USERNAME env) then
            let st' :=
              match insert_user (db st) (owner_row userName now) with
              | Some d => with_db st d
              | None => st
              end in
            (Some (ownerInfo now), cache_set st' userName (ownerInfo now))
          else (None, st)
      end
  end.

(** [s || null] on an optional string. *)
Definition str_or_null (s : option string) : option string :=
  match s with
  | Some v => if decide (v = "") then None else Some v
  | None => None
  end.

Definition new_user_row (userName passwordHash : string) (r : Role)
    (isBanned : Z) (userTags : option (list string)) (sub : option string)
    (apis : option (list string)) (createdAt : Z) : UserRow :=
  {| u_username := userName;
     u_password_hash := passwordHash;
     u_role := r;
     u_banned := isBanned;
     u_tags := userTags;
     u_oidc_sub := str_or_null sub;
     u_enabled_apis := apis;
     u_created_at := createdAt;
     u_playrecord_migrated := 1;
     u_favorite_migrated := 1;
     u_skip_migrated := 1;
     u_last_movie_request_time := None;
     u_email := None;
     u_email_notifications := 1 |}.

Definition createUserV2 (b : Backend) (now : Z) (st : State)
    (userName password : string) (r : Role) (userTags : option (list string))
    (sub : option string) (apis : option (list string))
  : Outcome unit * State :=
  match
    insert_user (db st)
      (new_user_row userName (hashPassword password) r 0 userTags sub apis now)
  with
  | Some d => (Returned (), cache_delete_d1 b (with_db st d) userName)
  | None => (Thrown, st)
  end.

Definition verifyUserV2 (st : State) (userName password : string) : bool :=
  match select_user (db st) userName with
  | None => false
  | Some user => bool_decide (u_password_hash user = hashPassword password)
  end.

(** The [updates] argument of [updateUserInfoV2]: an absent field is
    [undefined]. *)
Record UserUpdates : Type := {
  upd_role : option Role;
  upd_banned : option bool;
  upd_tags : option (list string);
  upd_oidcSub : option string;
  upd_enabledApis : option (list string)
}.

Definition opt_assign {A} (v : option A) (f : A → UserRow → UserRow)
    (r : UserRow) : UserRow :=
  match v with Some a => f a r | None => r end.

(** The SET list built from the fields that are not [undefined]. *)
Definition assign_updates (u : UserUpdates) (r : UserRow) : UserRow :=
  opt_assign (upd_enabledApis u) (λ v, assign_enabled_apis (Some v))
    (opt_assign (upd_oidcSub u) (λ v, assign_oidc_sub (Some v))
       (opt_assign (upd_tags u) (λ v, assign_tags (Some v))
          (opt_assign (upd_banned u) (λ v, assign_banned (int_of_bool v))
             (opt_assign (upd_role u) assign_role r)))).

Definition no_updates (u : UserUpdates) : bool :=
  match upd_role u, upd_banned u, upd_tags u, upd_oidcSub u, upd_enabledApis u
  with
  | None, None, None, None, None => true
  | _, _, _, _, _ => false
  end.

(** The UPDATE fails when it would give an existing row an [oidc_sub]
    another row already has. *)
Definition updateUserInfoV2 (st : State) (userName : string)
    (updates : UserUpdates) : Outcome unit * State :=
  if no_updates updates then (Returned (), st)
  else if
    decide (user_exists (db st) userName ∧
            ¬ oidc_sub_free (db st) userName (upd_oidcSub updates))
  then (Thrown, st)
  else
    (Returned (),
     cache_delete (update_user st (assign_updates updates) userName) userName).

Definition changePasswordV2 (b : Backend) (st : State)
    (userName newPassword : string) : Outcome unit * State :=
  (Returned (),
   cache_delete_d1 b
     (update_user st (assign_password_hash (hashPassword newPassword))
        userName)
     userName).

Definition checkUserExistV2 (st : State) (userName : string) : bool :=
  bool_decide (is_Some (select_user (db st) userName)).

Definition deleteUserV2 (st : State) (userName : string)
  : Outcome unit * State :=
  (Returned (),
   cache_delete (with_db st (delete_from_users (db st) userName)) userName).

Definition getUserPasswordHash (st : State) (userName : string)
  : option string :=
  u_password_hash <$> select_user (db st) userName.

Definition setUserPasswordHash (st : State) (userName passwordHash : string)
  : Outcome unit * State :=
  (Returned (), update_user st (assign_password_hash passwordHash) userName).

Definition createUserWithHashedPassword (st : State)
    (userName passwordHash : string) (r : Role) (createdAt : Z)
    (userTags : option (list string)) (sub : option string)
    (apis : option (list string)) (isBanned : option bool)
  : Outcome unit * State :=
  match
    insert_user (db st)
      (new_user_row userName passwordHash r
         (int_of_bool (default false isBanned)) userTags sub apis createdAt)
  with
  | Some d => (Returned (), with_db st d)
  | None => (Thrown, st)
  end.

Definition setUserEmail (st : State) (userName newEmail : string)
  : Outcome unit * State :=
  (Returned (),
   cache_delete (update_user st (assign_email (Some newEmail)) userName)
     userName).

Definition setEmailNotificationPreference (st : State) (userName : string)
    (enabled : bool) : Outcome unit * State :=
  (Returned (),
   cache_delete
     (update_user st (assign_email_notifications (int_of_bool enabled))
        userName)
     userName).

Definition updateLastMovieRequestTime (st : State) (userName : string)
    (timestamp : Z) : Outcome unit * State :=
  (Returned (),
   update_user st (assign_last_movie_request_time (Some timestamp)) userName).

(** ** The "migrated" flags *)

Definition migratePlayRecords (b : Backend) (st : State) (userName : string)
  : State :=
  cache_delete_d1 b
    (update_user st (assign_playrecord_migrated 1) userName) userName.

Definition migrateFavorites (b : Backend) (st : State) (userName : string)
  : State :=
  cache_delete_d1 b
    (update_user st (assign_favorite_migrated 1) userName) userName.

Definition migrateSkipConfigs (b : Backend) (st : State) (userName : string)
  : State :=
  cache_delete_d1 b
    (update_user st (assign_skip_migrated 1) userName) userName.

(** ** The paginated user list *)

(** An optional string used as a condition: [undefined] and [''] are
    falsy. *)
Definition truthy (s : option string) : option string := str_or_null s.

(** The entry pushed for the owner: [ownerInfo?.banned || false],
    [ownerInfo?.created_at || 0], the role always ['owner']. *)
Definition owner_entry (ownerUsername : string) (info : option UserInfo)
  : UserListEntry :=
  {| le_username := ownerUsername;
     le_role := RoleOwner;
     le_banned := from_option banned false info;
     le_tags := info ≫= tags;
     le_oidcSub := info ≫= oidcSub;
     le_enabledApis := info ≫= enabledApis;
     le_created_at := from_option created_at 0 info |}.

Definition row_entry (user : UserRow) : UserListEntry :=
  {| le_username := u_username user;
     le_role := u_role user;
     le_banned := bool_decide (u_banned user = 1);
     le_tags := u_tags user;
     le_oidcSub := u_oidc_sub user;
     le_enabledApis := u_enabled_apis user;
     le_created_at := u_created_at user |}.

(** [!!ownerInfo && ownerInfo.created_at !== 0] *)
Definition ownerInDatabase (info : option UserInfo) : bool :=
  match info with
  | Some i => bool_decide (created_at i ≠ 0)
  | None => false
  end.

(** The pair [(actualOffset, actualLimit)]. *)
Definition actual_window (offset limit : Z) (owner : option string)
    (inDatabase : bool) : Z * Z :=
  match owner with
  | Some _ =>
      if inDatabase then (offset, limit)
      else if decide (offset = 0) then (offset, limit - 1)
      else (offset - 1, limit)
  | None => (offset, limit)
  end.

(** The count is taken first, then the owner is looked up (which may insert
    the owner's row), then the page is read.  Any database error is caught
    and answered with an empty list. *)
Definition getUserListV2 (b : Backend) (env : Env) (now : Z) (st : State)
    (offset limit : Z) (ownerUsername : option string) : UserList * State :=
  let total := count (users (db st)) in
  let owner := truthy ownerUsername in
  let '(info, st1) :=
    match owner with
    | Some o => getUserInfoV2 b env now st o
    | None => (None, st)
    end in
  let inDatabase :=
    match owner with Some _ => ownerInDatabase info | None => false end in
  let total :=
    match owner with
    | Some _ => if inDatabase then total else total + 1
    | None => total
    end in
  let '(actualOffset, actualLimit) :=
    actual_window offset limit owner inDatabase in
  match
    limit_offset b actualLimit actualOffset
      (order_by_desc u_created_at (users (db st1)))
  with
  | None => ({| ul_users := []; ul_total := 0 |}, st1)
  | Some rows =>
      let first :=
        match owner with
        | Some o => if decide (offset = 0) then [owner_entry o info] else []
        | None => []
        end in
      let others :=
        row_entry <$> filter (λ r, owner ≠ Some (u_username r)) rows in
      ({| ul_users := first ++ others; ul_total := total |}, st1)
  end.

(** ** Search history *)

Definition search_history_of (d : Db) (userName : string)
  : list SearchHistoryRow :=
  filter (λ r, sh_username r = userName) (search_history d).

(** [SELECT keyword FROM search_history WHERE username = ?
     ORDER BY timestamp DESC LIMIT 20] *)
Definition getSearchHistory (st : State) (userName : string) : list string :=
  sh_keyword <$>
    take 20 (order_by_desc sh_timestamp (search_history_of (db st) userName)).

(** [ON CONFLICT (username, keyword)] *)
Definition same_search : relation SearchHistoryRow :=
  λ r r', sh_username r = sh_username r' ∧ sh_keyword r = sh_keyword r'.

Global Instance same_search_dec : RelDecision same_search.
Proof. intros r r'. unfold same_search. apply _. Defined.

(** [DO UPDATE SET timestamp = EXCLUDED.timestamp] *)
Definition search_update (old excluded : SearchHistoryRow)
  : SearchHistoryRow :=
  {| sh_id := sh_id old;
     sh_username := sh_username old;
     sh_keyword := sh_keyword old;
     sh_timestamp := sh_timestamp excluded |}.

(** The upsert of [addSearchHistory].  The row draws its [id] from the
    sequence, which does not go back when the statement conflicts or
    fails; all that is used of it is that a new id is above every id in
    the table. *)
Definition upsert_search (d : Db) (userName keyword : string) (timestamp : Z)
  : option Db * Db :=
  let id := search_history_id_seq d + 1 in
  let drawn := set_search_history d (search_history d) id in
  if decide (user_exists d userName) then
    let row :=
      {| sh_id := id; sh_username := userName; sh_keyword := keyword;
         sh_timestamp := timestamp |} in
    let d' :=
      set_search_history d
        (upsert same_search search_update row (search_history d)) id in
    (Some d', d')
  else (None, drawn).

(** [DELETE FROM search_history WHERE username = ? AND id NOT IN
     (SELECT id FROM search_history WHERE username = ?
      ORDER BY timestamp DESC LIMIT 20)] *)
Definition prune_search (d : Db) (userName : string) : Db :=
  let ids :=
    sh_id <$>
      take 20 (order_by_desc sh_timestamp (search_history_of d userName)) in
  set_search_history d
    (filter (λ r, ¬ (sh_username r = userName ∧ sh_id r ∉ ids))
       (search_history d))
    (search_history_id_seq d).

Definition addSearchHistory (st : State) (userName keyword : string)
    (now : Z) : Outcome unit * State :=
  match upsert_search (db st) userName keyword now with
  | (None, d) => (Thrown, with_db st d)
  | (Some d, _) =>
      let count := count (search_history_of d userName) in
      if decide (count > 20)
      then (Returned (), with_db st (prune_search d userName))
      else (Returned (), with_db st d)
  end.

Definition deleteSearchHistory (st : State) (userName : string)
    (keyword : option string) : Outcome unit * State :=
  let t :=
    match truthy keyword with
    | Some k =>
        filter (λ r, ¬ (sh_username r = userName ∧ sh_keyword r = k))
          (search_history (db st))
    | None =>
        filter (λ r, sh_username r ≠ userName) (search_history (db st))
    end in
  (Returned (),
   with_db st
     (set_search_history (db st) t (search_history_id_seq (db st)))).

(** ** Admin configuration *)

(** [ON CONFLICT (id)] *)
Definition same_admin_config : relation AdminConfigRow :=
  λ r r', ac_id r = ac_id r'.

Global Instance same_admin_config_dec : RelDecision same_admin_config.
Proof. intros r r'. unfold same_admin_config. apply _. Defined.

(** [DO UPDATE SET config = EXCLUDED.config,
     updated_at = EXCLUDED.updated_at] *)
Definition admin_config_update (old excluded : AdminConfigRow)
  : AdminConfigRow :=
  {| ac_id := ac_id old;
     ac_config := ac_config excluded;
     ac_updated_at := ac_updated_at excluded |}.

(** [INSERT INTO admin_config (id, config, updated_at) VALUES (1, ?, ?)
     ON CONFLICT (id) DO UPDATE ...] with the JSON text already built. *)
Definition write_admin_config (st : State) (text : string) (now : Z) : State :=
  with_db st
    (set_admin_config (db st)
       (upsert same_admin_config admin_config_update
          {| ac_id := 1; ac_config := text; ac_updated_at := now |}
          (admin_config (db st)))).

Section AdminConfig.

(** [AdminConfig] is declared in [admin.types]; the adapters only pass
    it through [JSON.stringify] and [JSON.parse] ([None]: the parse
    throws). *)
Context {AdminConfig : Type}.
Variable JSON_stringify : AdminConfig → string.
Variable JSON_parse : string → option AdminConfig.

(** [SELECT config FROM admin_config WHERE id = 1], [.first()]; a parse
    error is caught and answered with [null]. *)
Definition getAdminConfig (st : State) : option AdminConfig :=
  match head (filter (λ r, ac_id r = 1) (admin_config (db st))) with
  | None => None
  | Some row => JSON_parse (ac_config row)
  end.

Definition setAdminConfig (st : State) (config : AdminConfig) (now : Z)
  : Outcome unit * State :=
  (Returned (), write_admin_config st (JSON_stringify config) now).

End AdminConfig.

(** [clearAllData]: [DELETE FROM] each table of its list; [users] and
    [admin_config] are not on it. *)
Definition clearAllData (st : State) : Outcome unit * State :=
  (Returned (),
   with_db st
     {| users := users (db st);
        play_records := [];
        favorites := [];
        search_history := [];
        search_history_id_seq := search_history_id_seq (db st);
        skip_configs := [];
        danmaku_filter_configs := [];
        notifications := [];
        user_movie_requests := [];
        favorite_check_times := [];
        admin_config := admin_config (db st) |}).

(** ** The storage interface as a transition system *)

(** The calls that can change the state.  Every method of the adapters
    that issues a statement on [users] is here. *)
Inductive Op : Type :=
  | SetPlayRecord (userName key : string) (record : PlayRecord)
  | DeletePlayRecord (userName key : string)
  | CleanupOldPlayRecords (userName : string)
  | MigratePlayRecords (userName : string)
  | MigrateFavorites (userName : string)
  | MigrateSkipConfigs (userName : string)
  | ChangePassword (userName newPassword : string)
  | DeleteUser (userName : string)
  | GetUserInfoV2 (userName : string) (now : Z)
  | CreateUserV2 (userName password : string) (r : Role)
      (userTags : option (list string)) (sub : option string)
      (apis : option (list string)) (now : Z)
  | GetUserListV2 (offset limit : Z) (ownerUsername : option string) (now : Z)
  | UpdateUserInfoV2 (userName : string) (updates : UserUpdates)
  | ChangePasswordV2 (userName newPassword : string)
  | DeleteUserV2 (userName : string)
  | SetUserPasswordHash (userName passwordHash : string)
  | CreateUserWithHashedPassword (userName passwordHash : string) (r : Role)
      (createdAt : Z) (userTags : option (list string)) (sub : option string)
      (apis : option (list string)) (isBanned : option bool)
  | SetUserEmail (userName newEmail : string)
  | SetEmailNotificationPreference (userName : string) (enabled : bool)
  | UpdateLastMovieRequestTime (userName : string) (timestamp : Z)
  | AddSearchHistory (userName keyword : string) (now : Z)
  | DeleteSearchHistory (userName : string) (keyword : option string)
  | SetAdminConfig (text : string) (now : Z)
  | ClearAllData.

Definition exec (b : Backend) (env : Env) (op : Op) (st : State) : State :=
  match op with
  | SetPlayRecord u k r => (setPlayRecord b st u k r).2
  | DeletePlayRecord u k => (deletePlayRecord st u k).2
  | CleanupOldPlayRecords u => (cleanupOldPlayRecords env b st u).2
  | MigratePlayRecords u => migratePlayRecords b st u
  | MigrateFavorites u => migrateFavorites b st u
  | MigrateSkipConfigs u => migrateSkipConfigs b st u
  | ChangePassword u p => (changePassword st u p).2
  | DeleteUser u => (deleteUser st u).2
  | GetUserInfoV2 u now => (getUserInfoV2 b env now st u).2
  | CreateUserV2 u p r t s a now => (createUserV2 b now st u p r t s a).2
  | GetUserListV2 off lim o now => (getUserListV2 b env now st off lim o).2
  | UpdateUserInfoV2 u upd => (updateUserInfoV2 st u upd).2
  | ChangePasswordV2 u p => (changePasswordV2 b st u p).2
  | DeleteUserV2 u => (deleteUserV2 st u).2
  | SetUserPasswordHash u h => (setUserPasswordHash st u h).2
  | CreateUserWithHashedPassword u h r c t s a bn =>
      (createUserWithHashedPassword st u h r c t s a bn).2
  | SetUserEmail u e => (setUserEmail st u e).2
  | SetEmailNotificationPreference u e =>
      (setEmailNotificationPreference st u e).2
  | UpdateLastMovieRequestTime u t => (updateLastMovieRequestTime st u t).2
  | AddSearchHistory u k now => (addSearchHistory st u k now).2
  | DeleteSearchHistory u k => (deleteSearchHistory st u k).2
  | SetAdminConfig text now => write_admin_config st text now
  | ClearAllData => (clearAllData st).2
  end.

(** A run of calls, oldest first. *)
Definition run (b : Backend) (env : Env) (ops : list Op) (st : State) : State :=
  foldl (λ s op, exec b env op s) st ops.

(** ** Constraints the schema declares *)

(** [username TEXT PRIMARY KEY] *)
Definition users_pk (d : Db) : Prop :=
  NoDup (u_username <$> users d).

(** [PRIMARY KEY (username, key)] of [play_records] *)
Definition play_records_pk (d : Db) : Prop :=
  NoDup ((λ r, (pr_username r, pr_key r)) <$> play_records d).

(** [id SERIAL PRIMARY KEY], every id drawn from the sequence, and
    [UNIQUE(username, keyword)] *)
Definition search_history_ok (d : Db) : Prop :=
  NoDup (sh_id <$> search_history d) ∧
  Forall (λ r, sh_id r ≤ search_history_id_seq d) (search_history d) ∧
  NoDup ((λ r, (sh_username r, sh_keyword r)) <$> search_history d).

(** [id INTEGER PRIMARY KEY CHECK(id = 1)] *)
Definition admin_config_ok (d : Db) : Prop :=
  NoDup (ac_id <$> admin_config d) ∧ Forall (λ r, ac_id r = 1) (admin_config d).

(** [FOREIGN KEY (username) REFERENCES users(username)] on every table
    that holds rows of a user. *)
Definition foreign_keys (d : Db) : Prop :=
  Forall (λ r, user_exists d (pr_username r)) (play_records d) ∧
  Forall (λ r, user_exists d (fav_username r)) (favorites d) ∧
  Forall (λ r, user_exists d (sh_username r)) (search_history d) ∧
  Forall (λ r, user_exists d (sk_username r)) (skip_configs d) ∧
  Forall (λ r, user_exists d (dm_username r)) (danmaku_filter_configs d) ∧
  Forall (λ r, user_exists d (nt_username r)) (notifications d) ∧
  Forall (λ r, user_exists d (umr_username r)) (user_movie_requests d) ∧
  Forall (λ r, user_exists d (fct_username r)) (favorite_check_times d).

(** The retention bound on search history: at most 20 rows per user. *)
Definition search_history_bounded (d : Db) : Prop :=
  ∀ userName, (length (search_history_of d userName) ≤ 20)%nat.

(** Everything the schema declares about the modelled tables. *)
Definition schema_ok (d : Db) : Prop :=
  users_pk d ∧ play_records_pk d ∧ search_history_ok d ∧
  admin_config_ok d ∧ foreign_keys d.

(** ** Notions the statements use *)

(** The ten columns both adapters list in [setPlayRecord]. *)
Definition listed_columns (r : PlayRecord) : PlayRecord :=
  {| title := title r;
     source_name := source_name r;
     cover := cover r;
     year := year r;
     index := index r;
     total_episodes := total_episodes r;
     play_time := play_time r;
     total_time := total_time r;
     save_time := save_time r;
     search_title := search_title r;
     new_episodes := None |}.

(** The rows [getUserListV2] reads for a page of an owner [o], from the
    table in [created_at] order after the owner's lookup. *)
Definition page_window (sorted : list UserRow) (offset limit : Z)
    (adjusted : bool) : list UserRow :=
  if adjusted then
    if decide (offset = 0) then take (Z.to_nat (limit - 1)) sorted
    else take (Z.to_nat limit) (drop (Z.to_nat (offset - 1)) sorted)
  else take (Z.to_nat limit) (drop (Z.to_nat offset) sorted).

(** The rows a user owns in the entity tables. *)
Record Owned : Type := {
  own_play_records : list PlayRecordRow;
  own_favorites : list FavoriteRow;
  own_search_history : list SearchHistoryRow;
  own_skip_configs : list SkipConfigRow;
  own_danmaku_filter_configs : list DanmakuFilterRow;
  own_notifications : list NotificationRow
}.

Definition owned (d : Db) (userName : string) : Owned :=
  {| own_play_records := filter (λ r, pr_username r = userName) (play_records d);
     own_favorites := filter (λ r, fav_username r = userName) (favorites d);
     own_search_history :=
       filter (λ r, sh_username r = userName) (search_history d);
     own_skip_configs := filter (λ r, sk_username r = userName) (skip_configs d);
     own_danmaku_filter_configs :=
       filter (λ r, dm_username r = userName) (danmaku_filter_configs d);
     own_notifications :=
       filter (λ r, nt_username r = userName) (notifications d) |}.

Definition nothing_owned : Owned :=
  {| own_play_records := []; own_favorites := []; own_search_history := [];
     own_skip_configs := []; own_danmaku_filter_configs := [];
     own_notifications := [] |}.

(** A run of [addSearchHistory] calls, each with its user, keyword and
    clock reading, oldest first. *)
Definition addSearchHistory_all (st : State)
    (calls : list (string * string * Z)) : State :=
  foldl (λ s c, (addSearchHistory s c.1.1 c.1.2 c.2).2) st calls.

(** The stored value of a flag, read the way the adapters read a user. *)
Definition stored_flag (flag : UserRow → Z) (st : State) (userName : string)
  : option Z :=
  flag <$> select_user (db st) userName.

(** The three flags and the methods that raise them. *)
Inductive Flag : Type := PlayRecordFlag | FavoriteFlag | SkipFlag.

Global Instance Flag_eq_dec : EqDecision Flag.
Proof. solve_decision. Defined.

Definition flag_col (f : Flag) : UserRow → Z :=
  match f with
  | PlayRecordFlag => u_playrecord_migrated
  | FavoriteFlag => u_favorite_migrated
  | SkipFlag => u_skip_migrated
  end.

Definition migrate (f : Flag) : Backend → State → string → State :=
  match f with
  | PlayRecordFlag => migratePlayRecords
  | FavoriteFlag => migrateFavorites
  | SkipFlag => migrateSkipConfigs
  end.

(** How a call can change [users]: not at all, by an UPDATE that keeps
    the name and every raised flag, by the INSERT of a row whose flags
    are all raised under a name not yet taken, or by a DELETE. *)
Inductive users_change : list UserRow → list UserRow → Prop :=
  | users_same t : users_change t t
  | users_updated t assign userName :
      (∀ r, u_username (assign r) = u_username r) →
      (∀ r f, flag_col f r = 1 → flag_col f (assign r) = 1) →
      users_change t (update_users assign userName t)
  | users_inserted t row :
      u_username row ∉ u_username <$> t →
      (∀ f, flag_col f row = 1) →
      users_change t (t ++ [row])
  | users_deleted t userName :
      users_change t (filter (λ r, u_username r ≠ userName) t).

(** Nobody's raised flag is lowered, and whoever is new has all three
    raised. *)
Definition flags_kept (t t' : list UserRow) : Prop :=
  ∀ userName row',
    head (filter (λ r, u_username r = userName) t') = Some row' →
    match head (filter (λ r, u_username r = userName) t) with
    | Some row => ∀ f, flag_col f row = 1 → flag_col f row' = 1
    | None => ∀ f, flag_col f row' = 1
    end.

(** ** Sample data for the worked examples *)

Definition sample_user (userName : string) (createdAt : Z) : UserRow :=
  new_user_row userName (hashPassword "secret") RoleUser 0 None None None
    createdAt.

Definition sample_env : Env :=
  {| USERNAME := Some "root"; PASSWORD := Some "toor";
     MAX_PLAY_RECORDS_PER_USER := None |}.

(** A database with the single user [alice]. *)
Definition alice_state : State :=
  {| db := set_users empty_db [sample_user "alice" 1000]; cache := ∅ |}.

Definition sample_record (saved : Z) (fresh : option Z) : PlayRecord :=
  {| title := "Dune"; source_name := "tmdb"; cover := "dune.jpg";
     year := "2021"; index := 1; total_episodes := 1; play_time := 60;
     total_time := 9000; save_time := saved; search_title := "dune";
     new_episodes := fresh |}.

(** An episode index one past the largest [INTEGER]. *)
Definition far_episode : PlayRecord :=
  {| title := "Dune"; source_name := "tmdb"; cover := "dune.jpg";
     year := "2021"; index := 2147483648; total_episodes := 1;
     play_time := 60; total_time := 9000; save_time := 20;
     search_title := "dune"; new_episodes := None |}.

Definition sample_key (i : Z) : string :=
  String (ascii_of_N (Z.to_N (64 + i))) "".

(** [alice] with twelve play records, saved at times 1 to 12. *)
Definition busy_state : State :=
  foldr
    (λ i s, (setPlayRecord D1 s "alice" (sample_key i) (sample_record i None)).2)
    alice_state (seqZ 1 12).

Definition tight_env : Env :=
  {| USERNAME := Some "root"; PASSWORD := Some "toor";
     MAX_PLAY_RECORDS_PER_USER := Some "1" |}.

(** [alice], and [mallory] who is banned; both have the password
    ["secret"]. *)
Definition banned_state : State :=
  {| db :=
       set_users empty_db
         [sample_user "alice" 1000;
          new_user_row "mallory" (hashPassword "secret") RoleUser 1
            None None None 2000];
     cache := ∅ |}.

(** The configured owner [root] created first, then [alice] and [bob]. *)
Definition crowded_state : State :=
  {| db :=
       set_users empty_db
         [new_user_row "root" "" RoleOwner 0 None None None 1;
          sample_user "alice" 2; sample_user "bob" 3];
     cache := ∅ |}.

(** The same users, the owner's row imported with [created_at = 0]. *)
Definition epoch_state : State :=
  {| db :=
       set_users empty_db
         [new_user_row "root" "" RoleOwner 0 None None None 0;
          sample_user "alice" 2; sample_user "bob" 3];
     cache := ∅ |}.

(** [alice] and [bob], each with a row in every entity table. *)
Definition shared_db : Db :=
  {| users := [sample_user "alice" 1000; sample_user "bob" 2000];
     play_records :=
       [play_record_values D1 "alice" "tmdb+1" (sample_record 10 None);
        play_record_values D1 "bob" "tmdb+1" (sample_record 11 None)];
     favorites :=
       [{| fav_username := "alice"; fav_key := "tmdb+1";
           fav_source_name := "tmdb"; fav_total_episodes := 1;
           fav_title := "Dune"; fav_year := Some "2021";
           fav_cover := Some "dune.jpg"; fav_save_time := 10;
           fav_search_title := Some "dune"; fav_origin := Some "vod";
           fav_is_completed := 0; fav_vod_remarks := None |};
        {| fav_username := "bob"; fav_key := "tmdb+2";
           fav_source_name := "tmdb"; fav_total_episodes := 8;
           fav_title := "Severance"; fav_year := Some "2022";
           fav_cover := None; fav_save_time := 12;
           fav_search_title := None; fav_origin := Some "vod";
           fav_is_completed := 1; fav_vod_remarks := None |}];
     search_history :=
       [{| sh_id := 1; sh_username := "alice"; sh_keyword := "dune";
           sh_timestamp := 10 |};
        {| sh_id := 2; sh_username := "bob"; sh_keyword := "dune";
           sh_timestamp := 11 |}];
     search_history_id_seq := 2;
     skip_configs :=
       [{| sk_username := "alice"; sk_key := "tmdb+1"; sk_enable := 1;
           sk_intro_time := 90; sk_outro_time := 30 |};
        {| sk_username := "bob"; sk_key := "tmdb+2"; sk_enable := 0;
           sk_intro_time := 0; sk_outro_time := 0 |}];
     danmaku_filter_configs :=
       [{| dm_username := "alice"; dm_rules := "[]" |};
        {| dm_username := "bob"; dm_rules := "[]" |}];
     notifications :=
       [{| nt_id := "n1"; nt_username := "alice"; nt_type := "system";
           nt_title := "Welcome"; nt_message := "Hello"; nt_timestamp := 5;
           nt_read := 0; nt_metadata := None |};
        {| nt_id := "n2"; nt_username := "bob"; nt_type := "system";
           nt_title := "Welcome"; nt_message := "Hello"; nt_timestamp := 6;
           nt_read := 1; nt_metadata := None |}];
     user_movie_requests := [];
     favorite_check_times :=
       [{| fct_username := "alice"; fct_last_check_time := 7 |}];
     admin_config := [] |}.

Definition shared_state : State := {| db := shared_db; cache := ∅ |}.

(** [alice] as an import from a legacy store left her: nothing migrated
    yet. *)
Definition legacy_state : State :=
  {| db :=
       set_users empty_db
         [assign_skip_migrated 0
            (assign_favorite_migrated 0
               (assign_playrecord_migrated 0 (sample_user "alice" 1000)))];
     cache := ∅ |}.

(** A stand-in for [AdminConfig] in the worked example: a configuration
    that is a single site name, printed as a JSON string without escapes. *)
Definition dquote : ascii := ascii_of_nat 34.

Definition name_stringify (siteName : string) : string :=
  String dquote (siteName +:+ String dquote EmptyString).

Fixpoint drop_last_quote (s : string) : option string :=
  match s with
  | EmptyString => None
  | String c EmptyString =>
      if decide (c = dquote) then Some EmptyString else None
  | String c r => String c <$> drop_last_quote r
  end.

Definition name_parse (text : string) : option string :=
  match text with
  | String c r => if decide (c = dquote) then drop_last_quote r else None
  | EmptyString => None
  end.

(** * The rest of the adapters

    The methods below work on tables the statements above leave alone.
    They are the same under D1 and Postgres unless they take a
    [Backend]. *)

(** ** JavaScript objects used as maps

    [obj[key] = value] on an object literal: the own properties form a
    finite map.  The key ['__proto__'] names the prototype, not a
    property, so an assignment to it adds nothing to the map. *)
Definition js_set {V} (m : gmap string V) (k : string) (v : V)
  : gmap string V :=
  if decide (k = "__proto__") then m else <[k := v]> m.

(** [for (const row of rows) obj[key(row)] = val(row)], from [{}]. *)
Definition object_of {A V} (key : A → string) (val : A → V) (rows : list A)
  : gmap string V :=
  foldl (λ m r, js_set m (key r) (val r)) ∅ rows.

(** [SELECT * FROM play_records WHERE username = ? ORDER BY save_time DESC],
    folded into an object indexed by [row.key]. *)
Definition getAllPlayRecords (b : Backend) (st : State) (userName : string)
  : gmap string PlayRecord :=
  object_of pr_key (rowToPlayRecord b)
    (order_by_desc pr_save_time (play_records_of (db st) userName)).

(** ** Favorites *)

Definition set_favorites (d : Db) (t : list FavoriteRow) : Db :=
  {| users := users d; play_records := play_records d; favorites := t;
     search_history := search_history d;
     search_history_id_seq := search_history_id_seq d;
     skip_configs := skip_configs d;
     danmaku_filter_configs := danmaku_filter_configs d;
     notifications := notifications d;
     user_movie_requests := user_movie_requests d;
     favorite_check_times := favorite_check_times d;
     admin_config := admin_config d |}.

(** [Favorite] is declared in [./types]; its fields are the ones the
    adapters read, prefixed here because [PlayRecord] has fields of the same
    names.  [origin], [is_completed] and [vod_remarks] are optional;
    [undefined] and [null] are both [None].  The numbers are integers: an
    episode count and milliseconds. *)
Record Favorite : Type := {
  fv_source_name : string;
  fv_total_episodes : Z;
  fv_title : string;
  fv_year : string;
  fv_cover : string;
  fv_save_time : Z;
  fv_search_title : string;
  fv_origin : option string;
  fv_is_completed : option bool;
  fv_vod_remarks : option string
}.

Definition favorites_of (d : Db) (userName : string) : list FavoriteRow :=
  filter (λ r, fav_username r = userName) (favorites d).

Definition rowToFavorite (row : FavoriteRow) : Favorite :=
  {| fv_source_name := fav_source_name row;
     fv_total_episodes := fav_total_episodes row;
     fv_title := fav_title row;
     fv_year := col_or_empty (fav_year row);
     fv_cover := col_or_empty (fav_cover row);
     fv_save_time := fav_save_time row;
     fv_search_title := col_or_empty (fav_search_title row);
     fv_origin := fav_origin row;
     fv_is_completed := Some (bool_decide (fav_is_completed row = 1));
     fv_vod_remarks := str_or_null (fav_vod_remarks row) |}.

(** [SELECT * FROM favorites WHERE username = ? AND key = ?], [.first()] *)
Definition getFavorite (st : State) (userName key : string)
  : option Favorite :=
  rowToFavorite <$>
    head (filter (λ r, fav_username r = userName ∧ fav_key r = key)
            (favorites (db st))).

(** The values bound to the INSERT of [setFavorite]. *)
Definition favorite_values (userName key : string) (favorite : Favorite)
  : FavoriteRow :=
  {| fav_username := userName;
     fav_key := key;
     fav_source_name := fv_source_name favorite;
     fav_total_episodes := fv_total_episodes favorite;
     fav_title := fv_title favorite;
     fav_year := Some (or_str (fv_year favorite) "");
     fav_cover := Some (or_str (fv_cover favorite) "");
     fav_save_time := fv_save_time favorite;
     fav_search_title := Some (or_str (fv_search_title favorite) "");
     fav_origin := str_or_null (fv_origin favorite);
     fav_is_completed := int_of_bool (default false (fv_is_completed favorite));
     fav_vod_remarks := str_or_null (fv_vod_remarks favorite) |}.

(** [CHECK(origin IN ('vod', 'live'))]: a NULL passes. *)
Definition origin_ok (o : option string) : Prop :=
  o = None ∨ o = Some "vod" ∨ o = Some "live".

Global Instance origin_ok_dec o : Decision (origin_ok o).
Proof. unfold origin_ok. apply _. Defined.

(** [ON CONFLICT (username, key)] *)
Definition same_favorite : relation FavoriteRow :=
  λ r r', fav_username r = fav_username r' ∧ fav_key r = fav_key r'.

Global Instance same_favorite_dec : RelDecision same_favorite.
Proof. intros r r'. unfold same_favorite. apply _. Defined.

(** [DO UPDATE SET source_name = EXCLUDED.source_name, ...] *)
Definition favorite_update (old excluded : FavoriteRow) : FavoriteRow :=
  {| fav_username := fav_username old;
     fav_key := fav_key old;
     fav_source_name := fav_source_name excluded;
     fav_total_episodes := fav_total_episodes excluded;
     fav_title := fav_title excluded;
     fav_year := fav_year excluded;
     fav_cover := fav_cover excluded;
     fav_save_time := fav_save_time excluded;
     fav_search_title := fav_search_title excluded;
     fav_origin := fav_origin excluded;
     fav_is_completed := fav_is_completed excluded;
     fav_vod_remarks := fav_vod_remarks excluded |}.

(** Whether the columns take the numbers of the favorite: under Postgres
    [total_episodes] is [INTEGER] and [save_time] is [BIGINT]. *)
Definition favorite_fits (b : Backend) (favorite : Favorite) : Prop :=
  match b with
  | D1 => True
  | Postgres =>
      int4 (fv_total_episodes favorite) ∧ int8 (fv_save_time favorite)
  end.

Global Instance favorite_fits_dec b favorite :
  Decision (favorite_fits b favorite).
Proof. unfold favorite_fits. destruct b; apply _. Defined.

(** The INSERT fails on the foreign key, on the CHECK of [origin] and,
    under Postgres, on a number out of the range of its column; the method
    logs and rethrows. *)
Definition setFavorite (b : Backend) (st : State) (userName key : string)
    (favorite : Favorite) : Outcome unit * State :=
  if decide (user_exists (db st) userName ∧
             origin_ok (str_or_null (fv_origin favorite)) ∧
             favorite_fits b favorite)
  then
    (Returned (),
     with_db st
       (set_favorites (db st)
          (upsert same_favorite favorite_update
             (favorite_values userName key favorite)
             (favorites (db st)))))
  else (Thrown, st).

(** [SELECT * FROM favorites WHERE username = ? ORDER BY save_time DESC],
    folded into an object indexed by [row.key]. *)
Definition getAllFavorites (st : State) (userName : string)
  : gmap string Favorite :=
  object_of fav_key rowToFavorite
    (order_by_desc fav_save_time (favorites_of (db st) userName)).

(** [DELETE FROM favorites WHERE username = ? AND key = ?] *)
Definition deleteFavorite (st : State) (userName key : string)
  : Outcome unit * State :=
  (Returned (),
   with_db st
     (set_favorites (db st)
        (filter (λ r, ¬ (fav_username r = userName ∧ fav_key r = key))
           (favorites (db st))))).

(** ** Skip configurations *)

Definition set_skip_configs (d : Db) (t : list SkipConfigRow) : Db :=
  {| users := users d; play_records := play_records d;
     favorites := favorites d;
     search_history := search_history d;
     search_history_id_seq := search_history_id_seq d;
     skip_configs := t;
     danmaku_filter_configs := danmaku_filter_configs d;
     notifications := notifications d;
     user_movie_requests := user_movie_requests d;
     favorite_check_times := favorite_check_times d;
     admin_config := admin_config d |}.

(** The times are whole seconds. *)
Record SkipConfig : Type := {
  enable : bool;
  intro_time : Z;
  outro_time : Z
}.

(** [`${source}+${id}`] *)
Definition storage_key (source id : string) : string :=
  source +:+ "+" +:+ id.

Definition rowToSkipConfig (row : SkipConfigRow) : SkipConfig :=
  {| enable := bool_decide (sk_enable row = 1);
     intro_time := sk_intro_time row;
     outro_time := sk_outro_time row |}.

(** [SELECT * FROM skip_configs WHERE username = ? AND key = ?],
    [.first()] *)
Definition getSkipConfig (st : State) (userName source id : string)
  : option SkipConfig :=
  let key := storage_key source id in
  rowToSkipConfig <$>
    head (filter (λ r, sk_username r = userName ∧ sk_key r = key)
            (skip_configs (db st))).

Definition skip_config_values (userName key : string) (config : SkipConfig)
  : SkipConfigRow :=
  {| sk_username := userName;
     sk_key := key;
     sk_enable := int_of_bool (enable config);
     sk_intro_time := intro_time config;
     sk_outro_time := outro_time config |}.

Definition same_skip_config : relation SkipConfigRow :=
  λ r r', sk_username r = sk_username r' ∧ sk_key r = sk_key r'.

Global Instance same_skip_config_dec : RelDecision same_skip_config.
Proof. intros r r'. unfold same_skip_config. apply _. Defined.

Definition skip_config_update (old excluded : SkipConfigRow) : SkipConfigRow :=
  {| sk_username := sk_username old;
     sk_key := sk_key old;
     sk_enable := sk_enable excluded;
     sk_intro_time := sk_intro_time excluded;
     sk_outro_time := sk_outro_time excluded |}.

(** Whether the columns take the times of the configuration: under
    Postgres [intro_time] and [outro_time] are [INTEGER]. *)
Definition skip_config_fits (b : Backend) (config : SkipConfig) : Prop :=
  match b with
  | D1 => True
  | Postgres => int4 (intro_time config) ∧ int4 (outro_time config)
  end.

Global Instance skip_config_fits_dec b config :
  Decision (skip_config_fits b config).
Proof. unfold skip_config_fits. destruct b; apply _. Defined.

(** The INSERT fails on the foreign key and, under Postgres, on a time out
    of the range of [INTEGER]; the method logs and rethrows. *)
Definition setSkipConfig (b : Backend) (st : State)
    (userName source id : string) (config : SkipConfig)
  : Outcome unit * State :=
  let key := storage_key source id in
  if decide (user_exists (db st) userName ∧ skip_config_fits b config) then
    (Returned (),
     with_db st
       (set_skip_configs (db st)
          (upsert same_skip_config skip_config_update
             (skip_config_values userName key config)
             (skip_configs (db st)))))
  else (Thrown, st).

Definition deleteSkipConfig (st : State) (userName source id : string)
  : Outcome unit * State :=
  let key := storage_key source id in
  (Returned (),
   with_db st
     (set_skip_configs (db st)
        (filter (λ r, ¬ (sk_username r = userName ∧ sk_key r = key))
           (skip_configs (db st))))).

(** [SELECT * FROM skip_configs WHERE username = ?], folded into an object
    indexed by [row.key]. *)
Definition getAllSkipConfigs (st : State) (userName : string)
  : gmap string SkipConfig :=
  object_of sk_key rowToSkipConfig
    (filter (λ r, sk_username r = userName) (skip_configs (db st))).

(** ** Keys on the client ([ContinueWatching]) *)

(** [s.split(sep)] for a separator of one character: the pieces between
    the separators, at least one. *)
Fixpoint split_on (sep : ascii) (s : string) : list string :=
  match s with
  | EmptyString => [EmptyString]
  | String c s' =>
      if decide (c = sep) then EmptyString :: split_on sep s'
      else
        match split_on sep s' with
        | piece :: rest => String c piece :: rest
        | [] => [String c EmptyString]
        end
  end.

(** [const [source, id] = key.split('+')]: [id] is [undefined] when the key
    has no ['+']; pieces after the second are dropped. *)
Definition parseKey (key : string) : string * option string :=
  match split_on "+" key with
  | source :: rest => (source, head rest)
  | [] => (EmptyString, None)
  end.

(** [l.slice(0, n)]: a negative [n] counts from the end. *)
Definition slice0 {A} (n : Z) (l : list A) : list A :=
  if decide (n < 0) then take (length l - Z.to_nat (- n)) l
  else take (Z.to_nat n) l.

(** [x] in its place in a list in descending order: behind what is
    greater, in front of what is equal or less. *)
Fixpoint insert_desc {A} (col : A → Z) (x : A) (l : list A) : list A :=
  match l with
  | [] => [x]
  | y :: l' =>
      if decide (col x < col y) then y :: insert_desc col x l' else x :: l
  end.

(** [l.sort((a, b) => col(b) - col(a))]: [Array.prototype.sort] is stable,
    so elements that tie on [col] stay in the order they had. *)
Definition sort_desc {A} (col : A → Z) (l : list A) : list A :=
  foldr (insert_desc col) [] l.

(** [updatePlayRecords]: the entries of the object, newest first, cut to
    [limit] when [limit] is given and not [0].  The list is what
    [setPlayRecords] receives; entries with the same [save_time] are in
    the order of [Object.entries]. *)
Definition updatePlayRecords (allRecords : list (string * PlayRecord))
    (limit : option Z) : list (string * PlayRecord) :=
  let sortedRecords := sort_desc (λ e, save_time e.2) allRecords in
  match or_null limit with
  | Some n => slice0 n sortedRecords
  | None => sortedRecords
  end.

(** ** Danmaku filter configuration *)

Definition set_danmaku_filter_configs (d : Db) (t : list DanmakuFilterRow)
  : Db :=
  {| users := users d; play_records := play_records d;
     favorites := favorites d;
     search_history := search_history d;
     search_history_id_seq := search_history_id_seq d;
     skip_configs := skip_configs d;
     danmaku_filter_configs := t;
     notifications := notifications d;
     user_movie_requests := user_movie_requests d;
     favorite_check_times := favorite_check_times d;
     admin_config := admin_config d |}.

Definition same_danmaku : relation DanmakuFilterRow :=
  λ r r', dm_username r = dm_username r'.

Global Instance same_danmaku_dec : RelDecision same_danmaku.
Proof. intros r r'. unfold same_danmaku. apply _. Defined.

Definition danmaku_update (old excluded : DanmakuFilterRow)
  : DanmakuFilterRow :=
  {| dm_username := dm_username old; dm_rules := dm_rules excluded |}.

Definition deleteDanmakuFilterConfig (st : State) (userName : string)
  : Outcome unit * State :=
  (Returned (),
   with_db st
     (set_danmaku_filter_configs (db st)
        (filter (λ r, dm_username r ≠ userName)
           (danmaku_filter_configs (db st))))).

Section DanmakuFilterConfig.

(** [DanmakuFilterConfig] is declared in [./types]; the adapters only pass
    it through [JSON.stringify] and [JSON.parse], which are parameters
    here.  [JSON.parse] throws on a text that is not JSON: [None]. *)
Context {DanmakuFilterConfig : Type}.
Variable JSON_stringify : DanmakuFilterConfig → string.
Variable JSON_parse : string → option DanmakuFilterConfig.

(** A row that does not parse is logged and answered with [null]. *)
Definition getDanmakuFilterConfig (st : State) (userName : string)
  : option DanmakuFilterConfig :=
  match
    head (filter (λ r, dm_username r = userName)
            (danmaku_filter_configs (db st)))
  with
  | None => None
  | Some result => JSON_parse (dm_rules result)
  end.

Definition setDanmakuFilterConfig (st : State) (userName : string)
    (config : DanmakuFilterConfig) : Outcome unit * State :=
  if decide (user_exists (db st) userName) then
    (Returned (),
     with_db st
       (set_danmaku_filter_configs (db st)
          (upsert same_danmaku danmaku_update
             {| dm_username := userName;
                dm_rules := JSON_stringify config |}
             (danmaku_filter_configs (db st)))))
  else (Thrown, st).

End DanmakuFilterConfig.

(** ** Notifications *)

Definition set_notifications (d : Db) (t : list NotificationRow) : Db :=
  {| users := users d; play_records := play_records d;
     favorites := favorites d;
     search_history := search_history d;
     search_history_id_seq := search_history_id_seq d;
     skip_configs := skip_configs d;
     danmaku_filter_configs := danmaku_filter_configs d;
     notifications := t;
     user_movie_requests := user_movie_requests d;
     favorite_check_times := favorite_check_times d;
     admin_config := admin_config d |}.

(** [Notification] is declared in [./types]; [metadata] is optional and of
    a type the adapters only serialise.  A metadata that is present is an
    object, which [notification.metadata ? ... : null] takes as true. *)
Record Notification (Metadata : Type) : Type := {
  n_id : string;
  n_type : string;
  n_title : string;
  n_message : string;
  n_timestamp : Z;
  n_read : bool;
  n_metadata : option Metadata
}.
Arguments n_id {Metadata} _.
Arguments n_type {Metadata} _.
Arguments n_title {Metadata} _.
Arguments n_message {Metadata} _.
Arguments n_timestamp {Metadata} _.
Arguments n_read {Metadata} _.
Arguments n_metadata {Metadata} _.

Definition notifications_of (d : Db) (userName : string)
  : list NotificationRow :=
  filter (λ r, nt_username r = userName) (notifications d).

(** [CHECK(type IN ('favorite_update', 'system', 'announcement',
    'movie_request', 'request_fulfilled'))] *)
Definition notification_types : list string :=
  ["favorite_update"; "system"; "announcement"; "movie_request";
   "request_fulfilled"].

Definition assign_read (v : Z) (r : NotificationRow) : NotificationRow :=
  {| nt_id := nt_id r; nt_username := nt_username r; nt_type := nt_type r;
     nt_title := nt_title r; nt_message := nt_message r;
     nt_timestamp := nt_timestamp r; nt_read := v;
     nt_metadata := nt_metadata r |}.

(** [UPDATE notifications SET read = 1 WHERE username = ? AND id = ?] *)
Definition markNotificationAsRead (st : State)
    (userName notificationId : string) : Outcome unit * State :=
  (Returned (),
   with_db st
     (set_notifications (db st)
        ((λ r, if decide (nt_username r = userName ∧ nt_id r = notificationId)
               then assign_read 1 r else r) <$> notifications (db st)))).

(** [DELETE FROM notifications WHERE username = ? AND id = ?] *)
Definition deleteNotification (st : State) (userName notificationId : string)
  : Outcome unit * State :=
  (Returned (),
   with_db st
     (set_notifications (db st)
        (filter (λ r, ¬ (nt_username r = userName ∧ nt_id r = notificationId))
           (notifications (db st))))).

(** [DELETE FROM notifications WHERE username = ?] *)
Definition clearAllNotifications (st : State) (userName : string)
  : Outcome unit * State :=
  (Returned (),
   with_db st
     (set_notifications (db st)
        (filter (λ r, nt_username r ≠ userName) (notifications (db st))))).

(** [SELECT COUNT( * ) as count FROM notifications
     WHERE username = ? AND read = 0]; [count || 0] is [count]. *)
Definition getUnreadNotificationCount (st : State) (userName : string) : Z :=
  count (filter (λ r, nt_username r = userName ∧ nt_read r = 0)
           (notifications (db st))).

Section Notifications.

Context {Metadata : Type}.
Variable JSON_stringify : Metadata → string.
Variable JSON_parse : string → option Metadata.

(** [row.metadata ? JSON.parse(row.metadata) : undefined]; the outer
    [None] is the exception of [JSON.parse]. *)
Definition rowToNotification (row : NotificationRow)
  : option (Notification Metadata) :=
  let metadata :=
    match str_or_null (nt_metadata row) with
    | None => Some None
    | Some text => Some <$> JSON_parse text
    end in
  (λ m,
     {| n_id := nt_id row;
        n_type := nt_type row;
        n_title := nt_title row;
        n_message := nt_message row;
        n_timestamp := nt_timestamp row;
        n_read := bool_decide (nt_read row = 1);
        n_metadata := m |}) <$> metadata.

(** [SELECT * FROM notifications WHERE username = ? ORDER BY timestamp DESC];
    one row whose metadata does not parse makes the method answer [[]]. *)
Definition getNotifications (st : State) (userName : string)
  : list (Notification Metadata) :=
  default []
    (mapM rowToNotification
       (order_by_desc nt_timestamp (notifications_of (db st) userName))).

Definition notification_values (userName : string)
    (notification : Notification Metadata) : NotificationRow :=
  {| nt_id := n_id notification;
     nt_username := userName;
     nt_type := n_type notification;
     nt_title := n_title notification;
     nt_message := n_message notification;
     nt_timestamp := n_timestamp notification;
     nt_read := int_of_bool (n_read notification);
     nt_metadata := JSON_stringify <$> n_metadata notification |}.

(** A plain INSERT: it fails on the primary key [id], which is shared by
    all users, on the foreign key and on the CHECK of [type]. *)
Definition addNotification (st : State) (userName : string)
    (notification : Notification Metadata) : Outcome unit * State :=
  if decide (user_exists (db st) userName ∧
             n_type notification ∈ notification_types ∧
             n_id notification ∉ nt_id <$> notifications (db st))
  then
    (Returned (),
     with_db st
       (set_notifications (db st)
          (notifications (db st) ++
             [notification_values userName notification])))
  else (Thrown, st).

End Notifications.

(** ** The time of the last check of the favorites *)

Definition set_favorite_check_times (d : Db) (t : list FavoriteCheckTimeRow)
  : Db :=
  {| users := users d; play_records := play_records d;
     favorites := favorites d;
     search_history := search_history d;
     search_history_id_seq := search_history_id_seq d;
     skip_configs := skip_configs d;
     danmaku_filter_configs := danmaku_filter_configs d;
     notifications := notifications d;
     user_movie_requests := user_movie_requests d;
     favorite_check_times := t;
     admin_config := admin_config d |}.

(** [(result?.last_check_time as number) || 0] *)
Definition getLastFavoriteCheckTime (st : State) (userName : string) : Z :=
  default 0
    (or_null
       (fct_last_check_time <$>
          head (filter (λ r, fct_username r = userName)
                  (favorite_check_times (db st))))).

Definition same_check_time : relation FavoriteCheckTimeRow :=
  λ r r', fct_username r = fct_username r'.

Global Instance same_check_time_dec : RelDecision same_check_time.
Proof. intros r r'. unfold same_check_time. apply _. Defined.

Definition check_time_update (old excluded : FavoriteCheckTimeRow)
  : FavoriteCheckTimeRow :=
  {| fct_username := fct_username old;
     fct_last_check_time := fct_last_check_time excluded |}.

Definition setLastFavoriteCheckTime (st : State) (userName : string)
    (timestamp : Z) : Outcome unit * State :=
  if decide (user_exists (db st) userName) then
    (Returned (),
     with_db st
       (set_favorite_check_times (db st)
          (upsert same_check_time check_time_update
             {| fct_username := userName; fct_last_check_time := timestamp |}
             (favorite_check_times (db st)))))
  else (Thrown, st).

(** ** More reads of [users] *)

(** [result?.email] *)
Definition getUserEmail (st : State) (userName : string) : option string :=
  select_user (db st) userName ≫= u_email.

(** [result?.email_notifications === 1]: [false] for a user without a
    row. *)
Definition getEmailNotificationPreference (st : State) (userName : string)
  : bool :=
  match select_user (db st) userName with
  | Some result => bool_decide (u_email_notifications result = 1)
  | None => false
  end.

(** [SELECT username FROM users WHERE oidc_sub = ?], [.first()] *)
Definition getUserByOidcSub (st : State) (sub : string) : option string :=
  u_username <$>
    head (filter (λ r, u_oidc_sub r = Some sub) (users (db st))).

(** ** The table [global_config]

    [key TEXT PRIMARY KEY, value TEXT NOT NULL, updated_at]; no other table
    refers to it, so the methods on it are functions of the table alone. *)

Record GlobalConfigRow : Type := {
  gc_key : string;
  gc_value : string;
  gc_updated_at : Z
}.

Definition same_global_key : relation GlobalConfigRow :=
  λ r r', gc_key r = gc_key r'.

Global Instance same_global_key_dec : RelDecision same_global_key.
Proof. intros r r'. unfold same_global_key. apply _. Defined.

(** [DO UPDATE SET value = EXCLUDED.value, updated_at = EXCLUDED.updated_at] *)
Definition global_update (old excluded : GlobalConfigRow) : GlobalConfigRow :=
  {| gc_key := gc_key old;
     gc_value := gc_value excluded;
     gc_updated_at := gc_updated_at excluded |}.

Definition getGlobalValue (t : list GlobalConfigRow) (key : string)
  : option string :=
  gc_value <$> head (filter (λ r, gc_key r = key) t).

Definition setGlobalValue (t : list GlobalConfigRow) (key value : string)
    (now : Z) : list GlobalConfigRow :=
  upsert same_global_key global_update
    {| gc_key := key; gc_value := value; gc_updated_at := now |} t.

Definition deleteGlobalValue (t : list GlobalConfigRow) (key : string)
  : list GlobalConfigRow :=
  filter (λ r, gc_key r ≠ key) t.

(** ** Characters

    A text is kept as the bytes of its UTF-8 encoding, the form in which
    both databases hold a [TEXT] and the drivers send a JavaScript string.
    A character is a byte below 0xC0 alone, or a lead byte from 0xC0 on
    with the continuation bytes (0x80 to 0xBF) that follow it.  On
    well-formed UTF-8, which is all a driver sends and all Postgres takes,
    these are the characters of the text: the units in which SQLite
    ([sqlite3Utf8Read]) and Postgres ([NextChar] of a UTF8 database) read
    the [_] and the [%] of [LIKE].  The texts have no NUL. *)
Definition continuation (c : ascii) : bool :=
  let n := nat_of_ascii c in ((128 <=? n) && (n <? 192))%nat.

Definition lead (c : ascii) : bool := (192 <=? nat_of_ascii c)%nat.

Definition is_continuation (ch : string) : bool :=
  match ch with
  | String c EmptyString => continuation c
  | _ => false
  end.

(** The continuation bytes at the head of a list of characters, and what
    follows them. *)
Fixpoint take_continuations (l : list string) : string * list string :=
  match l with
  | ch :: l' =>
      if is_continuation ch then
        let '(bs, r) := take_continuations l' in (ch +:+ bs, r)
      else (EmptyString, l)
  | [] => (EmptyString, [])
  end.

(** The characters of a text, each with its bytes. *)
Fixpoint chars (s : string) : list string :=
  match s with
  | EmptyString => []
  | String c s' =>
      if lead c then
        let '(bs, r) := take_continuations (chars s') in String c bs :: r
      else String c EmptyString :: chars s'
  end.

Definition join (l : list string) : string := foldr String.append EmptyString l.

Definition starts_with_continuation (s : string) : bool :=
  match s with
  | String c _ => continuation c
  | EmptyString => false
  end.

(** The well-formed encodings of one character (the Unicode Standard,
    table 3-7). *)
Definition utf8_char (ch : string) : bool :=
  let cont n := ((128 <=? n) && (n <? 192))%nat in
  match nat_of_ascii <$> list_ascii_of_string ch with
  | [a] => (a <? 128)%nat
  | [a; b] => ((194 <=? a) && (a <=? 223))%nat && cont b
  | [a; b; c] =>
      (((a =? 224) && (160 <=? b) && (b <=? 191))%nat
       || (((225 <=? a) && (a <=? 236))%nat || ((238 <=? a) && (a <=? 239))%nat)
          && cont b
       || ((a =? 237) && (128 <=? b) && (b <=? 159))%nat)
      && cont c
  | [a; b; c; d] =>
      (((a =? 240) && (144 <=? b) && (b <=? 191))%nat
       || ((241 <=? a) && (a <=? 243))%nat && cont b
       || ((a =? 244) && (128 <=? b) && (b <=? 143))%nat)
      && cont c && cont d
  | _ => false
  end.

(** A well-formed text. *)
Definition utf8 (s : string) : bool := forallb utf8_char (chars s).

(** The UTF-16 code units of a character: two for a character of four
    bytes, which is beyond U+FFFF, one for any other. *)
Definition units (ch : string) : nat :=
  match ch with
  | String c _ => if (240 <=? nat_of_ascii c)%nat then 2 else 1
  | EmptyString => 0
  end.

(** [s.length] *)
Definition utf16_length (s : string) : nat := sum_list (units <$> chars s).

(** The second code unit of a character of four bytes, alone: a low
    surrogate, written in the three bytes the encoding gives a code unit
    of its range. *)
Definition low_surrogate (ch : string) : string :=
  match ch with
  | String _ (String _ (String b2 (String b3 _))) =>
      String (ascii_of_nat 237)
        (String (ascii_of_nat (176 + nat_of_ascii b2 mod 16))
           (String b3 EmptyString))
  | _ => ch
  end.

Fixpoint drop_units (n : nat) (l : list string) : list string :=
  match n, l with
  | O, _ => l
  | S _, [] => []
  | S n', ch :: l' =>
      if decide (units ch = 2%nat) then
        match n' with
        | O => low_surrogate ch :: l'
        | S n'' => drop_units n'' l'
        end
      else drop_units n' l'
  end.

(** [s.substring(n)], [n] counted in code units as JavaScript does. *)
Definition substring_from (n : nat) (s : string) : string :=
  join (drop_units n (chars s)).

(** ** [LIKE]

    [%] stands for any run of characters and [_] for one character.
    SQLite compares the letters of ASCII without regard to case and has no
    escape character unless one is declared; Postgres compares exactly and
    takes a backslash as the escape of the character after it. *)
Definition fold_case (c : ascii) : ascii :=
  let n := nat_of_ascii c in
  if ((65 <=? n) && (n <=? 90))%nat then ascii_of_nat (n + 32) else c.

Definition fold_char (ch : string) : string :=
  match ch with
  | String c EmptyString => String (fold_case c) EmptyString
  | _ => ch
  end.

Definition same_char (b : Backend) (p c : string) : bool :=
  match b with
  | D1 => bool_decide (fold_char p = fold_char c)
  | Postgres => bool_decide (p = c)
  end.

Definition backslash : ascii := ascii_of_nat 92.

(** A pattern that ends in a lone escape matches nothing here; Postgres
    raises an error when the match gets that far.  [dangling_escape] finds
    such patterns. *)
Fixpoint like_chars (b : Backend) (pat : list string) : list string → bool :=
  match pat with
  | [] => λ s, bool_decide (s = [])
  | p :: pat' =>
      if decide (p = "%") then
        fix any (s : list string) : bool :=
          like_chars b pat' s ||
          match s with
          | [] => false
          | _ :: s' => any s'
          end
      else if decide (p = "_") then
        λ s,
          match s with
          | [] => false
          | _ :: s' => like_chars b pat' s'
          end
      else if decide (b = Postgres ∧ p = String backslash EmptyString) then
        match pat' with
        | [] => λ _, false
        | q :: pat'' =>
            λ s,
              match s with
              | [] => false
              | c :: s' => bool_decide (q = c) && like_chars b pat'' s'
              end
        end
      else
        λ s,
          match s with
          | [] => false
          | c :: s' => same_char b p c && like_chars b pat' s'
          end
  end.

(** [s LIKE pat] *)
Definition like (b : Backend) (pat s : string) : bool :=
  like_chars b (chars pat) (chars s).

Fixpoint dangling_escape (pat : string) : bool :=
  match pat with
  | EmptyString => false
  | String p pat' =>
      if decide (p = backslash) then
        match pat' with
        | EmptyString => true
        | String _ pat'' => dangling_escape pat''
        end
      else dangling_escape pat'
  end.

(** ** The Redis hash on top of [global_config]
    ([RedisHashAdapter], [PostgresRedisHashAdapter])

    None of the methods catches an exception. *)

(** [`${hashKey}:${field}`] *)
Definition hash_field_key (hashKey field : string) : string :=
  hashKey +:+ ":" +:+ field.

(** [`${hashKey}:`] *)
Definition hash_prefix (hashKey : string) : string := hashKey +:+ ":".

(** [`${prefix}%`] *)
Definition hash_pattern (hashKey : string) : string :=
  hash_prefix hashKey +:+ "%".

Definition hSet (t : list GlobalConfigRow) (hashKey field value : string)
    (now : Z) : list GlobalConfigRow :=
  let key := hash_field_key hashKey field in
  upsert same_global_key global_update
    {| gc_key := key; gc_value := value; gc_updated_at := now |} t.

Definition hGet (t : list GlobalConfigRow) (hashKey field : string)
  : option string :=
  let key := hash_field_key hashKey field in
  gc_value <$> head (filter (λ r, gc_key r = key) t).

(** [SELECT key, value FROM global_config WHERE key LIKE ?], each row filed
    under [fullKey.substring(prefix.length)]. *)
Definition hGetAll (b : Backend) (t : list GlobalConfigRow) (hashKey : string)
  : gmap string string :=
  let prefix := hash_prefix hashKey in
  object_of (λ row, substring_from (utf16_length prefix) (gc_key row))
    gc_value
    (filter (λ r, like b (hash_pattern hashKey) (gc_key r) = true) t).

Definition hDel (t : list GlobalConfigRow) (hashKey field : string)
  : list GlobalConfigRow :=
  let key := hash_field_key hashKey field in
  filter (λ r, gc_key r ≠ key) t.

(** [DELETE FROM global_config WHERE key LIKE ?] *)
Definition del (b : Backend) (t : list GlobalConfigRow) (hashKey : string)
  : list GlobalConfigRow :=
  filter (λ r, like b (hash_pattern hashKey) (gc_key r) ≠ true) t.

(** [PRIMARY KEY] on [key] *)
Definition global_config_pk (t : list GlobalConfigRow) : Prop :=
  NoDup (gc_key <$> t).

(** The characters [LIKE] under Postgres gives a meaning to. *)
Definition plain (s : string) : Prop :=
  Forall (λ c, c ≠ "%"%char ∧ c ≠ "_"%char ∧ c ≠ backslash)
    (list_ascii_of_string s).

Global Instance plain_dec s : Decision (plain s).
Proof. unfold plain. apply _. Defined.

(** The flag as [getUserInfoV2] reports it. *)
Definition info_flag (f : Flag) : UserInfo → bool :=
  match f with
  | PlayRecordFlag => playrecord_migrated
  | FavoriteFlag => favorite_migrated
  | SkipFlag => skip_migrated
  end.

(** ** Keys of the remaining tables *)

(** [PRIMARY KEY (username, key)] on [favorites] *)
Definition favorites_pk (d : Db) : Prop :=
  NoDup ((λ r, (fav_username r, fav_key r)) <$> favorites d).

(** [PRIMARY KEY (username, key)] on [skip_configs] *)
Definition skip_configs_pk (d : Db) : Prop :=
  NoDup ((λ r, (sk_username r, sk_key r)) <$> skip_configs d).

(** [username TEXT PRIMARY KEY] on [danmaku_filter_configs] *)
Definition danmaku_filter_configs_pk (d : Db) : Prop :=
  NoDup (dm_username <$> danmaku_filter_configs d).

(** [id TEXT PRIMARY KEY] on [notifications] *)
Definition notifications_pk (d : Db) : Prop :=
  NoDup (nt_id <$> notifications d).

(** [username TEXT PRIMARY KEY] on [favorite_check_times] *)
Definition favorite_check_times_pk (d : Db) : Prop :=
  NoDup (fct_username <$> favorite_check_times d).

(** What the table keeps of a favorite: an absent [is_completed] is
    [false], an empty [origin] or [vod_remarks] is absent. *)
Definition stored_favorite (favorite : Favorite) : Favorite :=
  {| fv_source_name := fv_source_name favorite;
     fv_total_episodes := fv_total_episodes favorite;
     fv_title := fv_title favorite;
     fv_year := fv_year favorite;
     fv_cover := fv_cover favorite;
     fv_save_time := fv_save_time favorite;
     fv_search_title := fv_search_title favorite;
     fv_origin := str_or_null (fv_origin favorite);
     fv_is_completed := Some (default false (fv_is_completed favorite));
     fv_vod_remarks := str_or_null (fv_vod_remarks favorite) |}.

(** The string has no ['+']. *)
Definition no_plus (s : string) : Prop :=
  "+"%char ∉ list_ascii_of_string s.

Global Instance no_plus_dec s : Decision (no_plus s).
Proof. unfold no_plus. apply _. Defined.

Definition sample_favorite : Favorite :=
  {| fv_source_name := "tmdb"; fv_total_episodes := 1; fv_title := "Dune";
     fv_year := "2021"; fv_cover := "dune.jpg"; fv_save_time := 5;
     fv_search_title := "dune"; fv_origin := Some "vod";
     fv_is_completed := None; fv_vod_remarks := Some "" |}.

Definition sample_skip : SkipConfig :=
  {| enable := true; intro_time := 90; outro_time := 30 |}.

Definition sample_notification (id : string) (timestamp : Z) (read : bool)
  : Notification string :=
  {| n_id := id; n_type := "system"; n_title := "Hello";
     n_message := "Welcome"; n_timestamp := timestamp; n_read := read;
     n_metadata := Some "note" |}.

(** [alice] with one unread notification. *)
Definition inbox_state : State :=
  (addNotification name_stringify alice_state "alice"
     (sample_notification "n1" 3 false)).2.

(** The string has no backslash. *)
Definition no_backslash (s : string) : Prop :=
  backslash ∉ list_ascii_of_string s.

Global Instance no_backslash_dec s : Decision (no_backslash s).
Proof. unfold no_backslash. apply _. Defined.

(** Every key of the table that the pattern of [hashKey] matches is a
    key [hashKey:field]. *)
Definition own_keys_only (b : Backend) (t : list GlobalConfigRow)
    (hashKey : string) : Prop :=
  ∀ r, r ∈ t → like b (hash_pattern hashKey) (gc_key r) = true →
       ∃ field, gc_key r = hash_field_key hashKey field.

(** Two devices of [alice] and one of [al_ce], as the refresh tokens are
    filed. *)
Definition token_table : list GlobalConfigRow :=
  hSet (hSet (hSet [] "user_tokens:alice" "t1" "phone" 1)
          "user_tokens:alice" "t2" "laptop" 2)
    "user_tokens:bob" "t1" "tablet" 3.

(** The letter e with an acute accent, a character of two bytes. *)
Definition e_acute : string :=
  String (ascii_of_nat 195) (String (ascii_of_nat 169) EmptyString).

(** ** The remaining writes as calls

    The calls of [Op] and the writes on the other tables of a user.  A
    danmaku configuration and the metadata of a notification are given as
    their JSON texts, so every text a row can hold is covered. *)
Inductive Call : Type :=
  | Earlier (op : Op)
  | SetFavorite (userName key : string) (favorite : Favorite)
  | DeleteFavorite (userName key : string)
  | SetSkipConfig (userName source id : string) (config : SkipConfig)
  | DeleteSkipConfig (userName source id : string)
  | SetDanmakuFilterConfig (userName text : string)
  | DeleteDanmakuFilterConfig (userName : string)
  | AddNotification (userName : string) (notification : Notification string)
  | MarkNotificationAsRead (userName notificationId : string)
  | DeleteNotification (userName notificationId : string)
  | ClearAllNotifications (userName : string)
  | SetLastFavoriteCheckTime (userName : string) (timestamp : Z).

Definition call (b : Backend) (env : Env) (c : Call) (st : State) : State :=
  match c with
  | Earlier op => exec b env op st
  | SetFavorite u k f => (setFavorite b st u k f).2
  | DeleteFavorite u k => (deleteFavorite st u k).2
  | SetSkipConfig u s i c => (setSkipConfig b st u s i c).2
  | DeleteSkipConfig u s i => (deleteSkipConfig st u s i).2
  | SetDanmakuFilterConfig u text =>
      (setDanmakuFilterConfig (λ t, t) st u text).2
  | DeleteDanmakuFilterConfig u => (deleteDanmakuFilterConfig st u).2
  | AddNotification u n => (addNotification (λ t, t) st u n).2
  | MarkNotificationAsRead u i => (markNotificationAsRead st u i).2
  | DeleteNotification u i => (deleteNotification st u i).2
  | ClearAllNotifications u => (clearAllNotifications st u).2
  | SetLastFavoriteCheckTime u t => (setLastFavoriteCheckTime st u t).2
  end.

(** A run of calls, oldest first. *)
Definition calls (b : Backend) (env : Env) (cs : list Call) (st : State)
  : State :=
  foldl (λ s c, call b env c s) st cs.

(** The constraints of [schema_ok] and the keys of the remaining
    tables. *)
Definition keys_ok (d : Db) : Prop :=
  schema_ok d ∧ favorites_pk d ∧ skip_configs_pk d ∧
  danmaku_filter_configs_pk d ∧ notifications_pk d ∧
  favorite_check_times_pk d.

(** The tables of [keys_ok] that [schema_ok] does not mention: no call of
    [Op] adds a row to them. *)
Definition shrinks (d d' : Db) : Prop :=
  favorites d' `sublist_of` favorites d ∧
  skip_configs d' `sublist_of` skip_configs d ∧
  danmaku_filter_configs d' `sublist_of` danmaku_filter_configs d ∧
  notifications d' `sublist_of` notifications d ∧
  favorite_check_times d' `sublist_of` favorite_check_times d.

(** ** Music playlists ([PostgresStorage])

    [scripts/init-postgres.js] declares [music_playlists] and
    [music_playlist_songs]; the songs of a playlist go with the playlist.
    [duration] is a number of seconds, whole or not, and its column is
    [REAL]: the row keeps a number of single precision, of a type [Real]
    of its own here, and the record of a song has a JavaScript number, of
    the type [Num]. *)

Record MusicPlaylistRow : Type := {
  mp_id : string;
  mp_username : string;
  mp_name : string;
  mp_description : option string;
  mp_cover : option string;
  mp_created_at : Z;
  mp_updated_at : Z
}.

Record PlaylistSongRow (Real : Type) : Type := {
  ps_playlist_id : string;
  ps_platform : string;
  ps_song_id : string;
  ps_name : string;
  ps_artist : string;
  ps_album : option string;
  ps_pic : option string;
  ps_duration : Real;
  ps_added_at : Z;
  ps_sort_order : Z
}.
Arguments ps_playlist_id {Real} _.
Arguments ps_platform {Real} _.
Arguments ps_song_id {Real} _.
Arguments ps_name {Real} _.
Arguments ps_artist {Real} _.
Arguments ps_album {Real} _.
Arguments ps_pic {Real} _.
Arguments ps_duration {Real} _.
Arguments ps_added_at {Real} _.
Arguments ps_sort_order {Real} _.

Record MusicDb (Real : Type) : Type := {
  music_playlists : list MusicPlaylistRow;
  music_playlist_songs : list (PlaylistSongRow Real)
}.
Arguments music_playlists {Real} _.
Arguments music_playlist_songs {Real} _.

(** The [song] argument of [addSongToPlaylist]. *)
Record Song (Num : Type) : Type := {
  song_platform : string;
  song_id : string;
  song_name : string;
  song_artist : string;
  song_album : option string;
  song_pic : option string;
  song_duration : Num
}.
Arguments song_platform {Num} _.
Arguments song_id {Num} _.
Arguments song_name {Num} _.
Arguments song_artist {Num} _.
Arguments song_album {Num} _.
Arguments song_pic {Num} _.
Arguments song_duration {Num} _.

(** An element of the array [getPlaylistSongs] returns. *)
Record PlaylistSong (Num : Type) : Type := {
  pl_platform : string;
  pl_id : string;
  pl_name : string;
  pl_artist : string;
  pl_album : option string;
  pl_pic : option string;
  pl_duration : Num;
  pl_added_at : Z;
  pl_sort_order : Z
}.
Arguments pl_platform {Num} _.
Arguments pl_id {Num} _.
Arguments pl_name {Num} _.
Arguments pl_artist {Num} _.
Arguments pl_album {Num} _.
Arguments pl_pic {Num} _.
Arguments pl_duration {Num} _.
Arguments pl_added_at {Num} _.
Arguments pl_sort_order {Num} _.

(** [ORDER BY col ASC] *)
Definition asc_by {A} (col : A → Z) : relation A := λ a b, col a ≤ col b.

Global Instance asc_by_dec {A} (col : A → Z) : RelDecision (asc_by col).
Proof. intros a b. unfold asc_by. apply _. Defined.

Global Instance asc_by_total {A} (col : A → Z) : Total (asc_by col).
Proof. intros a b. unfold asc_by. lia. Qed.

Global Instance asc_by_trans {A} (col : A → Z) : Transitive (asc_by col).
Proof. intros a b c. unfold asc_by. lia. Qed.

Definition order_by_asc {A} (col : A → Z) (l : list A) : list A :=
  merge_sort (asc_by col) l.

Definition songs_of {Real} (m : MusicDb Real) (playlistId : string)
  : list (PlaylistSongRow Real) :=
  filter (λ r, ps_playlist_id r = playlistId) (music_playlist_songs m).

(** [MAX(col)]: NULL over no rows. *)
Definition sql_max {A} (col : A → Z) (rows : list A) : option Z :=
  foldr (λ r acc, Some (from_option (Z.max (col r)) (col r) acc)) None rows.

(** [CHECK(platform IN ('netease', 'qq', 'kuwo'))] *)
Definition platforms : list string := ["netease"; "qq"; "kuwo"].

(** [ON CONFLICT(playlist_id, platform, song_id)] *)
Definition same_song {Real} : relation (PlaylistSongRow Real) :=
  λ r r', ps_playlist_id r = ps_playlist_id r' ∧
          ps_platform r = ps_platform r' ∧ ps_song_id r = ps_song_id r'.

Global Instance same_song_dec {Real} : RelDecision (same_song (Real := Real)).
Proof. intros r r'. unfold same_song. apply _. Defined.

(** [DO UPDATE SET name, artist, album, pic, duration]: [added_at] and
    [sort_order] are not listed. *)
Definition song_update {Real} (old excluded : PlaylistSongRow Real)
  : PlaylistSongRow Real :=
  {| ps_playlist_id := ps_playlist_id old;
     ps_platform := ps_platform old;
     ps_song_id := ps_song_id old;
     ps_name := ps_name excluded;
     ps_artist := ps_artist excluded;
     ps_album := ps_album excluded;
     ps_pic := ps_pic excluded;
     ps_duration := ps_duration excluded;
     ps_added_at := ps_added_at old;
     ps_sort_order := ps_sort_order old |}.

(** [(maxSortResult?.max_sort as number || 0) + 1] *)
Definition nextSortOrder {Real} (m : MusicDb Real) (playlistId : string) : Z :=
  default 0 (or_null (sql_max ps_sort_order (songs_of m playlistId))) + 1.

(** [UPDATE music_playlists SET updated_at = $1 WHERE id = $2] *)
Definition touch_playlist (now : Z) (playlistId : string)
    (t : list MusicPlaylistRow) : list MusicPlaylistRow :=
  (λ r, if decide (mp_id r = playlistId)
        then {| mp_id := mp_id r; mp_username := mp_username r;
                mp_name := mp_name r; mp_description := mp_description r;
                mp_cover := mp_cover r; mp_created_at := mp_created_at r;
                mp_updated_at := now |}
        else r) <$> t.

(** [DELETE FROM music_playlist_songs WHERE playlist_id = $1 AND
     platform = $2 AND song_id = $3], then the [updated_at] of the
    playlist. *)
Definition removeSongFromPlaylist {Real} (m : MusicDb Real)
    (playlistId platform songId : string) (now : Z)
  : Outcome unit * MusicDb Real :=
  (Returned (),
   {| music_playlists := touch_playlist now playlistId (music_playlists m);
      music_playlist_songs :=
        filter (λ r, ¬ (ps_playlist_id r = playlistId ∧
                        ps_platform r = platform ∧ ps_song_id r = songId))
          (music_playlist_songs m) |}).

(** [DELETE FROM music_playlists WHERE id = $1], with the cascade. *)
Definition deleteMusicPlaylist {Real} (m : MusicDb Real) (playlistId : string)
  : Outcome unit * MusicDb Real :=
  (Returned (),
   {| music_playlists := filter (λ r, mp_id r ≠ playlistId) (music_playlists m);
      music_playlist_songs :=
        if decide (playlistId ∈ mp_id <$> music_playlists m)
        then filter (λ r, ps_playlist_id r ≠ playlistId)
               (music_playlist_songs m)
        else music_playlist_songs m |}).

Section Music.

Context {Num Real : Type}.

(** What the column [REAL] keeps of a number bound to it: the nearest
    number of single precision; none for a number out of its range, which
    Postgres refuses. *)
Variable to_real : Num → option Real.

(** The number the driver returns for a value of the column. *)
Variable of_real : Real → Num.

Definition rowToPlaylistSong (row : PlaylistSongRow Real) : PlaylistSong Num :=
  {| pl_platform := ps_platform row;
     pl_id := ps_song_id row;
     pl_name := ps_name row;
     pl_artist := ps_artist row;
     pl_album := str_or_null (ps_album row);
     pl_pic := str_or_null (ps_pic row);
     pl_duration := of_real (ps_duration row);
     pl_added_at := ps_added_at row;
     pl_sort_order := ps_sort_order row |}.

(** [SELECT * FROM music_playlist_songs WHERE playlist_id = $1
     ORDER BY sort_order ASC] *)
Definition getPlaylistSongs (m : MusicDb Real) (playlistId : string)
  : list (PlaylistSong Num) :=
  rowToPlaylistSong <$> order_by_asc ps_sort_order (songs_of m playlistId).

(** The values of the INSERT, [duration] as the column takes it. *)
Definition song_values (playlistId : string) (song : Song Num)
    (duration : Real) (now sort : Z) : PlaylistSongRow Real :=
  {| ps_playlist_id := playlistId;
     ps_platform := song_platform song;
     ps_song_id := song_id song;
     ps_name := song_name song;
     ps_artist := song_artist song;
     ps_album := str_or_null (song_album song);
     ps_pic := str_or_null (song_pic song);
     ps_duration := duration;
     ps_added_at := now;
     ps_sort_order := sort |}.

(** The INSERT fails on the foreign key when the playlist does not exist,
    on the CHECK of [platform], and on a value out of the range of its
    column: [duration] is [REAL], [added_at] is [BIGINT] and [sort_order]
    is [INTEGER], and Postgres checks the values before it looks for a
    conflict.  The method logs and rethrows, with nothing written. *)
Definition addSongToPlaylist (m : MusicDb Real) (playlistId : string)
    (song : Song Num) (now : Z) : Outcome unit * MusicDb Real :=
  let nextSortOrder := nextSortOrder m playlistId in
  match to_real (song_duration song) with
  | Some duration =>
      if decide (playlistId ∈ mp_id <$> music_playlists m ∧
                 song_platform song ∈ platforms ∧
                 int8 now ∧ int4 nextSortOrder)
      then
        (Returned (),
         {| music_playlists := touch_playlist now playlistId (music_playlists m);
            music_playlist_songs :=
              upsert same_song song_update
                (song_values playlistId song duration now nextSortOrder)
                (music_playlist_songs m) |})
      else (Thrown, m)
  | None => (Thrown, m)
  end.

(** What [getPlaylistSongs] shows of a song added at [now] in place
    [sort], when the column keeps [duration] of its duration. *)
Definition listed_song (song : Song Num) (duration : Real) (now sort : Z)
  : PlaylistSong Num :=
  {| pl_platform := song_platform song;
     pl_id := song_id song;
     pl_name := song_name song;
     pl_artist := song_artist song;
     pl_album := str_or_null (song_album song);
     pl_pic := str_or_null (song_pic song);
     pl_duration := of_real duration;
     pl_added_at := now;
     pl_sort_order := sort |}.

End Music.

(** The column [REAL] on whole numbers of seconds: a number of single
    precision has 24 significant bits, the nearest one is taken, the even
    one of two that are as near, and a number that rounds to [2^128] or
    beyond is out of range. *)
Definition float4 (n : Z) : option Z :=
  let a := Z.abs n in
  let shift := Z.log2 a - 23 in
  if decide (shift ≤ 0) then Some n
  else
    let q := Z.shiftr a shift in
    let rest := a - Z.shiftl q shift in
    let half := Z.shiftl 1 (shift - 1) in
    let q' :=
      if decide (half < rest ∨ (half = rest ∧ Z.odd q = true))
      then q + 1 else q in
    let r := Z.shiftl q' shift in
    if decide (r < 2 ^ 128) then Some (Z.sgn n * r) else None.

Definition sample_song (id : string) : Song Z :=
  {| song_platform := "qq"; song_id := id; song_name := "Song";
     song_artist := "Artist"; song_album := None; song_pic := Some "";
     song_duration := 16777217 |}.

Definition sample_music : MusicDb Z :=
  {| music_playlists :=
       [{| mp_id := "p1"; mp_username := "alice"; mp_name := "Mix";
           mp_description := None; mp_cover := None; mp_created_at := 1;
           mp_updated_at := 1 |}];
     music_playlist_songs := [] |}.

(** * Properties *)

(** ** The digest on the standard test vectors *)

Example sha_abc :
  hashPassword "abc" =
  "ba7816bf8f01cfea414140de5dae2223b00361a396177a9cb410ff61f20015ad".
Proof. vm_compute. reflexivity. Qed.

Example sha_empty :
  hashPassword "" =
  "e3b0c44298fc1c149afbf4c8996fb92427ae41e4649b934ca495991b7852b855".
Proof. vm_compute. reflexivity. Qed.

Example sha_two_blocks :
  hashPassword "abcdbcdecdefdefgefghfghighijhijkijkljklmklmnlmnomnopnopq" =
  "248d6a61d20638b8e5c026930c3e6039a33ce45964ff2167f6ecedd419db06c1".
Proof. vm_compute. reflexivity. Qed.

(** ** Facts about the SQL fragments *)

Section fragments.
Context {A : Type}.
Implicit Types l t : list A.

Lemma filter_fmap_stable (P : A → Prop) `{!∀ x, Decision (P x)}
    (f : A → A) l :
  (∀ x, P (f x) ↔ P x) → filter P (f <$> l) = f <$> filter P l.
Proof.
  intros Hf. induction l as [|x l IH]; [done|].
  rewrite fmap_cons, !filter_cons.
  destruct (decide (P (f x))) as [Hx|Hx], (decide (P x)) as [Hx'|Hx'];
    rewrite ?fmap_cons, IH; try done.
  - destruct Hx'. by apply Hf.
  - destruct Hx. by apply Hf.
Qed.

Lemma filter_none (P : A → Prop) `{!∀ x, Decision (P x)} l :
  (∀ x, x ∈ l → ¬ P x) → filter P l = [].
Proof.
  induction l as [|x l IH]; intros Hl; [done|].
  rewrite filter_cons_False by (apply Hl; left).
  apply IH. intros y Hy. apply Hl. by right.
Qed.

Lemma NoDup_fmap_eq {K} (key : A → K) l x y :
  NoDup (key <$> l) → x ∈ l → y ∈ l → key x = key y → x = y.
Proof.
  induction l as [|z l IH]; intros Hnd Hx Hy Hk; [by inversion Hx|].
  rewrite fmap_cons in Hnd. apply NoDup_cons in Hnd as [Hz Hnd].
  apply elem_of_cons in Hx as [->|Hx], Hy as [->|Hy]; try done.
  - destruct Hz. rewrite Hk. by apply list_elem_of_fmap_2.
  - destruct Hz. rewrite <- Hk. by apply list_elem_of_fmap_2.
  - by apply IH.
Qed.

(** The rows an upsert leaves under the conflict key: the stored rows
    with their listed columns overwritten, or the new row alone. *)
Lemma upsert_filter (same : relation A) `{!RelDecision same}
    (set : A → A → A) (P : A → Prop) `{!∀ x, Decision (P x)} new t :
  P new →
  (∀ r, P r ↔ same r new) →
  (∀ r, same r new → same (set r new) new) →
  filter P (upsert same set new t) =
  if decide (Exists (λ r, same r new) t)
  then (λ r, set r new) <$> filter P t
  else [new].
Proof.
  intros Hnew HP Hset. unfold upsert.
  destruct (decide (Exists _ t)) as [Hex|Hex].
  - rewrite filter_fmap_stable.
    + apply list_fmap_ext. intros i r Hr.
      apply list_elem_of_lookup_2, list_elem_of_filter in Hr as [Hr _].
      apply HP in Hr. by rewrite decide_True.
    + intros r. destruct (decide (same r new)) as [Hs|Hs]; [|done].
      rewrite !HP. split; auto.
  - rewrite filter_app, filter_cons_True, filter_nil by done.
    rewrite filter_none; [done|].
    intros r Hr HPr. apply Hex, Exists_exists. exists r.
    split; [done|]. by apply HP.
Qed.

Lemma upsert_other (same : relation A) `{!RelDecision same}
    (set : A → A → A) (P : A → Prop) `{!∀ x, Decision (P x)} new t :
  ¬ P new →
  (∀ r, same r new → ¬ P r ∧ ¬ P (set r new)) →
  filter P (upsert same set new t) = filter P t.
Proof.
  intros Hnew HP. unfold upsert.
  destruct (decide (Exists _ t)) as [Hex|Hex].
  - clear Hex. induction t as [|x t IH]; [done|].
    rewrite fmap_cons, !filter_cons.
    destruct (decide (same x new)) as [Hs|Hs].
    + destruct (HP _ Hs) as [H1 H2].
      by rewrite !decide_False.
    + destruct (decide (P x)); by rewrite IH.
  - rewrite filter_app, filter_cons_False, filter_nil by done.
    by rewrite app_nil_r.
Qed.

End fragments.

(** ** Play records: upsert and read back *)

Lemma or_str_empty s : or_str s "" = s.
Proof. unfold or_str. by case_decide. Qed.

Lemma rowToPlayRecord_update b old new :
  rowToPlayRecord b (play_record_update b old new) = rowToPlayRecord b new.
Proof. by destruct b. Qed.

Lemma rowToPlayRecord_values b userName key record :
  listed_columns (rowToPlayRecord b (play_record_values b userName key record))
  = listed_columns record.
Proof.
  destruct record. unfold listed_columns, rowToPlayRecord. simpl.
  by rewrite !or_str_empty.
Qed.

Lemma play_records_setPlayRecord b st userName key record :
  user_exists (db st) userName →
  play_record_fits b record →
  play_records (db (setPlayRecord b st userName key record).2) =
  upsert same_play_record (play_record_update b)
    (play_record_values b userName key record) (play_records (db st)).
Proof. intros Hu Hfit. unfold setPlayRecord. by rewrite decide_True. Qed.

Lemma users_setPlayRecord b st userName key record :
  users (db (setPlayRecord b st userName key record).2) = users (db st).
Proof. unfold setPlayRecord. by case_decide. Qed.

(** What [getPlayRecord] finds after [setPlayRecord]: the row view of the
    bound values, whether the row was inserted or overwritten. *)
Lemma getPlayRecord_setPlayRecord b st userName key record :
  user_exists (db st) userName →
  play_record_fits b record →
  getPlayRecord b (setPlayRecord b st userName key record).2 userName key =
  Some (rowToPlayRecord b (play_record_values b userName key record)).
Proof.
  intros Hu Hfit. unfold getPlayRecord.
  rewrite play_records_setPlayRecord by done.
  set (new := play_record_values b userName key record).
  rewrite (upsert_filter same_play_record _
             (λ r, pr_username r = userName ∧ pr_key r = key)).
  - case_decide as Hex; [|done].
    apply Exists_exists in Hex as (r0 & Hr0 & Hs).
    assert (r0 ∈ filter (λ r, pr_username r = userName ∧ pr_key r = key)
                   (play_records (db st))) as Hin.
    { apply list_elem_of_filter. split; [|done]. apply Hs. }
    destruct (filter _ (play_records (db st))) as [|r1 rest];
      [by inversion Hin|].
    simpl. by rewrite rowToPlayRecord_update.
  - done.
  - intros r. unfold same_play_record. by subst new.
  - intros r Hs. unfold same_play_record in *. by subst new.
Qed.

(** The primary key survives the upsert. *)
Lemma play_records_pk_upsert b new t :
  NoDup ((λ r, (pr_username r, pr_key r)) <$> t) →
  NoDup ((λ r, (pr_username r, pr_key r)) <$>
           upsert same_play_record (play_record_update b) new t).
Proof.
  intros Hnd. unfold upsert. case_decide as Hex.
  - rewrite <- list_fmap_compose.
    erewrite list_fmap_ext; [exact Hnd|].
    intros i r _. simpl. by case_decide.
  - rewrite fmap_app. apply NoDup_app. split_and!; [done| |apply NoDup_singleton].
    intros pk Hpk Hnew. apply list_elem_of_singleton in Hnew as ->.
    apply list_elem_of_fmap in Hpk as (r & Heq & Hr).
    apply Hex, Exists_exists. exists r. split; [done|].
    unfold same_play_record. by inversion Heq.
Qed.

Lemma play_records_pk_setPlayRecord b st userName key record :
  play_records_pk (db st) →
  play_records_pk (db (setPlayRecord b st userName key record).2).
Proof.
  unfold play_records_pk, setPlayRecord. intros Hpk.
  case_decide; [|done]. simpl. by apply play_records_pk_upsert.
Qed.

Lemma at_most_one_under_key {A K} (key : A → K) (c : K) (l : list A) :
  NoDup (key <$> l) → (∀ x, x ∈ l → key x = c) → (length l ≤ 1)%nat.
Proof.
  intros Hnd Hc. destruct l as [|x [|y l]]; simpl; [lia..|].
  rewrite !fmap_cons in Hnd. apply NoDup_cons in Hnd as [Hx _].
  destruct Hx. rewrite (Hc x), <- (Hc y) by set_solver. left.
Qed.

Lemma one_row_per_key d userName key :
  play_records_pk d →
  (length (filter (λ r, pr_username r = userName ∧ pr_key r = key)
             (play_records d)) ≤ 1)%nat.
Proof.
  intros Hpk.
  apply (at_most_one_under_key (λ r, (pr_username r, pr_key r))
           (userName, key)).
  - eapply sublist_NoDup; [exact Hpk|apply fmap_sublist, sublist_filter].
  - intros r [[-> ->] _]%list_elem_of_filter. done.
Qed.

Lemma one_row_after_setPlayRecord b st userName key record :
  user_exists (db st) userName →
  play_record_fits b record →
  play_records_pk (db st) →
  length (filter (λ r, pr_username r = userName ∧ pr_key r = key)
            (play_records (db (setPlayRecord b st userName key record).2)))
  = 1%nat.
Proof.
  intros Hu Hfit Hpk.
  pose proof (one_row_per_key _ userName key
                (play_records_pk_setPlayRecord b st userName key record Hpk)).
  pose proof (getPlayRecord_setPlayRecord b st userName key record Hu Hfit)
    as Hg.
  unfold getPlayRecord in Hg.
  destruct (filter _ (play_records (db (setPlayRecord b st userName key record).2))) as [|x l];
    [done|]. simpl in *. lia.
Qed.




(** The adapters agree on every listed column. *)
Lemma backends_agree_on_listed_columns st userName key record :
  user_exists (db st) userName →
  play_record_fits Postgres record →
  listed_columns <$>
    getPlayRecord D1 (setPlayRecord D1 st userName key record).2 userName key
  = listed_columns <$>
      getPlayRecord Postgres
        (setPlayRecord Postgres st userName key record).2 userName key.
Proof.
  intros Hu Hfit. rewrite !getPlayRecord_setPlayRecord by done. simpl.
  by rewrite !rowToPlayRecord_values.
Qed.

(** Where they part: a record that carries a non-zero [new_episodes]
    comes back with it under D1 and without it under Postgres. *)
Lemma backends_differ_on_new_episodes st userName key record n :
  user_exists (db st) userName →
  play_record_fits Postgres record →
  new_episodes record = Some n → n ≠ 0 →
  new_episodes <$>
    getPlayRecord D1 (setPlayRecord D1 st userName key record).2 userName key
  = Some (Some n) ∧
  new_episodes <$>
    getPlayRecord Postgres
      (setPlayRecord Postgres st userName key record).2 userName key
  = Some None.
Proof.
  intros Hu Hfit Hn Hz. rewrite !getPlayRecord_setPlayRecord by done. simpl.
  rewrite Hn. simpl. rewrite decide_False by done. simpl.
  by rewrite decide_False.
Qed.

(** C10 at a failing input: the same record, written and read back under
    each adapter, keeps its [new_episodes] under D1 and loses it under
    Postgres, so the two results differ. *)
Theorem postgres_drops_new_episodes :
  let record := sample_record 20 (Some 3) in
  let via b :=
    getPlayRecord b (setPlayRecord b alice_state "alice" "tmdb+1" record).2
      "alice" "tmdb+1" in
  via D1 = Some record ∧
  via Postgres = Some (listed_columns record) ∧
  via D1 ≠ via Postgres.
Proof. split_and!; vm_compute; [done..|discriminate]. Qed.

(** ** ORDER BY and LIMIT *)

Section order_by.
Context {A : Type} (col : A → Z).

Lemma order_by_desc_perm l : order_by_desc col l ≡ₚ l.
Proof. apply merge_sort_Permutation. Qed.

Lemma order_by_desc_sorted l :
  StronglySorted (desc_by col) (order_by_desc col l).
Proof. apply StronglySorted_merge_sort; apply _. Qed.

Lemma order_by_desc_elem_of l x : x ∈ order_by_desc col l ↔ x ∈ l.
Proof. by rewrite order_by_desc_perm. Qed.

Lemma order_by_desc_length l : length (order_by_desc col l) = length l.
Proof. by rewrite order_by_desc_perm. Qed.

(** Whatever [LIMIT n] cuts off is no newer than anything it keeps. *)
Lemma limit_keeps_newest l n kept gone :
  kept ∈ take n (order_by_desc col l) →
  gone ∈ l →
  gone ∉ take n (order_by_desc col l) →
  col gone ≤ col kept.
Proof.
  intros Hk Hg Hng.
  pose proof (order_by_desc_sorted l) as Hs.
  rewrite <- (take_drop n (order_by_desc col l)) in Hs.
  apply (StronglySorted_app_1_elem_of _ _ _ kept gone Hs Hk).
  apply order_by_desc_elem_of in Hg.
  rewrite <- (take_drop n (order_by_desc col l)) in Hg.
  apply elem_of_app in Hg as [Hg|Hg]; [done|exact Hg].
Qed.

(** [DELETE ... WHERE key NOT IN (SELECT key ... ORDER BY col DESC
    LIMIT n)] under a unique key: what stays is what the subquery
    selected. *)
Lemma keep_newest {K} `{!EqDecision K} (key : A → K) l n :
  NoDup (key <$> l) →
  filter (λ r, key r ∈ key <$> take n (order_by_desc col l)) l
  ≡ₚ take n (order_by_desc col l).
Proof.
  intros Hnd.
  assert (NoDup l) as Hl by by eapply NoDup_fmap_1.
  apply NoDup_Permutation.
  - by apply NoDup_filter.
  - eapply sublist_NoDup; [|apply sublist_take].
    by rewrite order_by_desc_perm.
  - intros x. rewrite list_elem_of_filter. split.
    + intros [(y & Hxy & Hy)%list_elem_of_fmap Hx].
      assert (y ∈ l) as Hyl.
      { eapply order_by_desc_elem_of, subseteq_take, Hy. }
      by rewrite (NoDup_fmap_eq key l x y Hnd Hx Hyl Hxy).
    + intros Hx. split; [by apply list_elem_of_fmap_2|].
      eapply order_by_desc_elem_of, subseteq_take, Hx.
Qed.

End order_by.

Lemma limit_offset_first {A} b (lim : Z) (l : list A) :
  0 ≤ lim → limit_offset b lim 0 l = Some (take (Z.to_nat lim) l).
Proof.
  intros Hlim. unfold limit_offset. destruct b.
  - by rewrite decide_False by lia.
  - by rewrite decide_False by lia.
Qed.

(** ** Retention of play records *)

Lemma maxRecords_default env :
  MAX_PLAY_RECORDS_PER_USER env = None → maxRecords env = Some 100.
Proof. unfold maxRecords. intros ->. vm_compute. done. Qed.

Section per_user.
Context {A K : Type} `{!EqDecision K} (who : A → string) (key : A → K).

(** A key unique together with the user is unique among a user's
    rows. *)
Lemma NoDup_key_of_user (t : list A) userName :
  NoDup ((λ r, (who r, key r)) <$> t) →
  NoDup (key <$> filter (λ r, who r = userName) t).
Proof.
  induction t as [|r t IH]; intros Hpk; [constructor|].
  rewrite fmap_cons in Hpk. apply NoDup_cons in Hpk as [Hr Hpk].
  rewrite filter_cons. case_decide as Hu; [|by apply IH].
  rewrite fmap_cons. apply NoDup_cons. split; [|by apply IH].
  intros (r' & Hk & [Hu' Hr']%list_elem_of_filter)%list_elem_of_fmap.
  apply Hr, list_elem_of_fmap. exists r'. split; [|done]. congruence.
Qed.

(** The rows of [userName] after
    [DELETE ... WHERE username = ? AND key NOT IN (...)]. *)
Lemma delete_not_in_mine (t : list A) userName (keys : list K) :
  filter (λ r, who r = userName)
    (filter (λ r, ¬ (who r = userName ∧ key r ∉ keys)) t)
  = filter (λ r, key r ∈ keys) (filter (λ r, who r = userName) t).
Proof.
  rewrite !list_filter_filter. apply list_filter_iff.
  intros r. split.
  - intros [Hu Hk]. split; [|done].
    destruct (decide (key r ∈ keys)); [done|]. by destruct Hk.
  - intros [Hk Hu]. split; [done|]. by intros [_ ?].
Qed.

Lemma delete_not_in_others (t : list A) userName other (keys : list K) :
  other ≠ userName →
  filter (λ r, who r = other)
    (filter (λ r, ¬ (who r = userName ∧ key r ∉ keys)) t)
  = filter (λ r, who r = other) t.
Proof.
  intros Hne. rewrite list_filter_filter. apply list_filter_iff.
  intros r. split; [by intros [? _]|].
  intros Hu. split; [done|]. intros [? _]. congruence.
Qed.

End per_user.

Lemma play_records_of_keys d userName :
  play_records_pk d → NoDup (pr_key <$> play_records_of d userName).
Proof. apply NoDup_key_of_user. Qed.

(** C2.  With a configured maximum [m] (100 when the variable is unset),
    [cleanupOldPlayRecords] changes nothing for a user with at most
    [m + 10] records; beyond that it leaves exactly [m] of the user's
    records, all taken from the old ones, none older than a record it
    deleted, and it touches no other user's records. *)
Theorem cleanupOldPlayRecords_retention env b st userName m :
  maxRecords env = Some m →
  0 ≤ m →
  play_records_pk (db st) →
  let mine := play_records_of (db st) userName in
  let after := (cleanupOldPlayRecords env b st userName).2 in
  let mine' := play_records_of (db after) userName in
  (MAX_PLAY_RECORDS_PER_USER env = None → m = 100) ∧
  (cleanupOldPlayRecords env b st userName).1 = Returned () ∧
  (count mine ≤ m + 10 → after = st) ∧
  (count mine > m + 10 →
     count mine' = m ∧
     mine' `sublist_of` mine ∧
     (∀ kept gone,
        kept ∈ mine' → gone ∈ mine → gone ∉ mine' →
        pr_save_time gone ≤ pr_save_time kept) ∧
     (∀ other, other ≠ userName →
        play_records_of (db after) other = play_records_of (db st) other)).
Proof.
  intros Hm Hpos Hpk mine after mine'.
  split.
  { intros Hnone. apply maxRecords_default in Hnone. congruence. }
  subst mine' after. unfold cleanupOldPlayRecords, newest_keys. rewrite Hm.
  rewrite limit_offset_first by done. fold mine.
  case_decide as Hcount; simpl.
  { split_and!; [done|done|lia]. }
  split_and!; [done|lia|]. intros _.
  set (top := take (Z.to_nat m) (order_by_desc pr_save_time mine)).
  unfold play_records_of. simpl.
  rewrite (delete_not_in_mine pr_username pr_key).
  fold (play_records_of (db st) userName).
  fold mine.
  pose proof (keep_newest pr_save_time pr_key mine (Z.to_nat m)
                (play_records_of_keys _ userName Hpk)) as Hkeep.
  fold top in Hkeep.
  split_and!.
  - unfold count in *. rewrite Hkeep. unfold top.
    rewrite length_take, order_by_desc_length. lia.
  - apply sublist_filter.
  - intros kept gone Hk Hg Hng. rewrite Hkeep in Hk, Hng.
    by apply (limit_keeps_newest pr_save_time mine (Z.to_nat m)).
  - intros other Hne. by apply (delete_not_in_others pr_username pr_key).
Qed.

Lemma cleanupOldPlayRecords_retention_witness :
  count
    (play_records_of
       (db (cleanupOldPlayRecords tight_env D1 busy_state "alice").2) "alice")
  = 1.
Proof.
  destruct (cleanupOldPlayRecords_retention tight_env D1 busy_state "alice" 1)
    as (_ & _ & _ & H).
  - vm_compute. reflexivity.
  - lia.
  - unfold play_records_pk. apply (bool_decide_unpack _). vm_compute. exact I.
  - apply H. vm_compute. reflexivity.
Defined.

Example cleanup_keeps_the_newest :
  pr_save_time <$>
    play_records_of
      (db (cleanupOldPlayRecords tight_env D1 busy_state "alice").2) "alice"
  = [12].
Proof. vm_compute. reflexivity. Qed.

(** ** Password verification *)

Lemma hashPassword_length password :
  String.length (hashPassword password) = 64%nat.
Proof.
  unfold hashPassword, Sha256.digest.
  generalize (fold_left Sha256.compress
                (Sha256.chunks (length (Sha256.pad (encode password))) 64
                   (Sha256.pad (encode password)))
                Sha256.init).
  intros s. reflexivity.
Qed.

Lemma hashPassword_nonempty password : hashPassword password ≠ "".
Proof.
  intros Heq. pose proof (hashPassword_length password) as Hl.
  rewrite Heq in Hl. discriminate.
Qed.

Lemma eq_env_true s v : eq_env s v = true ↔ v = Some s.
Proof. unfold eq_env. apply bool_decide_eq_true. Qed.

Lemma users_pk_eq d row row' :
  users_pk d → row ∈ users d → row' ∈ users d →
  u_username row = u_username row' → row = row'.
Proof. intros Hpk. by apply NoDup_fmap_eq. Qed.

Lemma head_filter_elem {A} (P : A → Prop) `{!∀ x, Decision (P x)} l x :
  head (filter P l) = Some x → P x ∧ x ∈ l.
Proof.
  intros Hh. apply head_Some_elem_of in Hh.
  by apply list_elem_of_filter in Hh.
Qed.

Lemma head_filter_None {A} (P : A → Prop) `{!∀ x, Decision (P x)} l :
  head (filter P l) = None ↔ ∀ x, x ∈ l → ¬ P x.
Proof.
  rewrite head_None. split.
  - intros Hnil x Hx HP.
    assert (x ∈ filter P l) as Hin by by apply list_elem_of_filter.
    rewrite Hnil in Hin. by inversion Hin.
  - by apply filter_none.
Qed.

Lemma select_user_pk d row :
  users_pk d → row ∈ users d → select_user d (u_username row) = Some row.
Proof.
  intros Hpk Hrow. unfold select_user.
  destruct (head _) as [row'|] eqn:Hh.
  - apply head_filter_elem in Hh as [Hu Hin].
    f_equal. by apply (users_pk_eq d).
  - rewrite head_filter_None in Hh. by destruct (Hh row Hrow).
Qed.

Lemma select_user_exists d userName :
  is_Some (select_user d userName) ↔ user_exists d userName.
Proof.
  unfold user_exists. rewrite list_elem_of_fmap. split.
  - intros [row Hsel]. exists row. unfold select_user in Hsel.
    apply head_filter_elem in Hsel as [Hu Hin]. by split.
  - intros (row & -> & Hin).
    destruct (select_user d (u_username row)) as [row'|] eqn:Hsel; [done|].
    unfold select_user in Hsel. rewrite head_filter_None in Hsel.
    by destruct (Hsel row Hin).
Qed.

Lemma checkUserExistV2_spec st userName :
  checkUserExistV2 st userName = true ↔ user_exists (db st) userName.
Proof.
  unfold checkUserExistV2. rewrite bool_decide_eq_true.
  apply select_user_exists.
Qed.

Lemma checkUserExist_spec env st userName :
  checkUserExist env st userName = true ↔
  USERNAME env = Some userName ∨ user_exists (db st) userName.
Proof.
  unfold checkUserExist.
  destruct (eq_env userName (USERNAME env)) eqn:He.
  - apply eq_env_true in He. split; [by left|done].
  - rewrite bool_decide_eq_true, select_user_exists. split; [by right|].
    intros [He'%eq_env_true|?]; [congruence|done].
Qed.

Lemma select_user_elem d userName row :
  select_user d userName = Some row → u_username row = userName ∧ row ∈ users d.
Proof. unfold select_user. intros Hs. by apply head_filter_elem in Hs. Qed.

(** When the pair is not the configured owner's, [verifyUser] accepts
    exactly the users that have an unbanned row whose hash is the digest
    of the password. *)
Lemma verifyUser_stored env st userName password :
  users_pk (db st) →
  ¬ (USERNAME env = Some userName ∧ PASSWORD env = Some password) →
  verifyUser env st userName password = true ↔
  ∃ row, row ∈ users (db st) ∧ u_username row = userName ∧
         u_banned row = 0 ∧ u_password_hash row = hashPassword password.
Proof.
  intros Hpk Hnot. unfold verifyUser.
  destruct (eq_env userName (USERNAME env) && eq_env password (PASSWORD env))
    eqn:Henv.
  { apply andb_true_iff in Henv as [?%eq_env_true ?%eq_env_true].
    by destruct Hnot. }
  destruct (head _) as [user|] eqn:Hh.
  - apply head_filter_elem in Hh as [[Hu Hb] Hin].
    case_decide as Hempty.
    + split; [done|]. intros (row & Hrow & Hru & _ & Hhash).
      assert (row = user) as -> by (apply (users_pk_eq (db st)); congruence).
      rewrite Hempty in Hhash. by destruct (hashPassword_nonempty password).
    + rewrite bool_decide_eq_true. split.
      * intros Hhash. by exists user.
      * intros (row & Hrow & Hru & _ & Hhash).
        assert (row = user) as -> by (apply (users_pk_eq (db st)); congruence).
        done.
  - rewrite head_filter_None in Hh. split; [done|].
    intros (row & Hrow & Hru & Hb & _). by destruct (Hh row Hrow).
Qed.

Lemma verifyUser_owner env st userName password :
  USERNAME env = Some userName → PASSWORD env = Some password →
  verifyUser env st userName password = true.
Proof.
  intros Hu Hp. unfold verifyUser.
  by rewrite (proj2 (eq_env_true _ _) Hu), (proj2 (eq_env_true _ _) Hp).
Qed.

(** ** The configured owner in [getUserInfoV2] *)

Lemma getUserInfoV2_owner_role b env now st userName :
  USERNAME env = Some userName →
  cache st !! userName = None →
  b = D1 ∨ select_user (db st) userName = None →
  role <$> (getUserInfoV2 b env now st userName).1 = Some RoleOwner.
Proof.
  intros Hu Hc Hb. unfold getUserInfoV2. rewrite Hc.
  apply eq_env_true in Hu.
  destruct (select_user (db st) userName) as [user|] eqn:Hs.
  - destruct Hb as [->|?]; [|done]. simpl. by rewrite Hu.
  - by rewrite Hu.
Qed.

(** C3, as amended.  The configured owner's pair is accepted in every
    state, stored hash or not.  Any other pair is accepted exactly when
    the user has a row that is not banned and whose [password_hash] is the
    lowercase hexadecimal SHA-256 digest of the password.  And
    [getUserInfoV2], when it answers from the table or the environment
    rather than from the cache, gives the configured owner the role
    ['owner']: always under D1, and under Postgres when the owner has no
    row yet. *)
Theorem verifyUser_getUserInfoV2_owner b env now st userName password :
  users_pk (db st) →
  (USERNAME env = Some userName → PASSWORD env = Some password →
     ∀ st', verifyUser env st' userName password = true) ∧
  (¬ (USERNAME env = Some userName ∧ PASSWORD env = Some password) →
     (verifyUser env st userName password = true ↔
      ∃ row, row ∈ users (db st) ∧ u_username row = userName ∧
             u_banned row = 0 ∧
             u_password_hash row = hashPassword password)) ∧
  (USERNAME env = Some userName →
   cache st !! userName = None →
   b = D1 ∨ select_user (db st) userName = None →
   role <$> (getUserInfoV2 b env now st userName).1 = Some RoleOwner).
Proof.
  intros Hpk. split_and!.
  - intros Hu Hp st'. by apply verifyUser_owner.
  - intros Hnot. by apply verifyUser_stored.
  - apply getUserInfoV2_owner_role.
Qed.

Lemma verifyUser_getUserInfoV2_owner_witness :
  verifyUser sample_env banned_state "alice" "secret" = true.
Proof.
  destruct (verifyUser_getUserInfoV2_owner D1 sample_env 0 banned_state
              "alice" "secret") as (_ & Hstored & _).
  - unfold users_pk. apply (bool_decide_unpack _). vm_compute. exact I.
  - apply Hstored.
    + intros [Hu _]. discriminate Hu.
    + exists (sample_user "alice" 1000).
      split_and!; [left|reflexivity|reflexivity|reflexivity].
Defined.

(** C3 as stated fails on a banned user: the digest of the password is
    the stored hash, and [verifyUser] still answers false. *)
Lemma verifyUser_not_iff_hash_matches :
  ¬ (verifyUser sample_env banned_state "mallory" "secret" = true ↔
     getUserPasswordHash banned_state "mallory"
     = Some (hashPassword "secret")).
Proof.
  intros [_ Hback].
  assert (verifyUser sample_env banned_state "mallory" "secret" = false)
    as Hfalse by (vm_compute; reflexivity).
  rewrite Hback in Hfalse; [discriminate|]. vm_compute. reflexivity.
Qed.

(** C9.  A user whose row has the banned flag set (any non-zero value; the
    adapters write 1) is refused by [verifyUser] on every password that
    does not make the pair the configured owner's, the right one included,
    while [verifyUserV2] accepts the right password. *)
Theorem banned_user_verifyUser_vs_verifyUserV2 env st row :
  users_pk (db st) →
  row ∈ users (db st) →
  u_banned row ≠ 0 →
  (∀ password,
     ¬ (USERNAME env = Some (u_username row) ∧ PASSWORD env = Some password) →
     verifyUser env st (u_username row) password = false) ∧
  (∀ password,
     u_password_hash row = hashPassword password →
     verifyUserV2 st (u_username row) password = true).
Proof.
  intros Hpk Hrow Hb. split.
  - intros password Hnot. apply not_true_is_false.
    rewrite verifyUser_stored by done.
    intros (row' & Hrow' & Hu & Hb' & _).
    assert (row' = row) as -> by by apply (users_pk_eq (db st)).
    done.
  - intros password Hhash. unfold verifyUserV2.
    rewrite select_user_pk by done. by apply bool_decide_eq_true.
Qed.

Lemma banned_user_verifyUser_vs_verifyUserV2_witness :
  verifyUser sample_env banned_state "mallory" "secret" = false ∧
  verifyUserV2 banned_state "mallory" "secret" = true.
Proof.
  destruct (banned_user_verifyUser_vs_verifyUserV2 sample_env banned_state
              (new_user_row "mallory" (hashPassword "secret") RoleUser 1
                 None None None 2000)) as [Hv Hv2].
  - unfold users_pk. apply (bool_decide_unpack _). vm_compute. exact I.
  - right. left.
  - simpl. lia.
  - split.
    + apply Hv. intros [Hu _]. discriminate Hu.
    + apply Hv2. reflexivity.
Defined.

(** ** The paginated user list *)

Lemma limit_offset_nonneg {A} b (lim off : Z) (l : list A) :
  0 ≤ lim → 0 ≤ off →
  limit_offset b lim off l = Some (take (Z.to_nat lim) (drop (Z.to_nat off) l)).
Proof.
  intros Hlim Hoff. unfold limit_offset. destruct b.
  - by rewrite decide_False by lia.
  - by rewrite decide_False by lia.
Qed.

Lemma truthy_Some o : o ≠ "" → truthy (Some o) = Some o.
Proof. intros Ho. unfold truthy, str_or_null. by rewrite decide_False. Qed.

Lemma ownerInDatabase_false info :
  ownerInDatabase info = false ↔ info = None ∨ created_at <$> info = Some 0.
Proof.
  destruct info as [i|]; simpl.
  - rewrite bool_decide_eq_false. split.
    + intros Hz. right. f_equal. by destruct (decide (created_at i = 0)).
    + intros [?|[=Hz]]; [done|]. by intros ?.
  - split; [by left|done].
Qed.

(** On a cache miss the lookup fails only for a user that has no row and
    is not the configured owner. *)
Lemma getUserInfoV2_miss b env now st userName :
  cache st !! userName = None →
  (getUserInfoV2 b env now st userName).1 = None ↔
  select_user (db st) userName = None ∧ USERNAME env ≠ Some userName.
Proof.
  intros Hc. unfold getUserInfoV2. rewrite Hc.
  destruct (select_user (db st) userName) as [user|]; simpl.
  - split; [done|]. by intros [? _].
  - destruct (eq_env userName (USERNAME env)) eqn:He; simpl.
    + apply eq_env_true in He. split; [done|]. by intros [_ ?].
    + split; [|done]. intros _. split; [done|].
      intros He'%eq_env_true. congruence.
Qed.

Lemma getUserInfoV2_created_at b env now st userName :
  cache st !! userName = None →
  now ≠ 0 →
  created_at <$> (getUserInfoV2 b env now st userName).1 = Some 0 ↔
  ∃ row, select_user (db st) userName = Some row ∧ u_created_at row = 0.
Proof.
  intros Hc Hnow. unfold getUserInfoV2. rewrite Hc.
  destruct (select_user (db st) userName) as [user|]; simpl.
  - assert (∀ i, created_at (with_role i RoleOwner) = created_at i) as Hr
      by done.
    split.
    + intros Hz. exists user. split; [done|].
      destruct b; [destruct (eq_env _ _)|]; simpl in Hz;
        rewrite ?Hr in Hz; by inversion Hz.
    + intros (row & [= <-] & Hz).
      destruct b; [destruct (eq_env _ _)|]; simpl; rewrite ?Hr;
        by rewrite Hz.
  - destruct (eq_env userName (USERNAME env)); simpl.
    + split; [intros [=]; done|]. by intros (? & ? & _).
    + split; [done|]. by intros (? & ? & _).
Qed.

Lemma getUserListV2_page b env now st offset limit o :
  o ≠ "" → 0 ≤ offset → 0 < limit →
  let info := (getUserInfoV2 b env now st o).1 in
  let st1 := (getUserInfoV2 b env now st o).2 in
  ul_users (getUserListV2 b env now st offset limit (Some o)).1 =
  (if decide (offset = 0) then [owner_entry o info] else []) ++
  (row_entry <$>
     filter (λ r, u_username r ≠ o)
       (page_window (order_by_desc u_created_at (users (db st1)))
          offset limit (negb (ownerInDatabase info)))).
Proof.
  intros Ho Hoff Hlim info st1. subst info st1.
  unfold getUserListV2. rewrite truthy_Some by done.
  destruct (getUserInfoV2 b env now st o) as [info st1]. simpl.
  unfold page_window.
  assert (∀ l : list UserRow,
            filter (λ r, Some o ≠ Some (u_username r)) l
            = filter (λ r, u_username r ≠ o) l) as Hf.
  { intros l. apply list_filter_iff. intros r. split; congruence. }
  destruct (ownerInDatabase info); simpl.
  - rewrite limit_offset_nonneg by lia. by rewrite Hf.
  - case_decide as Hz.
    + subst offset. rewrite limit_offset_nonneg by lia.
      by rewrite Hf.
    + rewrite limit_offset_nonneg by lia. by rewrite Hf.
Qed.

Lemma page_window_length sorted offset limit adjusted :
  0 < limit →
  count (page_window sorted offset limit adjusted)
  ≤ (if adjusted && bool_decide (offset = 0) then limit - 1 else limit).
Proof.
  intros Hlim. unfold page_window, count.
  destruct adjusted; simpl; [case_decide|].
  - rewrite bool_decide_eq_true_2 by done. rewrite length_take. lia.
  - rewrite bool_decide_eq_false_2 by done. rewrite length_take. lia.
  - rewrite length_take. lia.
Qed.




Example first_page_overflow :
  le_username <$>
    ul_users (getUserListV2 D1 sample_env 99 crowded_state 0 2 (Some "root")).1
  = ["root"; "bob"; "alice"].
Proof. vm_compute. reflexivity. Qed.

(** ** Deleting a user *)

Section cascade.
Context {A : Type} (who : A → string).

Lemma cascade_self userName (t : list A) :
  filter (λ r, who r = userName) (filter (λ r, who r ≠ userName) t) = [].
Proof.
  apply filter_none. by intros r [? _]%list_elem_of_filter.
Qed.

Lemma cascade_other userName other (t : list A) :
  other ≠ userName →
  filter (λ r, who r = other) (filter (λ r, who r ≠ userName) t)
  = filter (λ r, who r = other) t.
Proof.
  intros Hne. rewrite list_filter_filter. apply list_filter_iff.
  intros r. split; [by intros [? _]|]. intros ->. done.
Qed.

Lemma foreign_key_no_rows d userName (t : list A) :
  Forall (λ r, user_exists d (who r)) t →
  ¬ user_exists d userName →
  filter (λ r, who r = userName) t = [].
Proof.
  intros Hfk Hu. apply filter_none. intros r Hr <-.
  rewrite Forall_forall in Hfk. by apply Hu, Hfk.
Qed.

End cascade.

Lemma delete_from_users_owned d userName :
  foreign_keys d → owned (delete_from_users d userName) userName = nothing_owned.
Proof.
  intros (Hpr & Hfav & Hsh & Hsk & Hdm & Hnt & _).
  unfold delete_from_users, owned, nothing_owned.
  case_decide as Hu; simpl.
  - by rewrite !cascade_self.
  - by rewrite !(foreign_key_no_rows _ d userName).
Qed.

Lemma delete_from_users_others d userName other :
  other ≠ userName →
  owned (delete_from_users d userName) other = owned d other.
Proof.
  intros Hne. unfold delete_from_users, owned.
  case_decide as Hu; simpl; [|done].
  by rewrite !cascade_other.
Qed.

Lemma delete_from_users_gone d userName :
  ¬ user_exists (delete_from_users d userName) userName.
Proof.
  unfold delete_from_users. case_decide as Hu; [|done].
  unfold user_exists. simpl.
  intros (r & Hr & [? _]%list_elem_of_filter)%list_elem_of_fmap. done.
Qed.

(** C5.  In a database that satisfies its foreign keys, [deleteUser] and
    [deleteUserV2] remove the user's row and with it every row the user
    owns in play records, favorites, search history, skip configs, danmaku
    filter configs and notifications, and leave the rows of every other
    user as they were. *)
Theorem deleteUser_cascades st userName :
  foreign_keys (db st) →
  let after := (deleteUser st userName).2 in
  let afterV2 := (deleteUserV2 st userName).2 in
  db afterV2 = db after ∧
  ¬ user_exists (db after) userName ∧
  owned (db after) userName = nothing_owned ∧
  (∀ other, other ≠ userName →
     owned (db after) other = owned (db st) other ∧
     (user_exists (db after) other ↔ user_exists (db st) other)).
Proof.
  intros Hfk after afterV2. split_and!.
  - done.
  - apply delete_from_users_gone.
  - by apply delete_from_users_owned.
  - intros other Hne. split; [by apply delete_from_users_others|].
    unfold after, deleteUser, delete_from_users. simpl.
    case_decide as Hu; [|done]. unfold user_exists. simpl.
    rewrite !list_elem_of_fmap. split.
    + intros (r & -> & [_ Hr]%list_elem_of_filter). by exists r.
    + intros (r & -> & Hr). exists r. split; [done|].
      apply list_elem_of_filter. split; [|done]. by intros ?.
Qed.

Lemma deleteUser_cascades_witness :
  owned (db (deleteUser shared_state "alice").2) "alice" = nothing_owned ∧
  owned (db (deleteUser shared_state "alice").2) "bob"
  = owned (db shared_state) "bob".
Proof.
  destruct (deleteUser_cascades shared_state "alice") as (_ & _ & Hmine & Hrest).
  - unfold foreign_keys. split_and!; apply (bool_decide_unpack _);
      vm_compute; exact I.
  - split; [exact Hmine|]. apply Hrest. discriminate.
Defined.

(** ** Search history *)

Lemma upsert_search_ok d userName keyword ts :
  search_history_ok d →
  search_history_ok (upsert_search d userName keyword ts).2.
Proof.
  intros (Hid & Hseq & Huk). unfold upsert_search, search_history_ok.
  case_decide as Hu; simpl.
  - unfold upsert. case_decide as Hex.
    + rewrite <- !list_fmap_compose. split_and!.
      * erewrite list_fmap_ext; [exact Hid|].
        intros i r _. simpl. by case_decide.
      * apply Forall_fmap. eapply Forall_impl; [exact Hseq|].
        intros r Hr. unfold compose. case_decide; simpl in *; lia.
      * erewrite list_fmap_ext; [exact Huk|].
        intros i r _. simpl. by case_decide.
    + rewrite !fmap_app. simpl. split_and!.
      * apply NoDup_app. split_and!; [done| |apply NoDup_singleton].
        intros id Hin ->%list_elem_of_singleton.
        apply list_elem_of_fmap in Hin as (r & Heq & Hr).
        rewrite Forall_forall in Hseq. specialize (Hseq r Hr). lia.
      * apply Forall_app. split.
        -- eapply Forall_impl; [exact Hseq|]. intros r Hr. simpl in *. lia.
        -- apply Forall_singleton. simpl. lia.
      * apply NoDup_app. split_and!; [done| |apply NoDup_singleton].
        intros uk Hin ->%list_elem_of_singleton.
        apply list_elem_of_fmap in Hin as (r & Heq & Hr).
        apply Hex, Exists_exists. exists r. split; [done|].
        unfold same_search. simpl. by inversion Heq.
  - split_and!; [done| |done].
    eapply Forall_impl; [exact Hseq|]. intros r Hr. simpl in *. lia.
Qed.

Lemma prune_search_ok d userName :
  search_history_ok d → search_history_ok (prune_search d userName).
Proof.
  intros (Hid & Hseq & Huk). unfold prune_search, search_history_ok. simpl.
  split_and!.
  - eapply sublist_NoDup; [exact Hid|]. apply fmap_sublist, sublist_filter.
  - apply Forall_forall. intros r [_ Hr]%list_elem_of_filter.
    rewrite Forall_forall in Hseq. by apply Hseq.
  - eapply sublist_NoDup; [exact Huk|]. apply fmap_sublist, sublist_filter.
Qed.

Lemma addSearchHistory_ok st userName keyword now :
  search_history_ok (db st) →
  search_history_ok (db (addSearchHistory st userName keyword now).2).
Proof.
  intros Hok. unfold addSearchHistory.
  pose proof (upsert_search_ok (db st) userName keyword now Hok) as Hup.
  destruct (upsert_search (db st) userName keyword now) as [[d|] d'] eqn:Heq;
    simpl in *; [|done].
  assert (d = d') as ->.
  { unfold upsert_search in Heq. case_decide; by inversion Heq. }
  case_decide; simpl; [by apply prune_search_ok|done].
Qed.

Lemma search_history_of_upsert_other d userName keyword ts other :
  other ≠ userName →
  search_history_of (upsert_search d userName keyword ts).2 other
  = search_history_of d other.
Proof.
  intros Hne. unfold upsert_search, search_history_of.
  case_decide as Hu; simpl; [|done].
  apply (upsert_other same_search).
  - simpl. congruence.
  - intros r [Hs _]. simpl in *. split; congruence.
Qed.

Lemma search_history_of_prune_other d userName other :
  other ≠ userName →
  search_history_of (prune_search d userName) other = search_history_of d other.
Proof.
  intros Hne. unfold prune_search, search_history_of. simpl.
  by apply (delete_not_in_others sh_username sh_id).
Qed.

Lemma search_history_of_prune_self d userName :
  search_history_ok d →
  search_history_of (prune_search d userName) userName
  ≡ₚ take 20 (order_by_desc sh_timestamp (search_history_of d userName)).
Proof.
  intros (Hid & _ & _). unfold prune_search, search_history_of. simpl.
  rewrite (delete_not_in_mine sh_username sh_id).
  apply (keep_newest sh_timestamp sh_id).
  eapply sublist_NoDup; [exact Hid|]. apply fmap_sublist, sublist_filter.
Qed.

Lemma upsert_search_db d userName keyword ts d1 d2 :
  upsert_search d userName keyword ts = (Some d1, d2) → d1 = d2.
Proof. unfold upsert_search. case_decide; by intros [= <- <-]. Qed.

Lemma addSearchHistory_other st userName keyword now other :
  other ≠ userName →
  search_history_of (db (addSearchHistory st userName keyword now).2) other
  = search_history_of (db st) other.
Proof.
  intros Hne. unfold addSearchHistory.
  pose proof (search_history_of_upsert_other (db st) userName keyword now
                other Hne) as Hup.
  destruct (upsert_search (db st) userName keyword now) as [[d|] d'] eqn:Heq;
    simpl in *; [|done].
  apply upsert_search_db in Heq as ->.
  case_decide; simpl; [|done].
  by rewrite search_history_of_prune_other.
Qed.

Lemma addSearchHistory_bounded st userName keyword now :
  search_history_ok (db st) →
  search_history_bounded (db st) →
  search_history_bounded (db (addSearchHistory st userName keyword now).2).
Proof.
  intros Hok Hb other.
  destruct (decide (other = userName)) as [->|Hne];
    [|by rewrite addSearchHistory_other].
  unfold addSearchHistory.
  pose proof (upsert_search_ok (db st) userName keyword now Hok) as Hup.
  destruct (upsert_search (db st) userName keyword now) as [[d|] d'] eqn:Heq;
    simpl in *.
  - apply upsert_search_db in Heq as ->.
    unfold count. case_decide as Hc; simpl; [|lia].
    rewrite search_history_of_prune_self by done.
    rewrite length_take. lia.
  - unfold upsert_search in Heq. case_decide; [done|].
    inversion Heq; subst. apply Hb.
Qed.

Lemma addSearchHistory_all_ok st calls :
  search_history_ok (db st) → search_history_bounded (db st) →
  search_history_ok (db (addSearchHistory_all st calls)) ∧
  search_history_bounded (db (addSearchHistory_all st calls)).
Proof.
  revert st. induction calls as [|[[u k] now] calls IH]; intros st Hok Hb;
    [done|].
  apply IH; [by apply addSearchHistory_ok|by apply addSearchHistory_bounded].
Qed.

Lemma search_history_keywords d userName :
  search_history_ok d →
  NoDup (sh_keyword <$> search_history_of d userName).
Proof. intros (_ & _ & Huk). by apply NoDup_key_of_user. Qed.

Lemma getSearchHistory_sorted st userName :
  search_history_bounded (db st) →
  ∃ rows,
    rows ≡ₚ search_history_of (db st) userName ∧
    StronglySorted (desc_by sh_timestamp) rows ∧
    getSearchHistory st userName = sh_keyword <$> rows.
Proof.
  intros Hb.
  exists (order_by_desc sh_timestamp (search_history_of (db st) userName)).
  split_and!.
  - apply order_by_desc_perm.
  - apply order_by_desc_sorted.
  - unfold getSearchHistory. rewrite take_ge; [done|].
    rewrite order_by_desc_length. apply Hb.
Qed.

Lemma addSearchHistory_existing st userName keyword now :
  search_history_bounded (db st) →
  user_exists (db st) userName →
  keyword ∈ sh_keyword <$> search_history_of (db st) userName →
  let st' := (addSearchHistory st userName keyword now).2 in
  sh_keyword <$> search_history_of (db st') userName
  = sh_keyword <$> search_history_of (db st) userName ∧
  (∀ r, r ∈ search_history_of (db st') userName →
        sh_keyword r = keyword → sh_timestamp r = now).
Proof.
  intros Hb Hu Hk st'. subst st'.
  set (new := {| sh_id := search_history_id_seq (db st) + 1;
                 sh_username := userName; sh_keyword := keyword;
                 sh_timestamp := now |}).
  set (f := λ r, if decide (same_search r new) then search_update r new else r).
  assert (Exists (λ r, same_search r new) (search_history (db st))) as Hex.
  { apply list_elem_of_fmap in Hk as (r & -> & [Hru Hr]%list_elem_of_filter).
    apply Exists_exists. by exists r. }
  assert (search_history_of
            (db (addSearchHistory st userName keyword now).2) userName
          = f <$> search_history_of (db st) userName) as Hrows.
  { unfold addSearchHistory, upsert_search.
    rewrite decide_True by done. fold new.
    assert (search_history_of
              (set_search_history (db st)
                 (upsert same_search search_update new (search_history (db st)))
                 (search_history_id_seq (db st) + 1)) userName
            = f <$> search_history_of (db st) userName) as Hup.
    { unfold search_history_of, upsert. simpl. rewrite decide_True by done.
      apply filter_fmap_stable. intros r. unfold f.
      by case_decide. }
    rewrite decide_False.
    - exact Hup.
    - rewrite Hup. unfold count. rewrite length_fmap.
      specialize (Hb userName). lia. }
  rewrite Hrows. split.
  - rewrite <- list_fmap_compose. apply list_fmap_ext.
    intros i r _. unfold f. simpl. by case_decide.
  - intros r' (r & -> & [Hru Hr]%list_elem_of_filter)%list_elem_of_fmap Hkw.
    unfold f in *. case_decide as Hs; [done|].
    destruct Hs. by split.
Qed.



Example search_history_after_three_calls :
  getSearchHistory
    (addSearchHistory_all alice_state
       [("alice", "dune", 1); ("alice", "matrix", 2); ("alice", "dune", 3)])
    "alice"
  = ["dune"; "matrix"].
Proof. vm_compute. reflexivity. Qed.

(** ** The "migrated" flags *)

Lemma head_fmap_filter {A} (P : A → Prop) `{!∀ x, Decision (P x)}
    (f : A → A) (l : list A) :
  (∀ x, P (f x) ↔ P x) →
  head (filter P (f <$> l)) = f <$> head (filter P l).
Proof.
  intros Hf. rewrite filter_fmap_stable by done.
  by destruct (filter P l).
Qed.

Lemma select_update_users assign userName t who :
  (∀ r, u_username (assign r) = u_username r) →
  head (filter (λ r, u_username r = who) (update_users assign userName t))
  = (λ r, if decide (u_username r = userName) then assign r else r) <$>
      head (filter (λ r, u_username r = who) t).
Proof.
  intros Hname. unfold update_users. apply head_fmap_filter.
  intros r. case_decide; [by rewrite Hname|done].
Qed.

Lemma users_change_flags_kept t t' : users_change t t' → flags_kept t t'.
Proof.
  intros Hch. destruct Hch as [t|t assign u Hname Hflags|t row Hfresh Hrow|t u];
    intros who row' Hsel.
  - by rewrite Hsel.
  - rewrite select_update_users in Hsel by done.
    destruct (head (filter _ t)) as [row|]; [|done].
    simpl in Hsel. injection Hsel as <-.
    intros f Hf. case_decide; [by apply Hflags|done].
  - rewrite filter_app in Hsel.
    destruct (filter (λ r, u_username r = who) t) as [|old rest] eqn:Hf.
    + simpl in *. rewrite filter_cons, filter_nil in Hsel.
      case_decide; [|done]. by injection Hsel as <-.
    + simpl in *. by injection Hsel as <-.
  - rewrite list_filter_filter in Hsel.
    destruct (decide (who = u)) as [->|Hne].
    + rewrite filter_none in Hsel; [done|]. by intros r _ [? ?].
    + erewrite list_filter_iff in Hsel.
      * rewrite Hsel. done.
      * intros r. simpl. split; [by intros [? _]|]. intros ->. done.
Qed.

Lemma assign_updates_name u r : u_username (assign_updates u r) = u_username r.
Proof.
  unfold assign_updates, opt_assign.
  by destruct (upd_enabledApis u), (upd_oidcSub u), (upd_tags u),
    (upd_banned u), (upd_role u).
Qed.

Lemma assign_updates_flags u r f :
  flag_col f (assign_updates u r) = flag_col f r.
Proof.
  unfold assign_updates, opt_assign.
  by destruct f, (upd_enabledApis u), (upd_oidcSub u), (upd_tags u),
    (upd_banned u), (upd_role u).
Qed.

Lemma insert_user_change d row d' :
  insert_user d row = Some d' →
  (∀ f, flag_col f row = 1) →
  users_change (users d) (users d').
Proof.
  unfold insert_user. intros Hins Hflags.
  case_decide as Hu; [done|]. case_decide; [|done].
  injection Hins as <-. simpl. by apply users_inserted.
Qed.

Lemma new_user_row_flags u h r bn t s a c f :
  flag_col f (new_user_row u h r bn t s a c) = 1.
Proof. by destruct f. Qed.

Lemma owner_row_flags u now f : flag_col f (owner_row u now) = 1.
Proof. by destruct f. Qed.

Lemma getUserInfoV2_users_change b env now st userName :
  users_change (users (db st))
    (users (db (getUserInfoV2 b env now st userName).2)).
Proof.
  unfold getUserInfoV2.
  destruct (cache st !! userName); [apply users_same|].
  destruct (select_user (db st) userName); [apply users_same|].
  destruct (eq_env userName (USERNAME env)); [|apply users_same].
  destruct (insert_user (db st) (owner_row userName now)) as [d|] eqn:Hins;
    [|apply users_same].
  simpl. eapply insert_user_change; [done|]. apply owner_row_flags.
Qed.

Lemma delete_from_users_change d userName :
  users_change (users d) (users (delete_from_users d userName)).
Proof.
  unfold delete_from_users. case_decide; [apply users_deleted|apply users_same].
Qed.

(** Every call changes [users] in one of the four ways. *)
Lemma exec_users_change b env op st :
  users_change (users (db st)) (users (db (exec b env op st))).
Proof.
  destruct op; simpl.
  - rewrite users_setPlayRecord. apply users_same.
  - apply users_same.
  - unfold cleanupOldPlayRecords.
    destruct (maxRecords env); [|apply users_same].
    case_decide; [apply users_same|].
    destruct (newest_keys _ _ _ _); apply users_same.
  - unfold migratePlayRecords. destruct b; simpl;
      (apply users_updated; [done|by intros r []]).
  - unfold migrateFavorites. destruct b; simpl;
      (apply users_updated; [done|by intros r []]).
  - unfold migrateSkipConfigs. destruct b; simpl;
      (apply users_updated; [done|by intros r []]).
  - apply users_updated; [done|by intros r []].
  - apply delete_from_users_change.
  - apply getUserInfoV2_users_change.
  - unfold createUserV2.
    destruct (insert_user _ _) as [d|] eqn:Hins; [|apply users_same].
    destruct b; simpl;
      (eapply insert_user_change; [done|apply new_user_row_flags]).
  - unfold getUserListV2.
    destruct (truthy ownerUsername) as [o|].
    + pose proof (getUserInfoV2_users_change b env now st o) as Hch.
      destruct (getUserInfoV2 b env now st o) as [info st1]. simpl in Hch.
      destruct (actual_window _ _ _ _) as [off lim].
      by destruct (limit_offset _ _ _ _).
    + destruct (actual_window _ _ _ _) as [off lim].
      destruct (limit_offset _ _ _ _); apply users_same.
  - unfold updateUserInfoV2.
    destruct (no_updates updates); [apply users_same|].
    case_decide; [apply users_same|]. simpl.
    apply users_updated;
      [apply assign_updates_name|].
    intros r f. by rewrite assign_updates_flags.
  - unfold changePasswordV2. destruct b; simpl;
      (apply users_updated; [done|by intros r []]).
  - apply delete_from_users_change.
  - apply users_updated; [done|by intros r []].
  - unfold createUserWithHashedPassword.
    destruct (insert_user _ _) as [d|] eqn:Hins; [|apply users_same].
    simpl. eapply insert_user_change; [done|apply new_user_row_flags].
  - apply users_updated; [done|by intros r []].
  - apply users_updated; [done|by intros r []].
  - apply users_updated; [done|by intros r []].
  - unfold addSearchHistory.
    destruct (upsert_search _ _ _ _) as [[d|] d'] eqn:Hup.
    + assert (users d = users (db st)) as Hsame.
      { unfold upsert_search in Hup. case_decide; [|done].
        by injection Hup as <- <-. }
      case_decide; simpl; rewrite Hsame; apply users_same.
    + assert (users d' = users (db st)) as Hsame.
      { unfold upsert_search in Hup. case_decide; [done|].
        by injection Hup as <-. }
      simpl. rewrite Hsame. apply users_same.
  - apply users_same.
  - apply users_same.
  - apply users_same.
Qed.

Lemma exec_keeps_raised b env op st userName f :
  stored_flag (flag_col f) st userName = Some 1 ∨
    stored_flag (flag_col f) st userName = None →
  stored_flag (flag_col f) (exec b env op st) userName = Some 1 ∨
    stored_flag (flag_col f) (exec b env op st) userName = None.
Proof.
  unfold stored_flag, select_user. intros Hbefore.
  pose proof (users_change_flags_kept _ _ (exec_users_change b env op st)
                userName) as Hkept.
  destruct (head (filter _ (users (db (exec b env op st))))) as [row'|];
    [|by right].
  left. simpl. f_equal. specialize (Hkept row' eq_refl).
  destruct (head (filter _ (users (db st)))) as [row|]; [|done].
  apply Hkept. destruct Hbefore as [[= ?]|[=]]. done.
Qed.

Lemma run_keeps_raised b env ops st userName f :
  stored_flag (flag_col f) st userName = Some 1 ∨
    stored_flag (flag_col f) st userName = None →
  stored_flag (flag_col f) (run b env ops st) userName = Some 1 ∨
    stored_flag (flag_col f) (run b env ops st) userName = None.
Proof.
  revert st. induction ops as [|op ops IH]; intros st Hst; [done|].
  simpl. by apply IH, exec_keeps_raised.
Qed.

Lemma migrate_stored_flag f g b st userName who :
  stored_flag (flag_col g) (migrate f b st userName) who =
  if decide (who = userName ∧ g = f)
  then (λ _, 1) <$> select_user (db st) userName
  else stored_flag (flag_col g) st who.
Proof.
  assert (∀ assign,
            (∀ r, u_username (assign r) = u_username r) →
            stored_flag (flag_col g)
              (cache_delete_d1 b (update_user st assign userName) userName) who
            = (λ r, flag_col g
                      (if decide (u_username r = userName) then assign r
                       else r)) <$> select_user (db st) who) as Hgen.
  { intros assign Hname. unfold stored_flag, select_user.
    replace (users (db (cache_delete_d1 b (update_user st assign userName)
                          userName)))
      with (update_users assign userName (users (db st)))
      by by destruct b.
    rewrite select_update_users by done.
    by rewrite <- option_fmap_compose. }
  assert (∀ (h : UserRow → Z) (o : option UserRow),
            (∀ r, o = Some r → h r = flag_col g r) →
            h <$> o = flag_col g <$> o) as Hext.
  { intros h [r|] Hh; [|done]. simpl. f_equal. by apply Hh. }
  destruct f; simpl; unfold migratePlayRecords, migrateFavorites,
    migrateSkipConfigs; rewrite Hgen by done; unfold stored_flag;
    (case_decide as Hcase;
     [destruct Hcase as [-> ->];
      destruct (select_user (db st) userName) as [r|] eqn:Hsel; [|done];
      apply select_user_elem in Hsel as [Hr _]; simpl;
      by rewrite decide_True
     |apply Hext; intros r Hsel;
      apply select_user_elem in Hsel as [Hr _];
      case_decide as Hu; [|done];
      destruct g; try done; destruct Hcase; by subst]).
Qed.

(** C7.  No call lowers a raised flag: after any call, every user still
    stored has each flag raised that was raised before, and a user that is
    new has all three raised; so along any run of calls a flag that is 1
    stays 1 for as long as the user is stored, also across a deletion and
    a new registration.  [migratePlayRecords], [migrateFavorites] and
    [migrateSkipConfigs] raise their own flag of the named user, if
    stored, and leave every other flag of every user as it was. *)
Theorem migrated_flags_monotone b env :
  (∀ op st, flags_kept (users (db st)) (users (db (exec b env op st)))) ∧
  (∀ ops st userName f,
     stored_flag (flag_col f) st userName = Some 1 →
     stored_flag (flag_col f) (run b env ops st) userName = Some 1 ∨
     stored_flag (flag_col f) (run b env ops st) userName = None) ∧
  (∀ f g st userName who,
     stored_flag (flag_col g) (migrate f b st userName) who =
     if decide (who = userName ∧ g = f)
     then (λ _, 1) <$> select_user (db st) userName
     else stored_flag (flag_col g) st who).
Proof.
  split_and!.
  - intros op st. apply users_change_flags_kept, exec_users_change.
  - intros ops st userName f Hst. apply run_keeps_raised. by left.
  - intros f g st userName who. apply migrate_stored_flag.
Qed.

Lemma migrated_flags_monotone_witness :
  let ops :=
    [MigratePlayRecords "alice";
     UpdateUserInfoV2 "alice"
       {| upd_role := Some RoleAdmin; upd_banned := Some true;
          upd_tags := None; upd_oidcSub := None; upd_enabledApis := None |};
     ChangePasswordV2 "alice" "hunter2"] in
  stored_flag u_playrecord_migrated
    (run Postgres sample_env ops legacy_state) "alice" = Some 1 ∨
  stored_flag u_playrecord_migrated
    (run Postgres sample_env ops legacy_state) "alice" = None.
Proof.
  exact (proj1 (proj2 (migrated_flags_monotone Postgres sample_env))
           [UpdateUserInfoV2 "alice"
              {| upd_role := Some RoleAdmin; upd_banned := Some true;
                 upd_tags := None; upd_oidcSub := None;
                 upd_enabledApis := None |};
            ChangePasswordV2 "alice" "hunter2"]
           (migratePlayRecords Postgres legacy_state "alice")
           "alice" PlayRecordFlag eq_refl).
Defined.

Example legacy_flags_before_and_after :
  stored_flag u_playrecord_migrated legacy_state "alice" = Some 0 ∧
  stored_flag u_playrecord_migrated
    (migratePlayRecords D1 legacy_state "alice") "alice" = Some 1 ∧
  stored_flag u_favorite_migrated
    (migratePlayRecords D1 legacy_state "alice") "alice" = Some 0.
Proof. vm_compute. done. Qed.

(** ** Admin configuration *)

Lemma admin_config_at_most_one d :
  admin_config_ok d → (length (admin_config d) ≤ 1)%nat.
Proof.
  intros [Hpk Hone]. apply (at_most_one_under_key ac_id 1); [done|].
  by apply Forall_forall.
Qed.

Lemma write_admin_config_rows st text now :
  admin_config_ok (db st) →
  admin_config (db (write_admin_config st text now))
  = [{| ac_id := 1; ac_config := text; ac_updated_at := now |}].
Proof.
  intros Hok. pose proof (admin_config_at_most_one _ Hok) as Hlen.
  destruct Hok as [_ Hone]. unfold write_admin_config, upsert. simpl.
  destruct (admin_config (db st)) as [|r [|r' t]]; simpl in *; [| |lia].
  - done.
  - apply Forall_cons in Hone as [Hr _].
    assert (same_admin_config r
              {| ac_id := 1; ac_config := text; ac_updated_at := now |})
      as Hs by done.
    rewrite decide_True by by left.
    rewrite decide_True by done.
    unfold admin_config_update. by rewrite Hr.
Qed.

Section AdminConfigRoundTrip.
Context {AdminConfig : Type}.
Variable JSON_stringify : AdminConfig → string.
Variable JSON_parse : string → option AdminConfig.

(** C8.  Under the constraints of [admin_config] (primary key, and
    [id = 1]), [setAdminConfig] leaves the table with the one row of id
    1 that holds the JSON text of the configuration, whether a row was
    there before or not, and [getAdminConfig] then returns what
    [JSON.parse] makes of that text: the configuration itself whenever
    it survives the JSON round trip. *)
Theorem setAdminConfig_getAdminConfig st config now :
  admin_config_ok (db st) →
  let st' := (setAdminConfig JSON_stringify st config now).2 in
  admin_config (db st')
  = [{| ac_id := 1; ac_config := JSON_stringify config;
        ac_updated_at := now |}] ∧
  admin_config_ok (db st') ∧
  getAdminConfig JSON_parse st' = JSON_parse (JSON_stringify config) ∧
  (JSON_parse (JSON_stringify config) = Some config →
   getAdminConfig JSON_parse st' = Some config).
Proof.
  intros Hok st'.
  assert (admin_config (db st')
          = [{| ac_id := 1; ac_config := JSON_stringify config;
                ac_updated_at := now |}]) as Hrows
    by by apply write_admin_config_rows.
  assert (getAdminConfig JSON_parse st' = JSON_parse (JSON_stringify config))
    as Hget.
  { unfold getAdminConfig. rewrite Hrows. done. }
  split_and!; [done| |done|by intros <-].
  unfold admin_config_ok. rewrite Hrows. split.
  - apply NoDup_singleton.
  - by apply Forall_singleton.
Qed.

End AdminConfigRoundTrip.

Lemma setAdminConfig_getAdminConfig_witness :
  getAdminConfig name_parse
    (setAdminConfig name_stringify
       (setAdminConfig name_stringify empty_state "MoonTV" 1).2
       "MoonTV Plus" 2).2
  = Some "MoonTV Plus".
Proof.
  destruct (setAdminConfig_getAdminConfig name_stringify name_parse
              (setAdminConfig name_stringify empty_state "MoonTV" 1).2
              "MoonTV Plus" 2) as (_ & _ & _ & Hround).
  - unfold admin_config_ok. split; apply (bool_decide_unpack _);
      vm_compute; exact I.
  - apply Hround. vm_compute. reflexivity.
Defined.

(** ** The constraints hold in every reachable state

    The theorems above assume constraints that the database enforces.
    They are not extra assumptions about the callers: the empty database
    satisfies them and every call preserves them. *)

Lemma update_users_names assign userName t :
  (∀ r, u_username (assign r) = u_username r) →
  u_username <$> update_users assign userName t = u_username <$> t.
Proof.
  intros Hname. unfold update_users. rewrite <- list_fmap_compose.
  apply list_fmap_ext. intros i r _. simpl. case_decide; [apply Hname|done].
Qed.

Lemma foreign_keys_set_users d t :
  (∀ userName, user_exists d userName → userName ∈ u_username <$> t) →
  foreign_keys d → foreign_keys (set_users d t).
Proof.
  intros Hsub (H1 & H2 & H3 & H4 & H5 & H6 & H7 & H8).
  unfold foreign_keys, user_exists in *. simpl.
  split_and!; (eapply Forall_impl; [eassumption|]); intros r Hr; by apply Hsub.
Qed.

Lemma schema_ok_same_names d t :
  u_username <$> t = u_username <$> users d →
  schema_ok d → schema_ok (set_users d t).
Proof.
  intros Hnames (Hu & Hpr & Hsh & Hac & Hfk). unfold schema_ok. split_and!.
  - unfold users_pk. simpl. by rewrite Hnames.
  - done.
  - done.
  - done.
  - apply foreign_keys_set_users; [|done].
    intros userName. unfold user_exists. by rewrite Hnames.
Qed.

Lemma schema_ok_update_user st assign userName :
  (∀ r, u_username (assign r) = u_username r) →
  schema_ok (db st) → schema_ok (db (update_user st assign userName)).
Proof.
  intros Hname Hok. unfold update_user. simpl.
  apply schema_ok_same_names; [|done]. by apply update_users_names.
Qed.

Lemma schema_ok_insert_user d row d' :
  insert_user d row = Some d' → schema_ok d → schema_ok d'.
Proof.
  unfold insert_user. case_decide as Hu; [done|]. case_decide; [|done].
  intros [= <-] (Hpk & Hpr & Hsh & Hac & Hfk). unfold schema_ok. split_and!.
  - unfold users_pk in *. simpl. rewrite fmap_app. apply NoDup_app.
    split_and!; [done| |apply NoDup_singleton].
    intros name Hin ->%list_elem_of_singleton. by apply Hu.
  - done.
  - done.
  - done.
  - apply foreign_keys_set_users; [|done].
    intros userName Hex. rewrite fmap_app. apply elem_of_app. by left.
Qed.

Lemma user_exists_after_delete d userName other :
  user_exists d other → other ≠ userName →
  other ∈ u_username <$> filter (λ r, u_username r ≠ userName) (users d).
Proof.
  unfold user_exists. rewrite !list_elem_of_fmap.
  intros (r & -> & Hr) Hne. exists r. split; [done|].
  by apply list_elem_of_filter.
Qed.

Lemma Forall_filter_weaken {A} (P Q Q' : A → Prop) `{!∀ x, Decision (P x)}
    (t : list A) :
  (∀ r, P r → Q r → Q' r) → Forall Q t → Forall Q' (filter P t).
Proof.
  intros Himp Hall. apply Forall_forall.
  intros r [HP Hr]%list_elem_of_filter.
  rewrite Forall_forall in Hall. by apply Himp, Hall.
Qed.

Lemma schema_ok_delete_from_users d userName :
  schema_ok d → schema_ok (delete_from_users d userName).
Proof.
  intros (Hpk & Hpr & (Hid & Hseq & Huk) & Hac & Hfk).
  unfold delete_from_users. case_decide as Hu; [|done].
  destruct Hfk as (H1 & H2 & H3 & H4 & H5 & H6 & H7 & H8).
  assert (∀ other,
            other ≠ userName → user_exists d other →
            other ∈ u_username <$>
              filter (λ r, u_username r ≠ userName) (users d)) as Hkeep.
  { intros other Hne Hex. by apply user_exists_after_delete. }
  unfold schema_ok. split_and!.
  - unfold users_pk in *. simpl.
    eapply sublist_NoDup; [exact Hpk|]. apply fmap_sublist, sublist_filter.
  - unfold play_records_pk in *. simpl.
    eapply sublist_NoDup; [exact Hpr|]. apply fmap_sublist, sublist_filter.
  - unfold search_history_ok. simpl. split_and!.
    + eapply sublist_NoDup; [exact Hid|]. apply fmap_sublist, sublist_filter.
    + by apply (Forall_filter_weaken _ _ _ _ (λ _ _ H, H)).
    + eapply sublist_NoDup; [exact Huk|]. apply fmap_sublist, sublist_filter.
  - done.
  - unfold foreign_keys, user_exists. simpl.
    split_and!; (eapply Forall_filter_weaken; [|eassumption]);
      intros r Hne Hex; by apply Hkeep.
Qed.

Lemma foreign_keys_set_play_records d t :
  Forall (λ r, user_exists d (pr_username r)) t →
  foreign_keys d → foreign_keys (set_play_records d t).
Proof. intros Ht (H1 & H2). by split. Qed.

Lemma schema_ok_filter_play_records d (P : PlayRecordRow → Prop)
    `{!∀ r, Decision (P r)} :
  schema_ok d → schema_ok (set_play_records d (filter P (play_records d))).
Proof.
  intros (Hpk & Hpr & Hsh & Hac & Hfk). unfold schema_ok. split_and!; try done.
  - unfold play_records_pk in *. simpl.
    eapply sublist_NoDup; [exact Hpr|]. apply fmap_sublist, sublist_filter.
  - apply foreign_keys_set_play_records; [|done].
    destruct Hfk as [H1 _]. apply Forall_forall.
    intros r [_ Hr]%list_elem_of_filter.
    rewrite Forall_forall in H1. by apply H1.
Qed.

Lemma schema_ok_setPlayRecord b st userName key record :
  schema_ok (db st) → schema_ok (db (setPlayRecord b st userName key record).2).
Proof.
  intros Hok.
  pose proof (play_records_pk_setPlayRecord b st userName key record
                (proj1 (proj2 Hok))) as Hpk'.
  destruct Hok as (Hpk & Hpr & Hsh & Hac & Hfk).
  unfold setPlayRecord in *. case_decide as Hu; [|done].
  destruct Hu as [Hu _]. simpl in *.
  unfold schema_ok. split_and!; try done.
  apply foreign_keys_set_play_records; [|done].
  destruct Hfk as [H1 _]. unfold upsert. case_decide.
  - apply Forall_fmap. eapply Forall_impl; [exact H1|].
    intros r Hr. unfold compose. by case_decide.
  - apply Forall_app. split; [done|]. by apply Forall_singleton.
Qed.

Lemma foreign_keys_set_search_history d t seq :
  Forall (λ r, user_exists d (sh_username r)) t →
  foreign_keys d → foreign_keys (set_search_history d t seq).
Proof.
  intros Ht (H1 & H2 & H3 & H4).
  split; [done|]. split; [done|]. split; [exact Ht|exact H4].
Qed.

Lemma schema_ok_set_search_history d t seq :
  search_history_ok (set_search_history d t seq) →
  Forall (λ r, user_exists d (sh_username r)) t →
  schema_ok d → schema_ok (set_search_history d t seq).
Proof.
  intros Hsh' Ht (Hpk & Hpr & Hsh & Hac & Hfk). unfold schema_ok.
  split_and!; try done. by apply foreign_keys_set_search_history.
Qed.

Lemma schema_ok_filter_search_history d (P : SearchHistoryRow → Prop)
    `{!∀ r, Decision (P r)} :
  schema_ok d →
  schema_ok
    (set_search_history d (filter P (search_history d))
       (search_history_id_seq d)).
Proof.
  intros Hok. apply schema_ok_set_search_history; [| |done].
  - destruct Hok as (_ & _ & (Hid & Hseq & Huk) & _).
    unfold search_history_ok. simpl. split_and!.
    + eapply sublist_NoDup; [exact Hid|]. apply fmap_sublist, sublist_filter.
    + apply Forall_forall. intros r [_ Hr]%list_elem_of_filter.
      rewrite Forall_forall in Hseq. by apply Hseq.
    + eapply sublist_NoDup; [exact Huk|]. apply fmap_sublist, sublist_filter.
  - destruct Hok as (_ & _ & _ & _ & _ & _ & H3 & _).
    apply Forall_forall. intros r [_ Hr]%list_elem_of_filter.
    rewrite Forall_forall in H3. by apply H3.
Qed.

Lemma schema_ok_upsert_search d userName keyword ts :
  schema_ok d → schema_ok (upsert_search d userName keyword ts).2.
Proof.
  intros Hok.
  pose proof (upsert_search_ok d userName keyword ts
                (proj1 (proj2 (proj2 Hok)))) as Hsh'.
  unfold upsert_search in *. case_decide as Hu; simpl in *.
  - apply schema_ok_set_search_history; [done| |done].
    destruct Hok as (_ & _ & _ & _ & _ & _ & H3 & _).
    unfold upsert. case_decide.
    + apply Forall_fmap. eapply Forall_impl; [exact H3|].
      intros r Hr. unfold compose. by case_decide.
    + apply Forall_app. split; [done|]. by apply Forall_singleton.
  - apply schema_ok_set_search_history; [done| |done].
    by destruct Hok as (_ & _ & _ & _ & _ & _ & H3 & _).
Qed.

Lemma schema_ok_addSearchHistory st userName keyword now :
  schema_ok (db st) →
  schema_ok (db (addSearchHistory st userName keyword now).2).
Proof.
  intros Hok. unfold addSearchHistory.
  pose proof (schema_ok_upsert_search (db st) userName keyword now Hok) as Hup.
  destruct (upsert_search (db st) userName keyword now) as [[d|] d'] eqn:Heq;
    simpl in *; [|done].
  apply upsert_search_db in Heq as ->.
  case_decide; simpl; [|done].
  by apply schema_ok_filter_search_history.
Qed.

Lemma schema_ok_write_admin_config st text now :
  schema_ok (db st) → schema_ok (db (write_admin_config st text now)).
Proof.
  intros (Hpk & Hpr & Hsh & Hac & Hfk).
  pose proof (write_admin_config_rows st text now Hac) as Hrows.
  unfold schema_ok. split_and!; try done.
  unfold admin_config_ok. rewrite Hrows. split.
  - apply NoDup_singleton.
  - by apply Forall_singleton.
Qed.

Lemma schema_ok_clearAllData st :
  schema_ok (db st) → schema_ok (db (clearAllData st).2).
Proof.
  intros (Hpk & Hpr & (Hid & Hseq & Huk) & Hac & Hfk).
  unfold schema_ok, play_records_pk, search_history_ok, foreign_keys. simpl.
  split_and!; try done; constructor.
Qed.

Lemma schema_ok_getUserInfoV2 b env now st userName :
  schema_ok (db st) → schema_ok (db (getUserInfoV2 b env now st userName).2).
Proof.
  intros Hok. unfold getUserInfoV2.
  destruct (cache st !! userName); [done|].
  destruct (select_user (db st) userName); [done|].
  destruct (eq_env userName (USERNAME env)); [|done].
  destruct (insert_user (db st) (owner_row userName now)) as [d|] eqn:Hins;
    [|done].
  simpl. by eapply schema_ok_insert_user.
Qed.

Lemma schema_ok_exec b env op st :
  schema_ok (db st) → schema_ok (db (exec b env op st)).
Proof.
  intros Hok. destruct op; simpl.
  - by apply schema_ok_setPlayRecord.
  - by apply schema_ok_filter_play_records.
  - unfold cleanupOldPlayRecords.
    destruct (maxRecords env); [|done].
    case_decide; [done|].
    destruct (newest_keys _ _ _ _); [|done].
    by apply schema_ok_filter_play_records.
  - unfold migratePlayRecords. destruct b; by apply schema_ok_update_user.
  - unfold migrateFavorites. destruct b; by apply schema_ok_update_user.
  - unfold migrateSkipConfigs. destruct b; by apply schema_ok_update_user.
  - by apply schema_ok_update_user.
  - by apply schema_ok_delete_from_users.
  - by apply schema_ok_getUserInfoV2.
  - unfold createUserV2.
    destruct (insert_user _ _) as [d|] eqn:Hins; [|done].
    destruct b; simpl; by eapply schema_ok_insert_user.
  - unfold getUserListV2.
    destruct (truthy ownerUsername) as [o|].
    + pose proof (schema_ok_getUserInfoV2 b env now st o Hok) as Hinfo.
      destruct (getUserInfoV2 b env now st o) as [info st1]. simpl in Hinfo.
      destruct (actual_window _ _ _ _) as [off lim].
      by destruct (limit_offset _ _ _ _).
    + destruct (actual_window _ _ _ _) as [off lim].
      by destruct (limit_offset _ _ _ _).
  - unfold updateUserInfoV2.
    destruct (no_updates updates); [done|].
    case_decide; [done|]. simpl.
    apply schema_ok_same_names; [|done].
    apply update_users_names, assign_updates_name.
  - unfold changePasswordV2. destruct b; by apply schema_ok_update_user.
  - by apply schema_ok_delete_from_users.
  - by apply schema_ok_update_user.
  - unfold createUserWithHashedPassword.
    destruct (insert_user _ _) as [d|] eqn:Hins; [|done].
    simpl. by eapply schema_ok_insert_user.
  - by apply schema_ok_update_user.
  - by apply schema_ok_update_user.
  - by apply schema_ok_update_user.
  - by apply schema_ok_addSearchHistory.
  - unfold deleteSearchHistory. simpl.
    destruct (truthy keyword); by apply schema_ok_filter_search_history.
  - by apply schema_ok_write_admin_config.
  - by apply schema_ok_clearAllData.
Qed.

Lemma schema_ok_empty : schema_ok empty_db.
Proof.
  unfold schema_ok, users_pk, play_records_pk, search_history_ok,
    admin_config_ok, foreign_keys. simpl. split_and!; constructor.
Qed.

(** Whatever the calls, the state they lead to from the empty database
    satisfies the schema. *)
Theorem schema_ok_run b env ops :
  schema_ok (db (run b env ops empty_state)).
Proof.
  assert (∀ st, schema_ok (db st) → schema_ok (db (run b env ops st))) as Hrun.
  { induction ops as [|op ops IH]; intros st Hst; [done|].
    simpl. by apply IH, schema_ok_exec. }
  apply Hrun, schema_ok_empty.
Qed.

(** * The rest of the adapters: properties

    The digest is never unfolded below: what matters of [hashPassword] is
    that equal passwords have equal digests and that no digest is empty. *)
Opaque hashPassword.

(** ** Objects used as maps *)

Lemma object_of_snoc {A V} (key : A → string) (val : A → V) rows r :
  object_of key val (rows ++ [r]) = js_set (object_of key val rows) (key r) (val r).
Proof. unfold object_of. by rewrite foldl_app. Qed.

Lemma object_of_lookup {A V} (key : A → string) (val : A → V) rows k :
  k ≠ "__proto__" →
  object_of key val rows !! k = val <$> last (filter (λ r, key r = k) rows).
Proof.
  intros Hk. induction rows as [|r rows IH] using rev_ind; [done|].
  rewrite object_of_snoc, filter_app. unfold js_set.
  destruct (decide (key r = k)) as [<-|Hne].
  - rewrite filter_cons_True, filter_nil by done.
    rewrite last_snoc. case_decide; [done|]. by rewrite lookup_insert_eq.
  - rewrite filter_cons_False, filter_nil, app_nil_r by done.
    case_decide; [done|]. by rewrite lookup_insert_ne.
Qed.

Lemma object_of_proto {A V} (key : A → string) (val : A → V) rows :
  object_of key val rows !! "__proto__" = None.
Proof.
  induction rows as [|r rows IH] using rev_ind; [done|].
  rewrite object_of_snoc. unfold js_set. case_decide as Hk; [done|].
  by rewrite lookup_insert_ne.
Qed.

Lemma at_most_one_head_last {A} (l : list A) :
  (length l ≤ 1)%nat → last l = head l.
Proof. destruct l as [|x [|y l]]; simpl; try done; lia. Qed.

(** ** Accounts: create, log in, change, delete *)

Lemma select_user_insert d row who :
  ¬ user_exists d (u_username row) →
  select_user (set_users d (users d ++ [row])) who =
  if decide (u_username row = who) then Some row else select_user d who.
Proof.
  intros Hfresh. unfold select_user. simpl. rewrite filter_app.
  case_decide as Hw.
  - rewrite filter_cons_True, filter_nil by done.
    rewrite filter_none; [done|].
    intros r Hr Hname. apply Hfresh. unfold user_exists.
    rewrite Hw, <- Hname. by apply list_elem_of_fmap_2.
  - rewrite filter_cons_False, filter_nil by done. by rewrite app_nil_r.
Qed.

Lemma insert_user_Some d row :
  ¬ user_exists d (u_username row) →
  oidc_sub_free d (u_username row) (u_oidc_sub row) →
  insert_user d row = Some (set_users d (users d ++ [row])).
Proof. intros Hu Ho. unfold insert_user. by rewrite decide_False, decide_True. Qed.

Lemma insert_user_None d row :
  user_exists d (u_username row) ∨
  ¬ oidc_sub_free d (u_username row) (u_oidc_sub row) →
  insert_user d row = None.
Proof.
  intros Hbad. unfold insert_user. case_decide; [done|].
  case_decide; [|done]. by destruct Hbad.
Qed.

Lemma db_cache_delete_d1 b st userName :
  db (cache_delete_d1 b st userName) = db st.
Proof. by destruct b. Qed.

Lemma verifyUserV2_db st st' userName password :
  db st = db st' → verifyUserV2 st userName password = verifyUserV2 st' userName password.
Proof. unfold verifyUserV2. by intros ->. Qed.


Lemma update_users_absent assign userName t :
  userName ∉ u_username <$> t → update_users assign userName t = t.
Proof.
  intros Hno. unfold update_users. induction t as [|x t IH]; [done|].
  rewrite fmap_cons in Hno. apply not_elem_of_cons in Hno as [Hx Ht].
  rewrite fmap_cons, decide_False by done. f_equal. by apply IH.
Qed.

Lemma select_user_update st assign userName who :
  (∀ r, u_username (assign r) = u_username r) →
  select_user (db (update_user st assign userName)) who =
  (λ r, if decide (u_username r = userName) then assign r else r) <$>
    select_user (db st) who.
Proof. intros Hname. unfold select_user. simpl. by apply select_update_users. Qed.

(** X2.  After [changePasswordV2] a stored user passes [verifyUserV2] with
    exactly the passwords whose digest is that of the new one, the new one
    among them; the answers for every other user are as before; for a user
    without a row the table is left as it is; and [changePassword] writes
    the same table. *)
Theorem changePasswordV2_verifyUserV2 b st userName newPassword :
  let st' := (changePasswordV2 b st userName newPassword).2 in
  (user_exists (db st) userName →
   verifyUserV2 st' userName newPassword = true ∧
   ∀ q, verifyUserV2 st' userName q =
        bool_decide (hashPassword newPassword = hashPassword q)) ∧
  (∀ other q, other ≠ userName →
     verifyUserV2 st' other q = verifyUserV2 st other q) ∧
  (¬ user_exists (db st) userName → db st' = db st) ∧
  db (changePassword st userName newPassword).2 = db st'.
Proof.
  simpl. rewrite db_cache_delete_d1.
  assert (∀ who q,
    verifyUserV2
      (cache_delete_d1 b
         (update_user st (assign_password_hash (hashPassword newPassword))
            userName) userName) who q =
    match select_user (db st) who with
    | None => false
    | Some user =>
        bool_decide
          ((if decide (u_username user = userName)
            then hashPassword newPassword else u_password_hash user)
           = hashPassword q)
    end) as Hv.
  { intros who q. unfold verifyUserV2. rewrite db_cache_delete_d1.
    rewrite select_user_update by done.
    destruct (select_user (db st) who) as [user|]; [|done]. simpl.
    by case_decide. }
  split_and!.
  - intros [row Hrow]%select_user_exists.
    assert (∀ q, verifyUserV2
      (cache_delete_d1 b
         (update_user st (assign_password_hash (hashPassword newPassword))
            userName) userName) userName q =
      bool_decide (hashPassword newPassword = hashPassword q)) as Hq.
    { intros q. rewrite Hv, Hrow.
      apply select_user_elem in Hrow as [Hname _]. by rewrite decide_True. }
    split; [|done]. rewrite Hq. by apply bool_decide_eq_true.
  - intros other q Hother. rewrite Hv. unfold verifyUserV2.
    destruct (select_user (db st) other) as [user|] eqn:Hs; [|done].
    apply select_user_elem in Hs as [Hname _].
    by rewrite decide_False by congruence.
  - intros Hno. unfold update_user. simpl.
    rewrite update_users_absent by done. by destruct (db st).
  - done.
Qed.

Lemma int_of_bool_1 v : bool_decide (int_of_bool v = 1) = v.
Proof. by destruct v. Qed.

Lemma getUserInfoV2_uncached b env now st userName user :
  cache st !! userName = None →
  select_user (db st) userName = Some user →
  (getUserInfoV2 b env now st userName).1 =
  Some (match b with
        | D1 =>
            if eq_env userName (USERNAME env)
            then with_role (row_to_user_info user) RoleOwner
            else row_to_user_info user
        | Postgres => row_to_user_info user
        end).
Proof. intros Hc Hs. unfold getUserInfoV2. by rewrite Hc, Hs. Qed.

Lemma cache_delete_lookup st userName :
  cache (cache_delete st userName) !! userName = None.
Proof. unfold cache_delete. simpl. apply lookup_delete_eq. Qed.

(** X3.  After an [updateUserInfoV2] that sets at least one field of a
    stored user, the next [getUserInfoV2] does not answer from the cache:
    every field given in [updates] is reported as given and every other
    field as stored.  The role is the exception under D1 for the
    configured owner, which is covered by the last hypothesis. *)
Theorem updateUserInfoV2_getUserInfoV2 b env now st userName updates row :
  no_updates updates = false →
  select_user (db st) userName = Some row →
  oidc_sub_free (db st) userName (upd_oidcSub updates) →
  b = Postgres ∨ USERNAME env ≠ Some userName →
  ∃ info,
    (getUserInfoV2 b env now (updateUserInfoV2 st userName updates).2
       userName).1 = Some info ∧
    role info = default (u_role row) (upd_role updates) ∧
    banned info =
      default (bool_decide (u_banned row = 1)) (upd_banned updates) ∧
    tags info = from_option Some (u_tags row) (upd_tags updates) ∧
    oidcSub info = from_option Some (u_oidc_sub row) (upd_oidcSub updates) ∧
    enabledApis info =
      from_option Some (u_enabled_apis row) (upd_enabledApis updates) ∧
    created_at info = u_created_at row.
Proof.
  intros Hsome Hrow Hfree Hb.
  pose proof (select_user_elem _ _ _ Hrow) as [Hname _].
  unfold updateUserInfoV2. rewrite Hsome.
  rewrite decide_False by (intros [_ Hno]; by apply Hno). simpl.
  set (st' := cache_delete _ _).
  assert (select_user (db st') userName = Some (assign_updates updates row))
    as Hrow'.
  { subst st'. unfold cache_delete, with_cache. simpl.
    change (set_users (db st) _) with
      (db (update_user st (assign_updates updates) userName)).
    rewrite select_user_update by apply assign_updates_name.
    rewrite Hrow. simpl. by rewrite decide_True. }
  rewrite (getUserInfoV2_uncached b env now st' userName _
             (cache_delete_lookup _ _) Hrow').
  assert (eq_env userName (USERNAME env) = true → b = Postgres) as Hown.
  { intros He%eq_env_true. by destruct Hb. }
  eexists. split; [done|].
  assert (∀ i, (match b with
                | D1 => if eq_env userName (USERNAME env)
                        then with_role i RoleOwner else i
                | Postgres => i
                end) = i) as ->.
  { intros i. destruct b; [|done].
    destruct (eq_env userName (USERNAME env)); [|done].
    by specialize (Hown eq_refl). }
  destruct updates as [[?|] [?|] [?|] [?|] [?|]]; simpl;
    rewrite ?int_of_bool_1; done.
Qed.

Lemma updateUserInfoV2_getUserInfoV2_witness :
  ∃ info,
    (getUserInfoV2 Postgres sample_env 5
       (updateUserInfoV2 alice_state "alice"
          {| upd_role := None; upd_banned := Some true; upd_tags := None;
             upd_oidcSub := None; upd_enabledApis := None |}).2
       "alice").1 = Some info ∧
    role info = RoleUser ∧ banned info = true.
Proof.
  destruct (updateUserInfoV2_getUserInfoV2 Postgres sample_env 5 alice_state
              "alice"
              {| upd_role := None; upd_banned := Some true; upd_tags := None;
                 upd_oidcSub := None; upd_enabledApis := None |}
              (sample_user "alice" 1000))
    as (info & Hinfo & Hrole & Hbanned & _).
  - reflexivity.
  - vm_compute. reflexivity.
  - exact I.
  - by left.
  - exists info. split_and!; done.
Defined.

Lemma migrate_db f b st userName :
  db (migrate f b st userName) =
  db (update_user st
        (match f with
         | PlayRecordFlag => assign_playrecord_migrated 1
         | FavoriteFlag => assign_favorite_migrated 1
         | SkipFlag => assign_skip_migrated 1
         end) userName).
Proof. destruct f, b; done. Qed.

Lemma migrate_cache f b st userName :
  cache (migrate f b st userName) =
  match b with
  | D1 => delete userName (cache st)
  | Postgres => cache st
  end.
Proof. destruct f, b; done. Qed.

(** X4.  The three [migrate...] methods and the cache.  Under D1 the
    entry of the user is dropped, so whatever [getUserInfoV2] answers next
    for that user has the flag raised.  Under Postgres the entry stays: a
    cached record is answered unchanged, with the flag as it was cached. *)
Theorem migrate_getUserInfoV2 f env now st userName :
  (∀ info,
     (getUserInfoV2 D1 env now (migrate f D1 st userName) userName).1
       = Some info →
     info_flag f info = true) ∧
  (∀ cached,
     cache st !! userName = Some cached →
     (getUserInfoV2 Postgres env now (migrate f Postgres st userName)
        userName).1 = Some cached).
Proof.
  split.
  - intros info. unfold getUserInfoV2.
    rewrite migrate_cache, lookup_delete_eq.
    unfold select_user. rewrite migrate_db. simpl.
    rewrite select_update_users by (by destruct f).
    destruct (head (filter _ (users (db st)))) as [row|] eqn:Hrow; simpl.
    + apply head_filter_elem in Hrow as [Hname _].
      rewrite decide_True by done.
      destruct (eq_env userName (USERNAME env));
        intros [= <-]; destruct f; done.
    + destruct (eq_env userName (USERNAME env)); [|done].
      simpl. intros [= <-]. by destruct f.
  - intros cached Hc. unfold getUserInfoV2.
    by rewrite migrate_cache, Hc.
Qed.

Lemma select_user_deleted d userName :
  select_user (delete_from_users d userName) userName = None.
Proof.
  unfold select_user, delete_from_users. apply head_filter_None.
  case_decide as Hex; simpl.
  - intros x [Hne _]%list_elem_of_filter. done.
  - intros x Hx Hname. apply Hex. unfold user_exists.
    rewrite <- Hname. by apply list_elem_of_fmap_2.
Qed.

(** X5.  After [deleteUserV2] the user has no row: [verifyUserV2] and
    [checkUserExistV2] answer [false].  [getUserInfoV2] then answers [null]
    and leaves the state alone, unless the user is the owner configured in
    the environment: for that name it answers the default owner record and
    writes the owner's row again. *)
Theorem deleteUserV2_getUserInfoV2 b env now st userName :
  let st' := (deleteUserV2 st userName).2 in
  (∀ q, verifyUserV2 st' userName q = false) ∧
  checkUserExistV2 st' userName = false ∧
  (USERNAME env ≠ Some userName →
   getUserInfoV2 b env now st' userName = (None, st')) ∧
  (USERNAME env = Some userName →
   (getUserInfoV2 b env now st' userName).1 = Some (ownerInfo now) ∧
   select_user (db (getUserInfoV2 b env now st' userName).2) userName
     = Some (owner_row userName now)).
Proof.
  simpl.
  set (st' := cache_delete (with_db st (delete_from_users (db st) userName))
                userName).
  assert (select_user (db st') userName = None) as Hnone
    by apply select_user_deleted.
  assert (cache st' !! userName = None) as Hc by apply lookup_delete_eq.
  split_and!.
  - intros q. unfold verifyUserV2. by rewrite Hnone.
  - unfold checkUserExistV2. rewrite Hnone. by apply bool_decide_eq_false.
  - intros Hown. unfold getUserInfoV2. rewrite Hc, Hnone.
    destruct (eq_env userName (USERNAME env)) eqn:He; [|done].
    by apply eq_env_true in He.
  - intros Hown%eq_env_true. unfold getUserInfoV2. rewrite Hc, Hnone, Hown.
    split; [done|].
    assert (¬ user_exists (db st') userName) as Hno.
    { intros Hex%select_user_exists. rewrite Hnone in Hex.
      by destruct Hex. }
    rewrite (insert_user_Some (db st') (owner_row userName now)) by done.
    simpl. rewrite (select_user_insert (db st') (owner_row userName now))
      by done.
    by rewrite decide_True.
Qed.

(** X6.  Called again in the state its first call left, whatever the
    time, [getUserInfoV2] gives the answer it gave and leaves the state as
    it is; and a first call that answers [null] leaves the state as it
    was. *)
Theorem getUserInfoV2_again b env now later st userName answer st' :
  getUserInfoV2 b env now st userName = (answer, st') →
  match answer with
  | Some info => getUserInfoV2 b env later st' userName = (Some info, st')
  | None => st' = st
  end.
Proof.
  unfold getUserInfoV2 at 1.
  destruct (cache st !! userName) as [cached|] eqn:Hc.
  { intros [= <- <-]. unfold getUserInfoV2. by rewrite Hc. }
  destruct (select_user (db st) userName) as [user|].
  { intros [= <- <-]. unfold getUserInfoV2, cache_set. simpl.
    by rewrite lookup_insert_eq. }
  destruct (eq_env userName (USERNAME env)); [|by intros [= <- <-]].
  intros [= <- <-]. unfold getUserInfoV2, cache_set. simpl.
  by rewrite lookup_insert_eq.
Qed.

Lemma getUserInfoV2_again_witness :
  getUserInfoV2 D1 sample_env 7
    (getUserInfoV2 D1 sample_env 5 alice_state "alice").2 "alice"
  = getUserInfoV2 D1 sample_env 5 alice_state "alice".
Proof.
  exact (getUserInfoV2_again D1 sample_env 5 7 alice_state "alice"
           (getUserInfoV2 D1 sample_env 5 alice_state "alice").1
           (getUserInfoV2 D1 sample_env 5 alice_state "alice").2 eq_refl).
Defined.

(** X7.  The e-mail settings of a stored user read back as written:
    [getUserEmail] after [setUserEmail], [getEmailNotificationPreference]
    after [setEmailNotificationPreference]; neither write touches the other
    column.  For a user without a row the address is [null] and the
    preference [false]. *)
Theorem email_settings_read_back st userName address enabled :
  (user_exists (db st) userName →
   getUserEmail (setUserEmail st userName address).2 userName
     = Some address ∧
   getEmailNotificationPreference
     (setEmailNotificationPreference st userName enabled).2 userName
     = enabled ∧
   getEmailNotificationPreference (setUserEmail st userName address).2
     userName = getEmailNotificationPreference st userName ∧
   getUserEmail (setEmailNotificationPreference st userName enabled).2
     userName = getUserEmail st userName) ∧
  (¬ user_exists (db st) userName →
   getUserEmail st userName = None ∧
   getEmailNotificationPreference st userName = false).
Proof.
  split.
  - intros [row Hrow]%select_user_exists.
    pose proof (select_user_elem _ _ _ Hrow) as [Hname _].
    unfold getUserEmail, getEmailNotificationPreference. simpl.
    change (set_users (db st) (update_users ?a userName (users (db st))))
      with (db (update_user st a userName)).
    rewrite !select_user_update by done. rewrite Hrow. simpl.
    rewrite !decide_True by done. simpl.
    by rewrite int_of_bool_1.
  - intros Hno. unfold getUserEmail, getEmailNotificationPreference.
    destruct (select_user (db st) userName) as [row|] eqn:Hrow; [|done].
    destruct Hno. apply select_user_exists. by exists row.
Qed.



(** ** Objects built from rows *)

Lemma at_most_one_perm {A} (l l' : list A) :
  l ≡ₚ l' → (length l' ≤ 1)%nat → l = l'.
Proof.
  intros Hp Hl. destruct l' as [|x [|y l']]; simpl in Hl; [| |lia].
  - by apply Permutation_nil_r.
  - by apply Permutation_singleton_r.
Qed.

(** The property of [key] in the object is the one row the table holds
    under it. *)
Lemma object_of_agrees {A V} (key : A → string) (val : A → V)
    (P : A → Prop) `{!∀ x, Decision (P x)} (rows all : list A) k :
  rows ≡ₚ filter P all →
  (length (filter (λ r, P r ∧ key r = k) all) ≤ 1)%nat →
  k ≠ "__proto__" →
  object_of key val rows !! k
  = val <$> head (filter (λ r, P r ∧ key r = k) all).
Proof.
  intros Hp Hone Hk. rewrite object_of_lookup by done.
  assert (filter (λ r, key r = k) rows
          = filter (λ r, P r ∧ key r = k) all) as ->.
  { apply at_most_one_perm; [|done].
    rewrite Hp, list_filter_filter.
    erewrite list_filter_iff; [done|]. intros x. simpl. tauto. }
  by rewrite at_most_one_head_last.
Qed.

(** X9.  [getAllPlayRecords] files under each key what [getPlayRecord]
    returns for it, and has no property for a key without a row.  The key
    ['__proto__'] is the exception: the object never has it as a
    property. *)
Theorem getAllPlayRecords_getPlayRecord b st userName key :
  play_records_pk (db st) →
  getAllPlayRecords b st userName !! key =
  if decide (key = "__proto__") then None
  else getPlayRecord b st userName key.
Proof.
  intros Hpk. unfold getAllPlayRecords. case_decide as Hk.
  - subst key. apply object_of_proto.
  - unfold getPlayRecord, play_records_of.
    apply (object_of_agrees pr_key (rowToPlayRecord b)
             (λ r, pr_username r = userName)); [|by apply one_row_per_key|done].
    apply order_by_desc_perm.
Qed.

Lemma getAllPlayRecords_getPlayRecord_witness :
  getAllPlayRecords D1 busy_state "alice" !! sample_key 3 =
  getPlayRecord D1 busy_state "alice" (sample_key 3).
Proof.
  rewrite (getAllPlayRecords_getPlayRecord D1 busy_state "alice" (sample_key 3)).
  - reflexivity.
  - unfold play_records_pk. apply (bool_decide_unpack _). vm_compute. exact I.
Defined.

(** X10.  [setPlayRecord] and [deletePlayRecord] act on one pair
    [(username, key)]: [getPlayRecord] answers for every other pair as it
    did before, and after the delete it answers [null] for the pair
    itself. *)
Theorem play_record_writes_are_local b st userName key record other key' :
  (other, key') ≠ (userName, key) →
  getPlayRecord b (setPlayRecord b st userName key record).2 other key'
    = getPlayRecord b st other key' ∧
  getPlayRecord b (deletePlayRecord st userName key).2 other key'
    = getPlayRecord b st other key' ∧
  getPlayRecord b (deletePlayRecord st userName key).2 userName key = None.
Proof.
  intros Hne. split_and!.
  - unfold getPlayRecord, setPlayRecord. case_decide; [|done]. simpl.
    rewrite upsert_other; [done| |].
    + simpl. intros [-> ->]. done.
    + intros r Hs. unfold same_play_record in Hs. simpl in Hs.
      destruct Hs as [Hu Hk].
      split; simpl; intros [<- <-]; apply Hne; by rewrite Hu, Hk.
  - unfold getPlayRecord, deletePlayRecord. simpl.
    rewrite list_filter_filter. f_equal. f_equal.
    apply list_filter_iff. intros r. split; [tauto|].
    intros [-> ->]. split; [done|]. intros [-> ->]. done.
  - unfold getPlayRecord, deletePlayRecord. simpl.
    rewrite list_filter_filter.
    rewrite filter_none; [done|]. intros r _. tauto.
Qed.

Lemma play_record_writes_are_local_witness :
  getPlayRecord D1 (deletePlayRecord busy_state "alice" (sample_key 1)).2
    "alice" (sample_key 2)
  = getPlayRecord D1 busy_state "alice" (sample_key 2).
Proof.
  apply (play_record_writes_are_local D1 busy_state "alice" (sample_key 1)
           (sample_record 1 None) "alice" (sample_key 2)).
  apply (bool_decide_unpack _). vm_compute. exact I.
Defined.

(** ** Search history: order and deletion *)

(** The first row of [ORDER BY col DESC] is one of the rows and no row is
    above it. *)
Lemma order_by_desc_head {A} (col : A → Z) (l : list A) x :
  x ∈ l →
  ∃ h, head (order_by_desc col l) = Some h ∧ h ∈ l ∧ col x ≤ col h.
Proof.
  intros Hx. apply (order_by_desc_elem_of col) in Hx.
  pose proof (order_by_desc_sorted col l) as Hs.
  pose proof (order_by_desc_elem_of col l) as Hel.
  destruct (order_by_desc col l) as [|h t]; [by inversion Hx|].
  exists h. split_and!; [done|apply Hel; left|].
  apply elem_of_cons in Hx as [->|Hx]; [lia|].
  apply StronglySorted_inv in Hs as [_ Hall].
  rewrite Forall_forall in Hall. by apply Hall.
Qed.

Lemma head_fmap_take {A B} (f : A → B) (n : nat) (l : list A) :
  head (f <$> take (S n) l) = f <$> head l.
Proof. by destruct l. Qed.

Lemma search_rows_after_upsert d userName keyword now :
  user_exists d userName →
  (∀ r, r ∈ search_history_of d userName → sh_timestamp r < now) →
  let rows := search_history_of (upsert_search d userName keyword now).2
                userName in
  (∃ x, x ∈ rows ∧ sh_timestamp x = now) ∧
  (∀ y, y ∈ rows → sh_timestamp y = now → sh_keyword y = keyword) ∧
  (∀ y, y ∈ rows → sh_timestamp y ≤ now).
Proof.
  intros Hu Hold. simpl. unfold upsert_search, search_history_of.
  rewrite decide_True by done. simpl.
  set (new := {| sh_id := search_history_id_seq d + 1;
                 sh_username := userName; sh_keyword := keyword;
                 sh_timestamp := now |}).
  unfold upsert. case_decide as Hex.
  - rewrite filter_fmap_stable by (intros r; by case_decide).
    fold (search_history_of d userName).
    split_and!.
    + apply Exists_exists in Hex as (r & Hr & Hs).
      exists (search_update r new). split; [|done].
      apply list_elem_of_fmap. exists r. rewrite decide_True by done.
      split; [done|]. apply list_elem_of_filter. split; [apply Hs|done].
    + intros y (r & -> & Hr)%list_elem_of_fmap.
      case_decide as Hs; [intros _; apply Hs|].
      specialize (Hold r Hr). lia.
    + intros y (r & -> & Hr)%list_elem_of_fmap.
      case_decide as Hs; [simpl; lia|].
      specialize (Hold r Hr). lia.
  - rewrite filter_app, filter_cons_True, filter_nil by done.
    fold (search_history_of d userName).
    split_and!.
    + exists new. split; [|done]. apply elem_of_app. right. left.
    + intros y [Hy| ->%list_elem_of_singleton]%elem_of_app; [|done].
      specialize (Hold y Hy). lia.
    + intros y [Hy| ->%list_elem_of_singleton]%elem_of_app; [|simpl; lia].
      specialize (Hold y Hy). lia.
Qed.



Lemma getSearchHistory_elem_of st userName k :
  (length (search_history_of (db st) userName) ≤ 20)%nat →
  k ∈ getSearchHistory st userName ↔
  k ∈ sh_keyword <$> search_history_of (db st) userName.
Proof.
  intros Hb. unfold getSearchHistory.
  rewrite take_ge by (by rewrite order_by_desc_length).
  by rewrite order_by_desc_perm.
Qed.

Lemma filter_all {A} (P : A → Prop) `{!∀ x, Decision (P x)} (l : list A) :
  (∀ x, x ∈ l → P x) → filter P l = l.
Proof.
  induction l as [|x l IH]; intros Hl; [done|].
  rewrite filter_cons_True by (apply Hl; left).
  f_equal. apply IH. intros y Hy. apply Hl. by right.
Qed.

Lemma search_history_of_delete st userName keyword who :
  search_history_of (db (deleteSearchHistory st userName keyword).2) who =
  match truthy keyword with
  | Some gone =>
      filter (λ r, ¬ (who = userName ∧ sh_keyword r = gone))
        (search_history_of (db st) who)
  | None => filter (λ r, who ≠ userName) (search_history_of (db st) who)
  end.
Proof.
  unfold deleteSearchHistory, search_history_of. simpl.
  destruct (truthy keyword) as [gone|]; rewrite !list_filter_filter;
    apply list_filter_iff; intros r; simpl;
    (split; [intros [<- Hn]|intros [Hn <-]]; by split).
Qed.

(** X12.  [deleteSearchHistory] with a keyword removes that keyword from
    what [getSearchHistory] lists for the user and nothing else; without a
    keyword, or with the empty one, it leaves the user's list empty.
    Either way the lists of the other users stay as they are. *)
Theorem deleteSearchHistory_getSearchHistory st userName keyword :
  search_history_bounded (db st) →
  let st' := (deleteSearchHistory st userName keyword).2 in
  (∀ k, k ∈ getSearchHistory st' userName ↔
        match truthy keyword with
        | Some gone => k ∈ getSearchHistory st userName ∧ k ≠ gone
        | None => False
        end) ∧
  (∀ other, other ≠ userName →
     getSearchHistory st' other = getSearchHistory st other).
Proof.
  intros Hb. cbv zeta. split.
  - intros k.
    rewrite getSearchHistory_elem_of.
    2:{ rewrite search_history_of_delete.
        destruct (truthy keyword);
          (etrans; [apply length_filter|apply Hb]). }
    rewrite search_history_of_delete, list_elem_of_fmap.
    destruct (truthy keyword) as [gone|].
    + rewrite getSearchHistory_elem_of by apply Hb.
      rewrite list_elem_of_fmap. split.
      * intros (r & -> & [Hn Hr]%list_elem_of_filter).
        split; [by exists r|]. intros Hk. apply Hn. by split.
      * intros [(r & -> & Hr) Hne]. exists r. split; [done|].
        apply list_elem_of_filter. split; [|done]. by intros [_ Hk].
    + split; [|done]. intros (r & _ & [Hn _]%list_elem_of_filter).
      by apply Hn.
  - intros other Hne. unfold getSearchHistory.
    rewrite search_history_of_delete.
    destruct (truthy keyword) as [gone|].
    + rewrite filter_all; [done|]. by intros r _ [Heq _].
    + by rewrite filter_all.
Qed.

Lemma deleteSearchHistory_getSearchHistory_witness :
  (∀ k, k ∈ getSearchHistory
              (deleteSearchHistory
                 (addSearchHistory alice_state "alice" "dune" 7).2
                 "alice" (Some "")).2 "alice" ↔ False) ∧
  (∀ other, other ≠ "alice" →
     getSearchHistory
       (deleteSearchHistory (addSearchHistory alice_state "alice" "dune" 7).2
          "alice" (Some "")).2 other
     = getSearchHistory (addSearchHistory alice_state "alice" "dune" 7).2
         other).
Proof.
  apply (deleteSearchHistory_getSearchHistory
           (addSearchHistory alice_state "alice" "dune" 7).2 "alice"
           (Some "")).
  intros u. etrans; [apply length_filter|]. vm_compute. lia.
Defined.

(** ** Tables with one row per key *)

Section keyed.
Context {A K : Type} `{!EqDecision K}.
Context (same : relation A) `{!RelDecision same} (set : A → A → A).
Context (key : A → K).
Hypothesis same_key : ∀ r r', same r r' ↔ key r = key r'.
Hypothesis set_key : ∀ old new, key (set old new) = key old.
Implicit Types t : list A.

(** The key of the table survives the upsert. *)
Lemma upsert_NoDup new t :
  NoDup (key <$> t) → NoDup (key <$> upsert same set new t).
Proof.
  intros Hnd. unfold upsert. case_decide as Hex.
  - rewrite <- list_fmap_compose.
    erewrite list_fmap_ext; [exact Hnd|].
    intros i r _. simpl. case_decide; by rewrite ?set_key.
  - rewrite fmap_app. apply NoDup_app. split_and!; [done| |apply NoDup_singleton].
    intros k Hk ->%list_elem_of_singleton.
    apply list_elem_of_fmap in Hk as (r & Heq & Hr).
    apply Hex, Exists_exists. exists r. split; [done|]. by apply same_key.
Qed.

(** Under the key of the row written, the first row found shows what was
    written. *)
Lemma upsert_head {V} (view : A → V) new t :
  (∀ old, view (set old new) = view new) →
  view <$> head (filter (λ r, key r = key new) (upsert same set new t))
  = Some (view new).
Proof.
  intros Hview.
  rewrite (upsert_filter same set (λ r, key r = key new)).
  - case_decide as Hex; [|done].
    apply Exists_exists in Hex as (r0 & Hr0 & Hs).
    assert (r0 ∈ filter (λ r, key r = key new) t) as Hin.
    { apply list_elem_of_filter. split; [by apply same_key|done]. }
    destruct (filter _ t) as [|r1 rest]; [by inversion Hin|].
    simpl. by rewrite Hview.
  - done.
  - intros r. by rewrite same_key.
  - intros r Hs. apply same_key. rewrite set_key. by apply same_key.
Qed.

(** Under any other key the rows are the ones that were there. *)
Lemma upsert_frame k new t :
  k ≠ key new →
  filter (λ r, key r = k) (upsert same set new t) = filter (λ r, key r = k) t.
Proof.
  intros Hne. apply (upsert_other same set).
  - congruence.
  - intros r Hs%same_key. rewrite set_key. split; congruence.
Qed.

Lemma delete_head k t :
  head (filter (λ r, key r = k) (filter (λ r, key r ≠ k) t)) = None.
Proof.
  apply head_filter_None. intros x [Hne _]%list_elem_of_filter. done.
Qed.

Lemma delete_frame k k' t :
  k' ≠ k →
  filter (λ r, key r = k') (filter (λ r, key r ≠ k) t)
  = filter (λ r, key r = k') t.
Proof.
  intros Hne. rewrite list_filter_filter. apply list_filter_iff.
  intros r. split; [tauto|]. intros Hk. split; [done|congruence].
Qed.

Lemma keyed_at_most_one k t :
  NoDup (key <$> t) → (length (filter (λ r, key r = k) t) ≤ 1)%nat.
Proof.
  intros Hnd. apply (at_most_one_under_key key k).
  - eapply sublist_NoDup; [exact Hnd|apply fmap_sublist, sublist_filter].
  - by intros r [Hk _]%list_elem_of_filter.
Qed.

End keyed.

Lemma filter_pair_key {A} (f g : A → string) u k (t : list A) :
  filter (λ r, f r = u ∧ g r = k) t = filter (λ r, (f r, g r) = (u, k)) t.
Proof.
  apply list_filter_iff. intros r. split.
  - intros [Hf Hg]. by rewrite Hf, Hg.
  - by intros [= Hf Hg].
Qed.

Lemma filter_not_pair_key {A} (f g : A → string) u k (t : list A) :
  filter (λ r, ¬ (f r = u ∧ g r = k)) t
  = filter (λ r, (f r, g r) ≠ (u, k)) t.
Proof.
  apply list_filter_iff. intros r. split.
  - intros Hn [= Hf Hg]. by apply Hn.
  - intros Hn [Hf Hg]. apply Hn. by rewrite Hf, Hg.
Qed.

(** ** Favorites *)

Lemma rowToFavorite_values userName key favorite :
  rowToFavorite (favorite_values userName key favorite)
  = stored_favorite favorite.
Proof.
  unfold rowToFavorite, stored_favorite, favorite_values. simpl.
  rewrite !or_str_empty.
  assert (∀ o, str_or_null (str_or_null o) = str_or_null o) as Hidem.
  { intros [s|]; [|done]. simpl. case_decide; [done|].
    simpl. by rewrite decide_False. }
  rewrite Hidem, int_of_bool_1. by destruct favorite.
Qed.

Lemma same_favorite_key r r' :
  same_favorite r r' ↔
  (fav_username r, fav_key r) = (fav_username r', fav_key r').
Proof.
  unfold same_favorite. split.
  - intros [Hu Hk]. by rewrite Hu, Hk.
  - by intros [= Hu Hk].
Qed.


(** X14.  [getAllFavorites] files under each key what [getFavorite]
    returns for it; the key ['__proto__'] is never a property of the
    object. *)
Theorem getAllFavorites_getFavorite st userName key :
  favorites_pk (db st) →
  getAllFavorites st userName !! key =
  if decide (key = "__proto__") then None else getFavorite st userName key.
Proof.
  intros Hpk. unfold getAllFavorites. case_decide as Hk.
  - subst key. apply object_of_proto.
  - unfold getFavorite, favorites_of.
    apply (object_of_agrees fav_key rowToFavorite
             (λ r, fav_username r = userName)); [| |done].
    + apply order_by_desc_perm.
    + rewrite filter_pair_key.
      by apply (keyed_at_most_one (λ r, (fav_username r, fav_key r))).
Qed.

Lemma getAllFavorites_getFavorite_witness :
  getAllFavorites
    (setFavorite Postgres alice_state "alice" "tmdb+1" sample_favorite).2
    "alice" !! "tmdb+1"
  = getFavorite
      (setFavorite Postgres alice_state "alice" "tmdb+1" sample_favorite).2
      "alice" "tmdb+1".
Proof.
  rewrite (getAllFavorites_getFavorite
             (setFavorite Postgres alice_state "alice" "tmdb+1"
                sample_favorite).2
             "alice" "tmdb+1").
  - reflexivity.
  - unfold favorites_pk. apply (bool_decide_unpack _). vm_compute. exact I.
Defined.

(** ** Skip configurations and their keys *)

Lemma same_skip_config_key r r' :
  same_skip_config r r' ↔ (sk_username r, sk_key r) = (sk_username r', sk_key r').
Proof.
  unfold same_skip_config. split.
  - intros [Hu Hk]. by rewrite Hu, Hk.
  - by intros [= Hu Hk].
Qed.

Lemma rowToSkipConfig_values userName key config :
  rowToSkipConfig (skip_config_values userName key config) = config.
Proof.
  unfold rowToSkipConfig, skip_config_values. simpl.
  rewrite int_of_bool_1. by destruct config.
Qed.



Lemma split_on_no_sep sep s :
  sep ∉ list_ascii_of_string s → split_on sep s = [s].
Proof.
  induction s as [|c s IH]; [done|]. simpl.
  intros [Hc Hs]%not_elem_of_cons.
  rewrite decide_False by done. by rewrite IH.
Qed.

Lemma split_on_app sep a b :
  sep ∉ list_ascii_of_string a →
  split_on sep (a +:+ String sep b) = a :: split_on sep b.
Proof.
  induction a as [|c a IH]; simpl.
  - intros _. by rewrite decide_True.
  - intros [Hc Ha]%not_elem_of_cons.
    rewrite decide_False by done. by rewrite IH.
Qed.

Lemma split_on_pieces sep s piece :
  piece ∈ split_on sep s → sep ∉ list_ascii_of_string piece.
Proof.
  revert piece. induction s as [|c s IH]; intros piece; simpl.
  - intros ->%list_elem_of_singleton. apply not_elem_of_nil.
  - case_decide as Hc.
    + intros [->|Hin]%elem_of_cons; [apply not_elem_of_nil|by apply IH].
    + destruct (split_on sep s) as [|p rest].
      * intros ->%list_elem_of_singleton. simpl.
        apply not_elem_of_cons. split; [done|apply not_elem_of_nil].
      * intros [->|Hin]%elem_of_cons.
        -- simpl. apply not_elem_of_cons. split; [done|]. apply IH. left.
        -- apply IH. by right.
Qed.

(** X16.  [parseKey] gives back the [source] and the [id] a key
    [source+id] was built from exactly when neither of them has a ['+'];
    a ['+'] in either makes it cut the key elsewhere. *)
Theorem parseKey_storage_key source id :
  parseKey (storage_key source id) = (source, Some id) ↔
  no_plus source ∧ no_plus id.
Proof.
  unfold parseKey, storage_key, no_plus. split.
  - intros Hparse.
    pose proof (split_on_pieces "+" (source +:+ "+" +:+ id)) as Hp.
    destruct (split_on "+" (source +:+ "+" +:+ id)) as [|s0 rest] eqn:Hs;
      [done|].
    injection Hparse as -> Hrest.
    assert ("+"%char ∉ list_ascii_of_string source) as Hsrc
      by (apply Hp; left).
    split; [done|].
    change (source +:+ "+" +:+ id) with (source +:+ String "+" id) in Hs.
    rewrite split_on_app in Hs by done. injection Hs as <-.
    apply (split_on_pieces "+" id). by apply head_Some_elem_of.
  - intros [Hsrc Hid].
    change (source +:+ "+" +:+ id) with (source +:+ String "+" id).
    rewrite split_on_app by done. by rewrite split_on_no_sep.
Qed.

(** ** Notifications *)

Lemma mark_read_absent userName notificationId (t : list NotificationRow) :
  notificationId ∉ nt_id <$> t →
  (λ r, if decide (nt_username r = userName ∧ nt_id r = notificationId)
        then assign_read 1 r else r) <$> t = t.
Proof.
  induction t as [|x t IH]; [done|]. rewrite !fmap_cons.
  intros [Hx Ht]%not_elem_of_cons.
  rewrite decide_False by (intros [_ Hid]; congruence).
  f_equal. by apply IH.
Qed.

Lemma unread_after_mark userName notificationId who
    (t : list NotificationRow) :
  NoDup (nt_id <$> t) →
  Nat.add
    (length (filter (λ r, nt_username r = who ∧ nt_read r = 0)
               ((λ r, if decide (nt_username r = userName ∧
                                 nt_id r = notificationId)
                      then assign_read 1 r else r) <$> t)))
    (if decide (who = userName ∧
                Exists (λ r, nt_username r = userName ∧
                             nt_id r = notificationId ∧ nt_read r = 0) t)
     then 1%nat else 0%nat)
  = length (filter (λ r, nt_username r = who ∧ nt_read r = 0) t).
Proof.
  induction t as [|x t IH]; intros Hnd.
  { simpl. case_decide as H0; [|done].
    destruct H0 as [_ H0]. by apply Exists_nil in H0. }
  rewrite fmap_cons in Hnd. apply NoDup_cons in Hnd as [Hx Hnd].
  rewrite fmap_cons.
  destruct (decide (nt_username x = userName ∧ nt_id x = notificationId))
    as [[Hu Hid]|Hnot].
  - rewrite mark_read_absent by congruence.
    rewrite !filter_cons.
    rewrite (decide_False (P := nt_username (assign_read 1 x) = who ∧ _))
      by (simpl; intros [_ ?]; lia).
    destruct (decide (nt_username x = who ∧ nt_read x = 0)) as [[Hw Hr]|Hn].
    + rewrite decide_True; [simpl; lia|].
      split; [congruence|]. by left.
    + rewrite decide_False; [simpl; lia|].
      intros [Hw [(Hxu & _ & Hr)|Hex]%Exists_cons].
      * apply Hn. split; congruence.
      * apply Exists_exists in Hex as (r & Hr & _ & Hrid & _).
        apply Hx. rewrite Hid, <- Hrid. by apply list_elem_of_fmap_2.
  - rewrite !filter_cons. specialize (IH Hnd).
    assert ((who = userName ∧
             Exists (λ r, nt_username r = userName ∧
                          nt_id r = notificationId ∧ nt_read r = 0) (x :: t))
            ↔ (who = userName ∧
               Exists (λ r, nt_username r = userName ∧
                            nt_id r = notificationId ∧ nt_read r = 0) t))
      as Hiff.
    { rewrite Exists_cons. split; [|tauto].
      intros [Hw [(Hxu & Hxid & _)|Hex]]; [|done]. destruct Hnot. by split. }
    rewrite (decide_ext _ _ _ _ Hiff).
    destruct (decide (nt_username x = who ∧ nt_read x = 0)); simpl; lia.
Qed.

(** X17.  [markNotificationAsRead] lowers the unread count of the user by
    one when the user has an unread notification with that id, and leaves
    every count as it is otherwise: also when the id belongs to another
    user's notification.  Marking twice is marking once. *)
Theorem markNotificationAsRead_unread st userName notificationId :
  notifications_pk (db st) →
  let st' := (markNotificationAsRead st userName notificationId).2 in
  (∀ who,
     getUnreadNotificationCount st' who =
     getUnreadNotificationCount st who -
     (if decide (who = userName ∧
                 Exists (λ r, nt_username r = userName ∧
                              nt_id r = notificationId ∧ nt_read r = 0)
                   (notifications (db st)))
      then 1 else 0)) ∧
  notifications_pk (db st') ∧
  (markNotificationAsRead st' userName notificationId).2 = st'.
Proof.
  intros Hpk. cbv zeta. split_and!.
  - intros who. unfold getUnreadNotificationCount, count. simpl.
    pose proof (unread_after_mark userName notificationId who
                  (notifications (db st)) Hpk) as Hlen.
    case_decide; lia.
  - unfold notifications_pk. simpl. rewrite <- list_fmap_compose.
    erewrite list_fmap_ext; [exact Hpk|].
    intros i r _. simpl. by case_decide.
  - unfold markNotificationAsRead. simpl. unfold with_db. simpl. f_equal.
    unfold set_notifications. simpl. f_equal.
    rewrite <- list_fmap_compose. apply list_fmap_ext.
    intros i r _. simpl.
    destruct (decide (nt_username r = userName ∧ nt_id r = notificationId));
      simpl; [|by rewrite decide_False].
    by rewrite decide_True.
Qed.

Lemma markNotificationAsRead_unread_witness :
  getUnreadNotificationCount
    (markNotificationAsRead inbox_state "alice" "n1").2 "alice" = 0.
Proof.
  destruct (markNotificationAsRead_unread inbox_state "alice" "n1")
    as (Hcount & _ & _).
  - unfold notifications_pk. apply (bool_decide_unpack _). vm_compute. exact I.
  - rewrite Hcount. vm_compute. reflexivity.
Defined.

Lemma mapM_total {A B} (f : A → option B) (l : list A) :
  Forall (λ x, is_Some (f x)) l → mapM f l = Some (omap f l).
Proof.
  induction 1 as [|x l [y Hy] _ IH]; [done|].
  simpl. rewrite Hy. simpl. by rewrite IH.
Qed.

Lemma omap_sorted {A B} (f : A → option B) (col : A → Z) (col' : B → Z)
    (l : list A) :
  (∀ x y, f x = Some y → col' y = col x) →
  StronglySorted (desc_by col) l →
  StronglySorted (desc_by col') (omap f l).
Proof.
  intros Hcol. induction 1 as [|x l Hs IH Hall]; [constructor|].
  simpl. destruct (f x) as [y|] eqn:Hy; [|done].
  constructor; [done|].
  apply Forall_forall. intros y' (x' & Hx' & Hy')%list_elem_of_omap.
  rewrite Forall_forall in Hall. specialize (Hall x' Hx').
  unfold desc_by in *. by rewrite (Hcol x y), (Hcol x' y').
Qed.

Section NotificationsRoundTrip.
Context {Metadata : Type}.
Variable JSON_stringify : Metadata → string.
Variable JSON_parse : string → option Metadata.

Lemma rowToNotification_timestamp row (n : Notification Metadata) :
  rowToNotification JSON_parse row = Some n → n_timestamp n = nt_timestamp row.
Proof.
  unfold rowToNotification.
  destruct (str_or_null (nt_metadata row)) as [text|]; simpl.
  - destruct (JSON_parse text); simpl; [|done]. by intros [= <-].
  - by intros [= <-].
Qed.

Lemma rowToNotification_read row (n : Notification Metadata) :
  rowToNotification JSON_parse row = Some n →
  n_read n = bool_decide (nt_read row = 1).
Proof.
  unfold rowToNotification.
  destruct (str_or_null (nt_metadata row)) as [text|]; simpl.
  - destruct (JSON_parse text); simpl; [|done]. by intros [= <-].
  - by intros [= <-].
Qed.

Lemma rowToNotification_values userName (n : Notification Metadata) :
  (∀ m, n_metadata n = Some m →
        JSON_parse (JSON_stringify m) = Some m ∧ JSON_stringify m ≠ "") →
  rowToNotification JSON_parse (notification_values JSON_stringify userName n)
  = Some n.
Proof.
  intros Hjson. unfold rowToNotification, notification_values. simpl.
  rewrite int_of_bool_1.
  destruct n as [i ty ti me ts rd [m|]]; simpl in *; [|done].
  destruct (Hjson m eq_refl) as [Hparse Hne].
  rewrite decide_False by done. by rewrite Hparse.
Qed.

Lemma getNotifications_total st userName :
  Forall (λ r, is_Some (rowToNotification JSON_parse r))
    (notifications_of (db st) userName) →
  getNotifications JSON_parse st userName =
  omap (rowToNotification JSON_parse)
    (order_by_desc nt_timestamp (notifications_of (db st) userName)).
Proof.
  intros Hall. unfold getNotifications. rewrite mapM_total; [done|].
  apply Forall_forall. intros r Hr%order_by_desc_elem_of.
  rewrite Forall_forall in Hall. by apply Hall.
Qed.



End NotificationsRoundTrip.


(** ** One row per user: check times and danmaku filters *)

Lemma same_check_time_key r r' :
  same_check_time r r' ↔ fct_username r = fct_username r'.
Proof. done. Qed.

Lemma or_null_default (v : Z) : default 0 (or_null (Some v)) = v.
Proof. simpl. by case_decide. Qed.



Lemma same_danmaku_key r r' :
  same_danmaku r r' ↔ dm_username r = dm_username r'.
Proof. done. Qed.

Section DanmakuRoundTrip.
Context {DanmakuFilterConfig : Type}.
Variable JSON_stringify : DanmakuFilterConfig → string.
Variable JSON_parse : string → option DanmakuFilterConfig.

(** X21.  For a stored user, [getDanmakuFilterConfig] after
    [setDanmakuFilterConfig] returns what [JSON.parse] makes of the text
    written, [null] if it makes nothing of it and the configuration itself
    if that survives the JSON round trip; the other users read as before;
    and after [deleteDanmakuFilterConfig] the user reads [null]. *)
Theorem setDanmakuFilterConfig_getDanmakuFilterConfig st userName config :
  user_exists (db st) userName →
  let st' := (setDanmakuFilterConfig JSON_stringify st userName config).2 in
  getDanmakuFilterConfig JSON_parse st' userName
    = JSON_parse (JSON_stringify config) ∧
  (∀ other, other ≠ userName →
     getDanmakuFilterConfig JSON_parse st' other
     = getDanmakuFilterConfig JSON_parse st other) ∧
  getDanmakuFilterConfig JSON_parse
    (deleteDanmakuFilterConfig st' userName).2 userName = None.
Proof.
  intros Hu. cbv zeta. unfold setDanmakuFilterConfig.
  rewrite decide_True by done. cbn [snd].
  set (new := {| dm_username := userName;
                 dm_rules := JSON_stringify config |}).
  split_and!.
  - unfold getDanmakuFilterConfig. simpl.
    pose proof (upsert_head same_danmaku danmaku_update dm_username
                  same_danmaku_key (λ _ _, eq_refl) dm_rules new
                  (danmaku_filter_configs (db st))) as Hh.
    simpl in Hh.
    destruct (head _) as [row|]; simpl in Hh.
    + specialize (Hh (λ _, eq_refl)). by inversion Hh.
    + by specialize (Hh (λ _, eq_refl)).
  - intros other Hne. unfold getDanmakuFilterConfig. simpl.
    by rewrite (upsert_frame same_danmaku danmaku_update dm_username
                  same_danmaku_key (λ _ _, eq_refl) other new
                  (danmaku_filter_configs (db st))).
  - unfold getDanmakuFilterConfig, deleteDanmakuFilterConfig. simpl.
    by rewrite (delete_head dm_username).
Qed.

End DanmakuRoundTrip.

Lemma setDanmakuFilterConfig_getDanmakuFilterConfig_witness :
  getDanmakuFilterConfig name_parse
    (setDanmakuFilterConfig name_stringify alice_state "alice" "spoiler").2
    "alice" = Some "spoiler".
Proof.
  destruct (setDanmakuFilterConfig_getDanmakuFilterConfig name_stringify
              name_parse alice_state "alice" "spoiler") as (Hget & _ & _).
  - unfold user_exists. apply (bool_decide_unpack _). vm_compute. exact I.
  - rewrite Hget. vm_compute. reflexivity.
Defined.

(** ** [global_config]: values, [LIKE] and the hash on top *)

Lemma same_global_key_key r r' : same_global_key r r' ↔ gc_key r = gc_key r'.
Proof. done. Qed.

Lemma global_lookup_upsert t key value now key' :
  gc_value <$>
    head (filter (λ r, gc_key r = key')
            (upsert same_global_key global_update
               {| gc_key := key; gc_value := value; gc_updated_at := now |} t))
  = if decide (key' = key) then Some value
    else gc_value <$> head (filter (λ r, gc_key r = key') t).
Proof.
  set (new := {| gc_key := key; gc_value := value; gc_updated_at := now |}).
  case_decide as Hk.
  - subst key'.
    by apply (upsert_head same_global_key global_update gc_key
                same_global_key_key (λ _ _, eq_refl) gc_value new t).
  - by rewrite (upsert_frame same_global_key global_update gc_key
                  same_global_key_key (λ _ _, eq_refl) key' new t).
Qed.

Lemma global_lookup_delete (t : list GlobalConfigRow) key key' :
  gc_value <$>
    head (filter (λ r, gc_key r = key') (filter (λ r, gc_key r ≠ key) t))
  = if decide (key' = key) then None
    else gc_value <$> head (filter (λ r, gc_key r = key') t).
Proof.
  case_decide as Hk.
  - subst key'. by rewrite (delete_head gc_key).
  - by rewrite (delete_frame gc_key).
Qed.

(** X22.  [global_config] as a store of values: [getGlobalValue] after
    [setGlobalValue] returns the value written under the key written and
    what it returned before under every other key; after
    [deleteGlobalValue] it returns [null] under the key deleted and what it
    returned before under every other; both writes keep [key] a key. *)
Theorem global_value_laws t key value now :
  (∀ key',
     getGlobalValue (setGlobalValue t key value now) key' =
     if decide (key' = key) then Some value else getGlobalValue t key') ∧
  (∀ key',
     getGlobalValue (deleteGlobalValue t key) key' =
     if decide (key' = key) then None else getGlobalValue t key') ∧
  (global_config_pk t →
   global_config_pk (setGlobalValue t key value now) ∧
   global_config_pk (deleteGlobalValue t key)).
Proof.
  split_and!.
  - intros key'. apply global_lookup_upsert.
  - intros key'. apply global_lookup_delete.
  - intros Hpk. split.
    + by apply (upsert_NoDup same_global_key global_update gc_key
                  same_global_key_key (λ _ _, eq_refl)).
    + eapply sublist_NoDup; [exact Hpk|]. apply fmap_sublist, sublist_filter.
Qed.

Lemma append_assoc (a b c : string) : (a +:+ b) +:+ c = a +:+ (b +:+ c).
Proof.
  induction a as [|x a IH]; [done|].
  change (String x ((a +:+ b) +:+ c) = String x (a +:+ (b +:+ c))).
  by rewrite IH.
Qed.

Lemma list_ascii_of_string_app a b :
  list_ascii_of_string (a +:+ b)
  = list_ascii_of_string a ++ list_ascii_of_string b.
Proof. induction a as [|c a IH]; simpl; [done|]. by rewrite IH. Qed.

(** *** Characters *)

Lemma join_cons ch l : join (ch :: l) = ch +:+ join l.
Proof. done. Qed.

Lemma join_app l r : join (l ++ r) = join l +:+ join r.
Proof.
  induction l as [|ch l IH]; [done|].
  rewrite <- app_comm_cons, !join_cons, IH. by rewrite append_assoc.
Qed.

Lemma take_continuations_join l :
  (take_continuations l).1 +:+ join (take_continuations l).2 = join l.
Proof.
  induction l as [|ch l IH]; [done|]. cbn [take_continuations].
  destruct (is_continuation ch); [|done].
  destruct (take_continuations l) as [bs r]. cbn [fst snd] in *.
  by rewrite join_cons, <- IH, append_assoc.
Qed.

Lemma join_chars s : join (chars s) = s.
Proof.
  induction s as [|c s IH]; [done|]. cbn [chars].
  destruct (lead c).
  - pose proof (take_continuations_join (chars s)) as H.
    destruct (take_continuations (chars s)) as [bs r]. cbn [fst snd] in H.
    rewrite IH in H. rewrite join_cons.
    change (String c (bs +:+ join r) = String c s). by rewrite H.
  - rewrite join_cons. change (String c (join (chars s)) = String c s).
    by rewrite IH.
Qed.

Lemma take_continuations_app l1 l2 :
  match l2 with [] => True | ch :: _ => is_continuation ch = false end →
  take_continuations (l1 ++ l2) =
  ((take_continuations l1).1, (take_continuations l1).2 ++ l2).
Proof.
  intros H2. induction l1 as [|ch l1 IH].
  - destruct l2 as [|ch l2]; [done|]. cbn. by rewrite H2.
  - rewrite <- app_comm_cons. cbn [take_continuations].
    destruct (is_continuation ch); [|done]. rewrite IH.
    by destruct (take_continuations l1).
Qed.

Lemma chars_head s :
  starts_with_continuation s = false →
  match chars s with [] => True | ch :: _ => is_continuation ch = false end.
Proof.
  destruct s as [|c s]; [done|]. cbn [starts_with_continuation chars].
  intros Hc. destruct (lead c).
  - destruct (take_continuations (chars s)) as [bs r]. by destruct bs.
  - done.
Qed.

Lemma chars_app p s :
  starts_with_continuation s = false →
  chars (p +:+ s) = chars p ++ chars s.
Proof.
  intros Hs. induction p as [|a p IH]; [done|].
  change (String a p +:+ s) with (String a (p +:+ s)).
  cbn [chars]. rewrite IH. destruct (lead a); [|done].
  rewrite take_continuations_app by (by apply chars_head).
  by destruct (take_continuations (chars p)).
Qed.

Lemma chars_ascii c s :
  lead c = false → chars (String c s) = String c EmptyString :: chars s.
Proof. intros Hc. cbn [chars]. by rewrite Hc. Qed.

Lemma continuation_not_lead c : continuation c = true → lead c = false.
Proof.
  unfold continuation, lead. cbv zeta.
  intros [_ H%Nat.ltb_lt]%andb_true_iff. apply Nat.leb_gt. lia.
Qed.

Lemma take_continuations_chars bs s :
  Forall (λ c, continuation c = true) (list_ascii_of_string bs) →
  starts_with_continuation s = false →
  take_continuations (chars (bs +:+ s)) = (bs, chars s).
Proof.
  intros Hbs Hs. induction bs as [|c bs IH].
  - change (EmptyString +:+ s) with s.
    pose proof (chars_head s Hs) as Hh.
    destruct (chars s) as [|ch r]; [done|]. cbn. by rewrite Hh.
  - cbn in Hbs. apply Forall_cons in Hbs as [Hc Hbs].
    change (String c bs +:+ s) with (String c (bs +:+ s)).
    rewrite chars_ascii by (by apply continuation_not_lead).
    cbn [take_continuations is_continuation]. rewrite Hc.
    by rewrite (IH Hbs).
Qed.

Lemma utf8_char_shape ch :
  utf8_char ch →
  ∃ c bs, ch = String c bs ∧ continuation c = false ∧
          (bs = EmptyString ∨ lead c = true) ∧
          Forall (λ c, continuation c = true) (list_ascii_of_string bs).
Proof.
  intros H. apply Is_true_true in H.
  destruct ch as [|c0 [|c1 [|c2 [|c3 [|c4 ch]]]]]; try done;
    exists c0; eexists; (split; [reflexivity|]);
    unfold utf8_char in H; cbn [list_ascii_of_string fmap list_fmap] in H;
    unfold continuation, lead; cbv zeta in *;
    repeat match goal with
    | H : _ && _ = true |- _ => apply andb_true_iff in H as [? ?]
    | H : _ || _ = true |- _ => apply orb_true_iff in H as [?|?]
    | H : (_ <=? _)%nat = true |- _ => apply Nat.leb_le in H
    | H : (_ <? _)%nat = true |- _ => apply Nat.ltb_lt in H
    | H : (_ =? _)%nat = true |- _ => apply Nat.eqb_eq in H
    end;
    (split_and!;
     [ apply andb_false_iff; rewrite Nat.leb_gt, Nat.ltb_ge; lia
     | first [by left | right; apply Nat.leb_le; lia]
     | repeat constructor;
       apply andb_true_iff; rewrite Nat.leb_le, Nat.ltb_lt; lia ]).
Qed.

Lemma utf8_char_start ch s :
  utf8_char ch → starts_with_continuation (ch +:+ s) = false.
Proof. intros (c & bs & -> & Hc & _)%utf8_char_shape. done. Qed.

(** A well-formed character in front of a text is its first character. *)
Lemma chars_one ch s :
  utf8_char ch →
  starts_with_continuation s = false →
  chars (ch +:+ s) = ch :: chars s.
Proof.
  intros (c & bs & -> & Hc & Hbs & Hall)%utf8_char_shape Hs.
  change (String c bs +:+ s) with (String c (bs +:+ s)).
  cbn [chars]. destruct (lead c) eqn:Hl.
  - by rewrite take_continuations_chars.
  - destruct Hbs as [->|?]; done.
Qed.

Lemma utf8_start s x :
  utf8 s →
  starts_with_continuation x = false →
  starts_with_continuation (s +:+ x) = false.
Proof.
  intros Hs Hx. destruct s as [|c s]; [done|].
  change (starts_with_continuation (String c s +:+ x)) with (continuation c).
  unfold utf8 in Hs. apply Is_true_true in Hs. cbn [chars] in Hs.
  destruct (lead c).
  - destruct (take_continuations (chars s)) as [bs r].
    cbn [forallb] in Hs. apply andb_true_iff in Hs as [Hch _].
    apply Is_true_true, utf8_char_shape in Hch
      as (c' & bs' & [= <- _] & Hc & _). done.
  - cbn [forallb] in Hs. apply andb_true_iff in Hs as [Hch _].
    apply Is_true_true, utf8_char_shape in Hch
      as (c' & bs' & [= <- _] & Hc & _). done.
Qed.

Lemma elem_of_join ch c l :
  ch ∈ l → c ∈ list_ascii_of_string ch → c ∈ list_ascii_of_string (join l).
Proof.
  intros Hch Hc. induction l as [|x l IH]; [by apply elem_of_nil in Hch|].
  rewrite join_cons, list_ascii_of_string_app. apply elem_of_app.
  apply elem_of_cons in Hch as [<-|Hch]; [by left|right; by apply IH].
Qed.

Lemma elem_of_chars ch c s :
  ch ∈ chars s → c ∈ list_ascii_of_string ch → c ∈ list_ascii_of_string s.
Proof.
  intros Hch Hc. rewrite <- (join_chars s). by apply (elem_of_join ch).
Qed.

Lemma no_backslash_chars s :
  no_backslash s → String backslash EmptyString ∉ chars s.
Proof.
  intros Hno Hin. apply Hno.
  apply (elem_of_chars _ _ _ Hin). cbn. left.
Qed.

Lemma plain_chars s :
  plain s →
  Forall (λ ch, ch ≠ "%" ∧ ch ≠ "_" ∧ ch ≠ String backslash EmptyString)
    (chars s).
Proof.
  unfold plain. rewrite !Forall_forall. intros Hp ch Hch.
  split_and!; intros ->.
  - destruct (Hp "%"%char) as (? & _); [|done].
    apply (elem_of_chars _ _ _ Hch). cbn. left.
  - destruct (Hp "_"%char) as (_ & ? & _); [|done].
    apply (elem_of_chars _ _ _ Hch). cbn. left.
  - destruct (Hp backslash) as (_ & _ & ?); [|done].
    apply (elem_of_chars _ _ _ Hch). cbn. left.
Qed.

(** *** [LIKE] *)

Lemma like_percent b pat s :
  like_chars b ("%" :: pat) s =
  like_chars b pat s ||
  match s with
  | [] => false
  | _ :: s' => like_chars b ("%" :: pat) s'
  end.
Proof. by destruct s. Qed.

Lemma like_percent_all b s : like_chars b ["%"] s = true.
Proof.
  induction s as [|c s IH]; [done|].
  rewrite like_percent. rewrite IH. apply orb_true_r.
Qed.

Lemma like_underscore b pat ch s :
  like_chars b ("_" :: pat) (ch :: s) = like_chars b pat s.
Proof. done. Qed.

Lemma like_literal b p pat c s :
  p ≠ "%" → p ≠ "_" → ¬ (b = Postgres ∧ p = String backslash EmptyString) →
  like_chars b (p :: pat) (c :: s) = same_char b p c && like_chars b pat s.
Proof.
  intros Hpc Hus Hesc. cbn [like_chars].
  rewrite (decide_False (P := p = "%")) by done.
  rewrite (decide_False (P := p = "_")) by done.
  by rewrite (decide_False (P := b = Postgres ∧ _)) by done.
Qed.

Lemma same_char_refl b c : same_char b c c = true.
Proof. destruct b; by apply bool_decide_eq_true. Qed.

(** What matches keeps matching behind a common beginning: always under
    SQLite, and under Postgres when the beginning has no backslash. *)
Lemma like_under_prefix b l pat s :
  b = D1 ∨ String backslash EmptyString ∉ l →
  like_chars b pat s = true → like_chars b (l ++ pat) (l ++ s) = true.
Proof.
  intros Hb Hlike. induction l as [|c l IH]; [done|].
  assert (b = D1 ∨ String backslash EmptyString ∉ l) as Hb'.
  { destruct Hb as [->|Hno]; [by left|right].
    by apply not_elem_of_cons in Hno as [_ ?]. }
  specialize (IH Hb'). rewrite <- !app_comm_cons.
  destruct (decide (c = "%")) as [->|Hpc].
  { rewrite like_percent. apply orb_true_iff. right.
    rewrite like_percent. by rewrite IH. }
  destruct (decide (c = "_")) as [->|Hus].
  { by rewrite like_underscore. }
  rewrite like_literal; [by rewrite same_char_refl| done..|].
  intros [-> ->]. destruct Hb as [?|Hno]; [done|].
  apply Hno. left.
Qed.

(** Under Postgres a pattern that begins with characters other than [%],
    [_] and the backslash matches only what begins with them. *)
Lemma like_plain_prefix l pat k :
  Forall (λ ch, ch ≠ "%" ∧ ch ≠ "_" ∧ ch ≠ String backslash EmptyString) l →
  like_chars Postgres (l ++ pat) k = true → ∃ r, k = l ++ r.
Proof.
  revert k. induction l as [|c l IH]; intros k Hl Hlike.
  { by exists k. }
  apply Forall_cons in Hl as [(Hpc & Hus & Hbs) Hl].
  rewrite <- app_comm_cons in Hlike.
  destruct k as [|c' k].
  { cbn [like_chars] in Hlike.
    rewrite (decide_False (P := c = "%")) in Hlike by done.
    rewrite (decide_False (P := c = "_")) in Hlike by done.
    by rewrite (decide_False (P := Postgres = Postgres ∧ _)) in Hlike
      by (by intros [_ ?]). }
  rewrite like_literal in Hlike; [|done..|by intros [_ ?]].
  apply andb_true_iff in Hlike as [Hc%bool_decide_eq_true Hlike].
  destruct (IH k Hl Hlike) as [r ->]. exists r. by rewrite Hc.
Qed.

Lemma dangling_escape_suffix n p :
  (String.length p ≤ n)%nat → dangling_escape (p +:+ ":%") = false.
Proof.
  revert p. induction n as [|n IH]; intros p Hn.
  { destruct p; [done|simpl in Hn; lia]. }
  destruct p as [|c p]; [done|].
  change (String c p +:+ ":%") with (String c (p +:+ ":%")).
  simpl in Hn. simpl. case_decide.
  - destruct p as [|c' p]; [done|].
    change (String c' p +:+ ":%") with (String c' (p +:+ ":%")).
    apply IH. simpl in Hn. lia.
  - apply IH. lia.
Qed.

Lemma hash_field_key_prefix hashKey field :
  hash_field_key hashKey field = hash_prefix hashKey +:+ field.
Proof. unfold hash_field_key, hash_prefix. symmetry. apply append_assoc. Qed.

Lemma plain_no_backslash s : plain s → no_backslash s.
Proof.
  unfold plain, no_backslash. rewrite Forall_forall.
  intros Hp Hin. by destruct (Hp _ Hin) as (_ & _ & ?).
Qed.

(** The characters of the pattern and of a key of the hash. *)
Lemma chars_hash_prefix hashKey :
  chars (hash_prefix hashKey) = chars hashKey ++ [":"].
Proof. unfold hash_prefix. by rewrite chars_app. Qed.

Lemma chars_hash_pattern hashKey :
  chars (hash_pattern hashKey) = chars hashKey ++ [":"; "%"].
Proof.
  unfold hash_pattern, hash_prefix. rewrite append_assoc.
  by rewrite chars_app.
Qed.

Lemma chars_hash_field_key hashKey field :
  chars (hash_field_key hashKey field) = chars hashKey ++ ":" :: chars field.
Proof. unfold hash_field_key. by rewrite chars_app. Qed.

Lemma like_hash_own b hashKey field :
  b = D1 ∨ no_backslash hashKey →
  like b (hash_pattern hashKey) (hash_field_key hashKey field) = true.
Proof.
  intros Hb. unfold like.
  rewrite chars_hash_pattern, chars_hash_field_key.
  apply like_under_prefix.
  { destruct Hb as [?|Hno]; [by left|right]. by apply no_backslash_chars. }
  rewrite like_literal; [|done..|by intros [_ ?]].
  rewrite same_char_refl. apply like_percent_all.
Qed.

Lemma like_hash_plain hashKey key :
  plain hashKey →
  like Postgres (hash_pattern hashKey) key = true →
  ∃ field, key = hash_field_key hashKey field.
Proof.
  intros Hp Hlike. unfold like in Hlike.
  rewrite chars_hash_pattern in Hlike.
  change (chars hashKey ++ [":"; "%"])
    with (chars hashKey ++ [":"] ++ ["%"]) in Hlike.
  rewrite app_assoc in Hlike.
  apply like_plain_prefix in Hlike as [r Hr].
  - exists (join r). rewrite <- (join_chars key), Hr.
    rewrite !join_app, join_chars, hash_field_key_prefix.
    unfold hash_prefix. done.
  - apply Forall_app. split; [by apply plain_chars|].
    apply Forall_singleton. done.
Qed.

(** X23.  The pattern [hashKey:%] of [hGetAll] and [del].  Under D1 it
    matches every key [hashKey:field], whatever the hash key; under
    Postgres it does when the hash key has no backslash; and under Postgres
    it matches nothing but such keys when the hash key has none of [%],
    [_] and the backslash.  It never ends in a lone escape. *)
Theorem hash_pattern_matches hashKey :
  (∀ field,
     like D1 (hash_pattern hashKey) (hash_field_key hashKey field) = true) ∧
  (no_backslash hashKey →
   ∀ field,
     like Postgres (hash_pattern hashKey) (hash_field_key hashKey field)
     = true) ∧
  (plain hashKey →
   ∀ key, like Postgres (hash_pattern hashKey) key = true ↔
          ∃ field, key = hash_field_key hashKey field) ∧
  dangling_escape (hash_pattern hashKey) = false.
Proof.
  split_and!.
  - intros field. apply like_hash_own. by left.
  - intros Hno field. apply like_hash_own. by right.
  - intros Hp key. split; [by apply like_hash_plain|].
    intros [field ->]. apply like_hash_own. right.
    by apply plain_no_backslash.
  - unfold hash_pattern, hash_prefix. rewrite append_assoc.
    by apply (dangling_escape_suffix (String.length hashKey)).
Qed.

Lemma chars_nonempty s : Forall (λ ch, ch ≠ EmptyString) (chars s).
Proof.
  induction s as [|c s IH]; [constructor|]. cbn [chars]. destruct (lead c).
  - pose proof (take_continuations_join (chars s)) as _.
    assert (∀ l, Forall (λ ch, ch ≠ EmptyString) l →
                 Forall (λ ch, ch ≠ EmptyString) (take_continuations l).2)
      as Htake.
    { induction l as [|ch l IHl]; [done|]. cbn [take_continuations].
      intros [Hch Hl]%Forall_cons. destruct (is_continuation ch).
      - specialize (IHl Hl). by destruct (take_continuations l).
      - by constructor. }
    specialize (Htake _ IH).
    destruct (take_continuations (chars s)) as [bs r]. by constructor.
  - by constructor.
Qed.

Lemma drop_units_app l r :
  Forall (λ ch, ch ≠ EmptyString) l →
  drop_units (sum_list (units <$> l)) (l ++ r) = r.
Proof.
  induction l as [|ch l IH]; intros Hl.
  { by destruct r. }
  apply Forall_cons in Hl as [Hch Hl]. specialize (IH Hl).
  rewrite fmap_cons. cbn [sum_list sum_list_with id].
  rewrite <- app_comm_cons.
  assert (units ch = 2%nat ∨ units ch = 1%nat) as [Hu|Hu].
  { destruct ch as [|c bs]; [done|]. unfold units.
    destruct (240 <=? nat_of_ascii c)%nat; auto. }
  - rewrite Hu. cbn [Nat.add drop_units]. by rewrite decide_True.
  - rewrite Hu. cbn [Nat.add drop_units].
    by rewrite decide_False by (by rewrite Hu).
Qed.

(** [fullKey.substring(prefix.length)] of a key of the hash is its
    field. *)
Lemma substring_from_append hashKey field :
  substring_from (utf16_length (hash_prefix hashKey))
    (hash_field_key hashKey field) = field.
Proof.
  unfold substring_from, utf16_length.
  rewrite chars_hash_field_key, chars_hash_prefix.
  change (chars hashKey ++ ":" :: chars field)
    with (chars hashKey ++ [":"] ++ chars field).
  rewrite app_assoc, drop_units_app; [apply join_chars|].
  apply Forall_app. split; [apply chars_nonempty|by constructor].
Qed.

Lemma append_inj_l p s s' : p +:+ s = p +:+ s' → s = s'.
Proof.
  induction p as [|c p IH]; [done|].
  change (String c (p +:+ s) = String c (p +:+ s') → s = s').
  intros [= Heq]. by apply IH.
Qed.

Lemma filter_ext_in {A} (P Q : A → Prop) `{!∀ x, Decision (P x)}
    `{!∀ x, Decision (Q x)} (l : list A) :
  (∀ x, x ∈ l → P x ↔ Q x) → filter P l = filter Q l.
Proof.
  induction l as [|x l IH]; intros Hl; [done|].
  rewrite !filter_cons.
  rewrite IH by (intros y Hy; apply Hl; by right).
  destruct (decide (P x)) as [HP|HP], (decide (Q x)) as [HQ|HQ];
    try done; destruct (Hl x); try left; tauto.
Qed.

(** X24.  After [del] nothing of the hash can be read: [hGet] answers
    [null] for every field and [hGetAll] is empty.  This holds under D1 for
    every hash key and under Postgres for the hash keys without a
    backslash.  What [del] removes is what the pattern matches, so under
    Postgres a hash key without [%], [_] and the backslash loses no field
    of any other hash. *)
Theorem del_hGet b t hashKey :
  (b = D1 ∨ no_backslash hashKey →
   (∀ field, hGet (del b t hashKey) hashKey field = None) ∧
   hGetAll b (del b t hashKey) hashKey = ∅) ∧
  (plain hashKey →
   ∀ hashKey' field,
     (∀ field', hash_field_key hashKey' field ≠ hash_field_key hashKey field') →
     hGet (del Postgres t hashKey) hashKey' field = hGet t hashKey' field).
Proof.
  split.
  - intros Hb.
    assert (∀ field,
              like b (hash_pattern hashKey) (hash_field_key hashKey field)
              = true) as Hown
      by (intros field; by apply like_hash_own).
    split.
    + intros field. unfold hGet, del. rewrite list_filter_filter.
      rewrite filter_none; [done|].
      intros r _ [Hkey Hlike]. apply Hlike. rewrite Hkey. apply Hown.
    + unfold hGetAll, del. rewrite list_filter_filter.
      rewrite filter_none; [done|]. by intros r _ [Hlike Hnot].
  - intros Hp hashKey' field Hother. unfold hGet, del.
    rewrite list_filter_filter. f_equal. f_equal.
    apply list_filter_iff. intros r. split; [tauto|].
    intros Hkey. split; [done|]. intros Hlike.
    apply like_hash_plain in Hlike as [field' Hr]; [|done].
    apply (Hother field'). congruence.
Qed.

(** X25.  Let [key] be the key of the table, and let the pattern
    [hashKey:%] match no key of the table but the keys [hashKey:field], as
    it does under Postgres for a hash key without [%], [_] and the
    backslash.  Then, under D1 for every hash key and under Postgres for a
    hash key without a backslash, [hGetAll] files under every field but
    ['__proto__'] what [hGet] returns for it; so a field written with
    [hSet] is there with the value written. *)
Theorem hGetAll_hGet b t hashKey field :
  global_config_pk t →
  b = D1 ∨ no_backslash hashKey →
  own_keys_only b t hashKey →
  field ≠ "__proto__" →
  hGetAll b t hashKey !! field = hGet t hashKey field.
Proof.
  intros Hpk Hb Hown Hfield.
  assert (like b (hash_pattern hashKey) (hash_field_key hashKey field) = true)
    as Hmine by (by apply like_hash_own).
  unfold hGetAll, hGet. rewrite object_of_lookup by done.
  rewrite list_filter_filter.
  rewrite (filter_ext_in _ (λ r, gc_key r = hash_field_key hashKey field)).
  - rewrite at_most_one_head_last; [done|].
    by apply (keyed_at_most_one gc_key).
  - intros r Hr. simpl. split.
    + intros [Hsub Hlike]. destruct (Hown r Hr Hlike) as [field' Hkey].
      rewrite Hkey, substring_from_append in Hsub. by rewrite Hkey, Hsub.
    + intros Hkey. rewrite Hkey. split; [|done].
      apply substring_from_append.
Qed.

Lemma plain_own_keys_only t hashKey :
  plain hashKey → own_keys_only Postgres t hashKey.
Proof.
  intros Hp r _ Hlike. by apply like_hash_plain.
Qed.

Lemma hGetAll_hGet_witness :
  hGetAll Postgres token_table "user_tokens:alice" !! "t2" = Some "laptop".
Proof.
  rewrite (hGetAll_hGet Postgres token_table "user_tokens:alice" "t2").
  - reflexivity.
  - unfold global_config_pk. apply (bool_decide_unpack _). vm_compute. exact I.
  - right. apply (bool_decide_unpack _). vm_compute. exact I.
  - intros r Hr Hlike.
    assert (token_table =
            [ {| gc_key := "user_tokens:alice:t1"; gc_value := "phone";
                 gc_updated_at := 1 |};
              {| gc_key := "user_tokens:alice:t2"; gc_value := "laptop";
                 gc_updated_at := 2 |};
              {| gc_key := "user_tokens:bob:t1"; gc_value := "tablet";
                 gc_updated_at := 3 |} ]) as Ht by (vm_compute; reflexivity).
    rewrite Ht in Hr.
    apply elem_of_cons in Hr as [->|Hr]; [by exists "t1"|].
    apply elem_of_cons in Hr as [->|Hr]; [by exists "t2"|].
    apply list_elem_of_singleton in Hr as ->.
    vm_compute in Hlike. discriminate Hlike.
  - apply (bool_decide_unpack _). vm_compute. exact I.
Defined.



(** ** The records [ContinueWatching] shows *)

Lemma insert_desc_perm {A} (col : A → Z) x l :
  insert_desc col x l ≡ₚ x :: l.
Proof.
  induction l as [|y l IH]; [done|]. simpl. case_decide; [|done].
  by rewrite IH, Permutation_swap.
Qed.

Lemma sort_desc_perm {A} (col : A → Z) l : sort_desc col l ≡ₚ l.
Proof.
  induction l as [|x l IH]; [done|]. unfold sort_desc in *. simpl.
  by rewrite insert_desc_perm, IH.
Qed.

Lemma sort_desc_length {A} (col : A → Z) l :
  length (sort_desc col l) = length l.
Proof. by rewrite sort_desc_perm. Qed.

Lemma insert_desc_sorted {A} (col : A → Z) x l :
  StronglySorted (desc_by col) l →
  StronglySorted (desc_by col) (insert_desc col x l).
Proof.
  induction 1 as [|y l Hs IH Hall]; simpl.
  { repeat constructor. }
  case_decide as Hlt.
  - constructor; [done|].
    rewrite insert_desc_perm. constructor; [|done].
    unfold desc_by. lia.
  - constructor; [by constructor|].
    constructor; [unfold desc_by; lia|].
    eapply Forall_impl; [exact Hall|]. unfold desc_by. intros z. simpl. lia.
Qed.

Lemma sort_desc_sorted {A} (col : A → Z) l :
  StronglySorted (desc_by col) (sort_desc col l).
Proof.
  induction l as [|x l IH]; [constructor|]. by apply insert_desc_sorted.
Qed.

Lemma insert_desc_stable {A} (col : A → Z) v x s :
  filter (λ x, col x = v) (insert_desc col x s)
  = filter (λ x, col x = v) (x :: s).
Proof.
  induction s as [|y s IHs]; [done|].
  simpl. case_decide as Hlt; [|done].
  rewrite (filter_cons _ y), IHs, !filter_cons.
  destruct (decide (col y = v)), (decide (col x = v)); try done. lia.
Qed.

(** The sort is stable: the elements with a given value of [col] are in
    the order they had. *)
Lemma sort_desc_stable {A} (col : A → Z) v l :
  filter (λ x, col x = v) (sort_desc col l) = filter (λ x, col x = v) l.
Proof.
  induction l as [|x l IH]; [done|]. unfold sort_desc in *. simpl.
  by rewrite insert_desc_stable, !filter_cons, IH.
Qed.

Lemma updatePlayRecords_take allRecords limit :
  ∃ m,
    updatePlayRecords allRecords limit
    = take m (sort_desc (λ e, save_time e.2) allRecords) ∧
    m = match or_null limit with
        | None => length allRecords
        | Some n =>
            if decide (n < 0)
            then (length allRecords - Z.to_nat (- n))%nat
            else Z.to_nat n
        end.
Proof.
  unfold updatePlayRecords. destruct (or_null limit) as [n|].
  - unfold slice0. rewrite sort_desc_length.
    case_decide; eexists; split; done.
  - exists (length allRecords). split; [|done].
    rewrite take_ge; [done|]. by rewrite sort_desc_length.
Qed.

(** X27.  [updatePlayRecords] shows the records from the latest
    [save_time] to the earliest; whatever it leaves out was saved no later
    than anything it shows; without a limit, or with the limit [0], it
    shows all of them, with a positive limit that many when there are that
    many, and with a negative limit all but that many of the oldest. *)
Theorem updatePlayRecords_newest allRecords limit :
  let shown := updatePlayRecords allRecords limit in
  StronglySorted (desc_by (λ e, save_time e.2)) shown ∧
  (∀ kept gone,
     kept ∈ shown → gone ∈ allRecords → gone ∉ shown →
     save_time gone.2 ≤ save_time kept.2) ∧
  length shown =
    match or_null limit with
    | None => length allRecords
    | Some n =>
        if decide (n < 0)
        then (length allRecords - Z.to_nat (- n))%nat
        else (Z.to_nat n `min` length allRecords)%nat
    end.
Proof.
  cbv zeta.
  destruct (updatePlayRecords_take allRecords limit) as (m & -> & Hm).
  pose proof (sort_desc_sorted (λ e : string * PlayRecord, save_time e.2)
                allRecords) as Hs.
  rewrite <- (take_drop m) in Hs.
  split_and!.
  - by apply StronglySorted_app_1_l in Hs.
  - intros kept gone Hk Hg Hng.
    apply (StronglySorted_app_1_elem_of _ _ _ kept gone Hs Hk).
    rewrite <- (sort_desc_perm (λ e, save_time e.2)) in Hg.
    rewrite <- (take_drop m (sort_desc _ allRecords)) in Hg.
    apply elem_of_app in Hg as [Hg|Hg]; [done|exact Hg].
  - rewrite length_take, sort_desc_length, Hm.
    destruct (or_null limit) as [n|]; [|lia]. case_decide; lia.
Qed.

(** ** The keys of every table hold in every reachable state *)

Lemma shrinks_refl d : shrinks d d.
Proof. by repeat split. Qed.

Ltac side_tables :=
  first [apply shrinks_refl | unfold shrinks; simpl; by repeat split].

Lemma shrinks_trans d1 d2 d3 : shrinks d1 d2 → shrinks d2 d3 → shrinks d1 d3.
Proof.
  intros (?&?&?&?&?) (?&?&?&?&?). repeat split; by etrans.
Qed.

Lemma shrinks_delete_from_users d userName :
  shrinks d (delete_from_users d userName).
Proof.
  unfold delete_from_users. case_decide; [|side_tables].
  repeat split; apply sublist_filter.
Qed.

Lemma shrinks_insert_user d row d' :
  insert_user d row = Some d' → shrinks d d'.
Proof.
  unfold insert_user. repeat case_decide; try done.
  intros [= <-]. side_tables.
Qed.

Lemma shrinks_getUserInfoV2 b env now st userName :
  shrinks (db st) (db (getUserInfoV2 b env now st userName).2).
Proof.
  unfold getUserInfoV2.
  destruct (cache st !! userName); [side_tables|].
  destruct (select_user (db st) userName); [side_tables|].
  destruct (eq_env userName (USERNAME env)); [|side_tables].
  destruct (insert_user (db st) (owner_row userName now)) as [d|] eqn:Hins;
    [|side_tables].
  simpl. by eapply shrinks_insert_user.
Qed.

Lemma shrinks_exec b env op st : shrinks (db st) (db (exec b env op st)).
Proof.
  destruct op; simpl.
  - unfold setPlayRecord. case_decide; side_tables.
  - side_tables.
  - unfold cleanupOldPlayRecords.
    destruct (maxRecords env); [|side_tables].
    case_decide; [side_tables|].
    destruct (newest_keys _ _ _ _); side_tables.
  - unfold migratePlayRecords. destruct b; side_tables.
  - unfold migrateFavorites. destruct b; side_tables.
  - unfold migrateSkipConfigs. destruct b; side_tables.
  - side_tables.
  - apply shrinks_delete_from_users.
  - apply shrinks_getUserInfoV2.
  - unfold createUserV2.
    destruct (insert_user _ _) as [d|] eqn:Hins; [|side_tables].
    destruct b; simpl; by eapply shrinks_insert_user.
  - unfold getUserListV2.
    destruct (truthy ownerUsername) as [o|].
    + pose proof (shrinks_getUserInfoV2 b env now st o) as Hinfo.
      destruct (getUserInfoV2 b env now st o) as [info st1]. simpl in Hinfo.
      destruct (actual_window _ _ _ _) as [off lim].
      by destruct (limit_offset _ _ _ _).
    + destruct (actual_window _ _ _ _) as [off lim].
      destruct (limit_offset _ _ _ _); side_tables.
  - unfold updateUserInfoV2.
    destruct (no_updates updates); [side_tables|].
    case_decide; side_tables.
  - unfold changePasswordV2. destruct b; side_tables.
  - apply shrinks_delete_from_users.
  - side_tables.
  - unfold createUserWithHashedPassword.
    destruct (insert_user _ _) as [d|] eqn:Hins; [|side_tables].
    by eapply shrinks_insert_user.
  - side_tables.
  - side_tables.
  - side_tables.
  - unfold addSearchHistory, upsert_search.
    case_decide; simpl; [|side_tables].
    case_decide; side_tables.
  - side_tables.
  - side_tables.
  - repeat split; apply sublist_nil_l.
Qed.

Lemma keys_ok_exec b env op st :
  keys_ok (db st) → keys_ok (db (exec b env op st)).
Proof.
  intros (Hok & Hf & Hs & Hd & Hn & Hc).
  destruct (shrinks_exec b env op st) as (Sf & Ss & Sd & Sn & Sc).
  split_and!.
  - by apply schema_ok_exec.
  - eapply sublist_NoDup; [exact Hf|by apply fmap_sublist].
  - eapply sublist_NoDup; [exact Hs|by apply fmap_sublist].
  - eapply sublist_NoDup; [exact Hd|by apply fmap_sublist].
  - eapply sublist_NoDup; [exact Hn|by apply fmap_sublist].
  - eapply sublist_NoDup; [exact Hc|by apply fmap_sublist].
Qed.

Lemma Forall_upsert {A} (same : relation A) `{!RelDecision same}
    (set : A → A → A) (P : A → Prop) new (t : list A) :
  Forall P t → P new → (∀ old, P old → P (set old new)) →
  Forall P (upsert same set new t).
Proof.
  intros Ht Hnew Hset. unfold upsert. case_decide.
  - apply Forall_fmap. eapply Forall_impl; [exact Ht|].
    intros r Hr. simpl. case_decide; [by apply Hset|done].
  - apply Forall_app. split; [done|]. by apply Forall_singleton.
Qed.

Lemma Forall_filter_keep {A} (P Q : A → Prop) `{!∀ x, Decision (Q x)}
    (t : list A) :
  Forall P t → Forall P (filter Q t).
Proof.
  rewrite !Forall_forall. intros Ht x [_ Hx]%list_elem_of_filter.
  by apply Ht.
Qed.

Lemma keys_ok_set_favorites d t :
  keys_ok d →
  NoDup ((λ r, (fav_username r, fav_key r)) <$> t) →
  Forall (λ r, user_exists d (fav_username r)) t →
  keys_ok (set_favorites d t).
Proof.
  intros ((Hpk & Hpr & Hsh & Hac & Hfk) & Hf & Hs & Hd & Hn & Hc) Hnd Hall.
  destruct Hfk as (F1 & F2 & F3 & F4 & F5 & F6 & F7 & F8).
  split_and!; try done; split_and!; try done; split_and!; done.
Qed.

Lemma keys_ok_set_skip_configs d t :
  keys_ok d →
  NoDup ((λ r, (sk_username r, sk_key r)) <$> t) →
  Forall (λ r, user_exists d (sk_username r)) t →
  keys_ok (set_skip_configs d t).
Proof.
  intros ((Hpk & Hpr & Hsh & Hac & Hfk) & Hf & Hs & Hd & Hn & Hc) Hnd Hall.
  destruct Hfk as (F1 & F2 & F3 & F4 & F5 & F6 & F7 & F8).
  split_and!; try done; split_and!; try done; split_and!; done.
Qed.

Lemma keys_ok_set_danmaku_filter_configs d t :
  keys_ok d →
  NoDup (dm_username <$> t) →
  Forall (λ r, user_exists d (dm_username r)) t →
  keys_ok (set_danmaku_filter_configs d t).
Proof.
  intros ((Hpk & Hpr & Hsh & Hac & Hfk) & Hf & Hs & Hd & Hn & Hc) Hnd Hall.
  destruct Hfk as (F1 & F2 & F3 & F4 & F5 & F6 & F7 & F8).
  split_and!; try done; split_and!; try done; split_and!; done.
Qed.

Lemma keys_ok_set_notifications d t :
  keys_ok d →
  NoDup (nt_id <$> t) →
  Forall (λ r, user_exists d (nt_username r)) t →
  keys_ok (set_notifications d t).
Proof.
  intros ((Hpk & Hpr & Hsh & Hac & Hfk) & Hf & Hs & Hd & Hn & Hc) Hnd Hall.
  destruct Hfk as (F1 & F2 & F3 & F4 & F5 & F6 & F7 & F8).
  split_and!; try done; split_and!; try done; split_and!; done.
Qed.

Lemma keys_ok_set_favorite_check_times d t :
  keys_ok d →
  NoDup (fct_username <$> t) →
  Forall (λ r, user_exists d (fct_username r)) t →
  keys_ok (set_favorite_check_times d t).
Proof.
  intros ((Hpk & Hpr & Hsh & Hac & Hfk) & Hf & Hs & Hd & Hn & Hc) Hnd Hall.
  destruct Hfk as (F1 & F2 & F3 & F4 & F5 & F6 & F7 & F8).
  split_and!; try done; split_and!; try done; split_and!; done.
Qed.

Lemma keys_ok_call b env c st :
  keys_ok (db st) → keys_ok (db (call b env c st)).
Proof.
  intros Hok.
  pose proof Hok as
    ((_ & _ & _ & _ & F1 & F2 & F3 & F4 & F5 & F6 & F7 & F8)
     & Hf & Hs & Hd & Hn & Hc).
  destruct c; simpl.
  - by apply keys_ok_exec.
  - unfold setFavorite. case_decide as Hu; [|done]. destruct Hu as [Hu _].
    simpl. apply keys_ok_set_favorites; [done| |].
    + by apply (upsert_NoDup same_favorite favorite_update
                  (λ r, (fav_username r, fav_key r)) same_favorite_key
                  (λ _ _, eq_refl)).
    + by apply Forall_upsert.
  - apply keys_ok_set_favorites; [done| |by apply Forall_filter_keep].
    eapply sublist_NoDup; [exact Hf|]. apply fmap_sublist, sublist_filter.
  - unfold setSkipConfig. case_decide as Hu; [|done]. destruct Hu as [Hu _].
    simpl. apply keys_ok_set_skip_configs; [done| |].
    + by apply (upsert_NoDup same_skip_config skip_config_update
                  (λ r, (sk_username r, sk_key r)) same_skip_config_key
                  (λ _ _, eq_refl)).
    + by apply Forall_upsert.
  - apply keys_ok_set_skip_configs; [done| |by apply Forall_filter_keep].
    eapply sublist_NoDup; [exact Hs|]. apply fmap_sublist, sublist_filter.
  - unfold setDanmakuFilterConfig. case_decide as Hu; [|done].
    simpl. apply keys_ok_set_danmaku_filter_configs; [done| |].
    + by apply (upsert_NoDup same_danmaku danmaku_update dm_username
                  same_danmaku_key (λ _ _, eq_refl)).
    + by apply Forall_upsert.
  - apply keys_ok_set_danmaku_filter_configs;
      [done| |by apply Forall_filter_keep].
    eapply sublist_NoDup; [exact Hd|]. apply fmap_sublist, sublist_filter.
  - unfold addNotification. case_decide as Hu; [|done].
    destruct Hu as (Hu & _ & Hid).
    simpl. apply keys_ok_set_notifications; [done| |].
    + rewrite fmap_app. apply NoDup_app.
      split_and!; [done| |apply NoDup_singleton].
      by intros i Hi ->%list_elem_of_singleton.
    + apply Forall_app. split; [done|]. by apply Forall_singleton.
  - apply keys_ok_set_notifications; [done| |].
    + rewrite <- list_fmap_compose.
      erewrite list_fmap_ext; [exact Hn|].
      intros i r _. simpl. by case_decide.
    + apply Forall_fmap. eapply Forall_impl; [exact F6|].
      intros r Hr. simpl. by case_decide.
  - apply keys_ok_set_notifications; [done| |by apply Forall_filter_keep].
    eapply sublist_NoDup; [exact Hn|]. apply fmap_sublist, sublist_filter.
  - apply keys_ok_set_notifications; [done| |by apply Forall_filter_keep].
    eapply sublist_NoDup; [exact Hn|]. apply fmap_sublist, sublist_filter.
  - unfold setLastFavoriteCheckTime. case_decide as Hu; [|done].
    simpl. apply keys_ok_set_favorite_check_times; [done| |].
    + by apply (upsert_NoDup same_check_time check_time_update fct_username
                  same_check_time_key (λ _ _, eq_refl)).
    + by apply Forall_upsert.
Qed.

Lemma keys_ok_empty : keys_ok empty_db.
Proof.
  split; [apply schema_ok_empty|]. repeat split; constructor.
Qed.

(** X28.  Whatever the calls, of [Op] or on the favorites, the skip
    configurations, the danmaku filters, the notifications and the check
    times, each of them leads from a database that satisfies the keys and
    the foreign keys of the schema to one that does; the empty database
    does. *)
Theorem keys_ok_calls b env cs st :
  keys_ok (db st) → keys_ok (db (calls b env cs st)).
Proof.
  revert st. induction cs as [|c cs IH]; intros st Hst; [done|].
  simpl. by apply IH, keys_ok_call.
Qed.

Lemma keys_ok_calls_witness :
  keys_ok
    (db (calls D1 sample_env
           [Earlier (CreateUserV2 "bob" "pw" RoleUser None None None 1);
            SetFavorite "bob" "tmdb+1" sample_favorite;
            AddNotification "bob" (sample_notification "n1" 2 false);
            Earlier (DeleteUserV2 "bob")]
           empty_state)).
Proof. apply keys_ok_calls, keys_ok_empty. Defined.

(** ** Playlists *)

Lemma sql_max_bound {A} (col : A → Z) (rows : list A) r :
  r ∈ rows → ∃ mx, sql_max col rows = Some mx ∧ col r ≤ mx.
Proof.
  induction rows as [|x rows IH]; [by intros ?%elem_of_nil|].
  intros [->|Hr]%elem_of_cons; simpl.
  - destruct (sql_max col rows) as [mx|]; simpl; eexists; split; try done; lia.
  - destruct (IH Hr) as (mx & -> & Hle). simpl.
    eexists; split; [done|]. lia.
Qed.

Lemma nextSortOrder_above {Real} (m : MusicDb Real) playlistId r :
  r ∈ songs_of m playlistId → ps_sort_order r < nextSortOrder m playlistId.
Proof.
  intros Hr. unfold nextSortOrder.
  destruct (sql_max_bound ps_sort_order _ r Hr) as (mx & -> & Hle).
  simpl. case_decide; simpl; lia.
Qed.

(** In a list in ascending order a row above all the others is the last
    one. *)
Lemma sorted_last {A} (col : A → Z) (l : list A) x :
  StronglySorted (asc_by col) l → x ∈ l →
  (∀ y, y ∈ l → y = x ∨ col y < col x) →
  ∃ front, l = front ++ [x].
Proof.
  intros Hs Hx Hmax. destruct l as [|a l] using rev_ind.
  { by apply elem_of_nil in Hx. }
  clear IHl. exists l. f_equal. f_equal.
  destruct (Hmax a) as [->|Hlt]; [apply elem_of_app; right; left|done|].
  apply elem_of_app in Hx as [Hx|Hx%list_elem_of_singleton]; [|done].
  assert (a ∈ [a]) as Ha by left.
  pose proof (StronglySorted_app_1_elem_of _ _ _ x a Hs Hx Ha) as Hle.
  unfold asc_by in Hle. lia.
Qed.

Lemma str_or_null_idemp o : str_or_null (str_or_null o) = str_or_null o.
Proof.
  destruct o as [s|]; [|done]. simpl. case_decide; [done|].
  simpl. by rewrite decide_False.
Qed.

Lemma order_by_asc_perm {A} (col : A → Z) (l : list A) :
  order_by_asc col l ≡ₚ l.
Proof. apply merge_sort_Permutation. Qed.

Lemma order_by_asc_sorted {A} (col : A → Z) (l : list A) :
  StronglySorted (asc_by col) (order_by_asc col l).
Proof. apply StronglySorted_merge_sort; apply _. Qed.

Section Playlists.
Context {Num Real : Type}.
Variable to_real : Num → option Real.
Variable of_real : Real → Num.

Lemma rowToPlaylistSong_values playlistId (song : Song Num) duration now sort :
  rowToPlaylistSong of_real (song_values playlistId song duration now sort)
  = listed_song of_real song duration now sort.
Proof.
  unfold rowToPlaylistSong, song_values, listed_song. simpl.
  by rewrite !str_or_null_idemp.
Qed.


End Playlists.

